(** * Transcript synchronisation scripts: a shallow embedding

    The development follows the Python scripts under [scripts/]:
    [download_transcripts.py], [assemblyai_transcribe.py],
    [pull_youtube_captions.py], [sync_transcripts_to_notion.py] and
    [sync_youtube_transcripts_to_notion.py].  Pure functions are Rocq
    functions over Python strings; the scripts that talk to the file
    system, the transcription service and the workspace database are
    written with explicit state passing over a small model of each
    collaborator. *)

From Stdlib Require Import List String Ascii NArith ZArith QArith Bool Arith Lia.
From Stdlib Require Import DecimalString.
Import ListNotations.

Set Implicit Arguments.
Close Scope Q_scope.
Open Scope nat_scope.

(* ================================================================== *)
(** * Python strings *)
(* ================================================================== *)

Module Py.

(** A Python [str] is a sequence of Unicode code points. *)
Definition char := N.
Definition str := list char.

(** ASCII literals of the sources, as code points. *)
Definition lit (s : string) : str :=
  map N_of_ascii (list_ascii_of_string s).

(** [len(s)] *)
Abbreviation len := (@List.length _) (only parsing).

Definition SPACE : char := 32%N.
Definition NEWLINE : char := 10%N.

Fixpoint eqb (s t : str) : bool :=
  match s, t with
  | [], [] => true
  | c :: s', d :: t' => (c =? d)%N && eqb s' t'
  | _, _ => false
  end.

(** [str.isspace] on one code point: the white-space table of CPython
    ([_PyUnicode_IsWhitespace]); [str.strip()], [str.split()] and the
    [\s] class of [re] on [str] patterns all use it. *)
Definition isspace (c : char) : bool :=
  match c with
  | 9 | 10 | 11 | 12 | 13 | 28 | 29 | 30 | 31 | 32
  | 133 | 160 | 5760 | 8232 | 8233 | 8239 | 8287 | 12288 => true
  | _ => (8192 <=? c) && (c <=? 8202)
  end%N.

Fixpoint lstrip (s : str) : str :=
  match s with
  | c :: s' => if isspace c then lstrip s' else s
  | [] => []
  end.

Definition rstrip (s : str) : str := rev (lstrip (rev s)).

(** [s.strip()] *)
Definition strip (s : str) : str := rstrip (lstrip s).

(** [s.split(sep)] for a one-character separator. *)
Fixpoint split_on (sep : char) (s : str) : list str :=
  match s with
  | [] => [[]]
  | c :: s' =>
      if (c =? sep)%N then [] :: split_on sep s'
      else match split_on sep s' with
           | l :: ls => (c :: l) :: ls
           | [] => [[c]]
           end
  end.

(** [s.split()]: the maximal runs of non-white-space characters.
    [cur] holds the characters of the current run, last one first. *)
Fixpoint split_ws_from (cur : str) (s : str) : list str :=
  match s with
  | [] => match cur with [] => [] | _ => [rev cur] end
  | c :: s' =>
      if isspace c
      then match cur with
           | [] => split_ws_from [] s'
           | _ => rev cur :: split_ws_from [] s'
           end
      else split_ws_from (c :: cur) s'
  end.

Definition split (s : str) : list str := split_ws_from [] s.

(** [sep.join(parts)] *)
Fixpoint join (sep : str) (parts : list str) : str :=
  match parts with
  | [] => []
  | [p] => p
  | p :: ps => p ++ sep ++ join sep ps
  end.

(** [s.startswith(p)] *)
Fixpoint startswith (s p : str) : bool :=
  match p, s with
  | [], _ => true
  | c :: p', d :: s' => (c =? d)%N && startswith s' p'
  | _ :: _, [] => false
  end.

(** [needle in hay] *)
Fixpoint contains (needle hay : str) : bool :=
  startswith hay needle
  || match hay with
     | [] => false
     | _ :: hay' => contains needle hay'
     end.

(** [str(n)] for a non-negative integer. *)
Definition str_of_nat (n : nat) : str :=
  lit (NilEmpty.string_of_uint (Nat.to_uint n)).

(** The part of the Unicode character database that the scripts reach
    through [str.lower], [str.isdigit], [int] and the [\d] class.  The
    tables themselves are not part of the repository; what is fixed
    here is their restriction to ASCII. *)
Class Unicode := {
  (** the decimal value of a character of category Nd ([\d], [int]) *)
  decimal : char -> option N;
  (** [str.isdigit] on one character (Nd and the other digit forms) *)
  isdigit_char : char -> bool;
  (** [str.lower] *)
  lower : str -> str;
  decimal_ascii : forall c, (c < 128)%N ->
    decimal c = if (48 <=? c)%N && (c <=? 57)%N then Some (c - 48)%N else None;
  isdigit_ascii : forall c, (c < 128)%N ->
    isdigit_char c = (48 <=? c)%N && (c <=? 57)%N;
  lower_ascii : forall s, Forall (fun c => (c < 128)%N) s ->
    lower s = map (fun c => if (65 <=? c)%N && (c <=? 90)%N then (c + 32)%N else c) s
}.

Definition isdecimal `{Unicode} (c : char) : bool :=
  match decimal c with Some _ => true | None => false end.

(** [s.isdigit()] *)
Definition isdigit `{Unicode} (s : str) : bool :=
  match s with
  | [] => false
  | _ => forallb isdigit_char s
  end.

End Py.

(** The tables cut down to ASCII: every other character is neither a
    digit nor changed by [lower].  Used to run the scripts on ASCII
    inputs. *)
Module AsciiTables.
Import Py.

Definition ascii_digit (c : char) : bool := (48 <=? c)%N && (c <=? 57)%N.

Definition ascii_lower (c : char) : char :=
  if (65 <=? c)%N && (c <=? 90)%N then (c + 32)%N else c.

#[export] Program Instance ascii_unicode : Unicode := {|
  decimal c := if ascii_digit c then Some (c - 48)%N else None;
  isdigit_char := ascii_digit;
  lower := map ascii_lower
|}.

End AsciiTables.

(* ================================================================== *)
(** * The workspace database (Notion) as the scripts see it *)
(* ================================================================== *)

Module Notion.
Import Py.

Definition page_id := str.

(** A rich-text item; [Some c] when it carries [text.content], [None]
    for the item kinds without a [text] member. *)
Definition rich_text := option str.

(** The blocks the scripts write and read.  [OtherBlock] stands for
    every block type the scripts do not look into. *)
Inductive block :=
| Divider
| Heading2 (rt : list rich_text)
| Paragraph (rt : list rich_text)
| OtherBlock (type : str).

Inductive request :=
| QueryEpisode (number : Z)
| GetChildren (page : page_id) (page_size : nat)
| AppendChildren (page : page_id) (children : list block).

Inductive response :=
| Results (ids : list page_id)
| Children (blocks : list block)
| Ack.

(** What can happen to one HTTP exchange: it is answered; it is
    answered with an error status ([urllib.error.HTTPError]) whose
    body can be read and decoded; it is answered with an error status
    whose body cannot ([e.read()] or [.decode()] raises:
    [HTTPErrorUnreadable]); or the exchange itself breaks (connection
    refused, time-out after 60 s: [urllib.error.URLError],
    [TimeoutError]). *)
Inductive fault := NoFault | HTTPError | URLError | HTTPErrorUnreadable.

Record world := {
  db : list (Z * page_id);            (** "Episode No." of each page *)
  pages : list (page_id * list block);(** children of each page *)
  faults : list fault;                (** fate of the coming exchanges *)
  requests : list request             (** exchanges so far, oldest first *)
}.

Fixpoint children_of (ps : list (page_id * list block)) (p : page_id)
  : option (list block) :=
  match ps with
  | [] => None
  | (q, bs) :: ps' => if eqb q p then Some bs else children_of ps' p
  end.

Fixpoint append_to (ps : list (page_id * list block)) (p : page_id)
  (new : list block) : list (page_id * list block) :=
  match ps with
  | [] => []
  | (q, bs) :: ps' =>
      if eqb q p then (q, bs ++ new) :: ps'
      else (q, bs) :: append_to ps' p new
  end.

Inductive outcome :=
| Answer (r : response)
| ErrorStatus
| Broken
| ErrorStatusUnreadable.

(** The service proper, once the exchange got through. *)
Definition answer (w : world) (r : request)
  : list (page_id * list block) * outcome :=
  match r with
  | QueryEpisode n =>
      (pages w,
       Answer (Results (map snd (filter (fun e => (fst e =? n)%Z) (db w)))))
  | GetChildren p size =>
      match children_of (pages w) p with
      | Some bs => (pages w, Answer (Children (firstn size bs)))
      | None => (pages w, ErrorStatus)
      end
  | AppendChildren p new =>
      match children_of (pages w) p with
      | Some _ => (append_to (pages w) p new, Answer Ack)
      | None => (pages w, ErrorStatus)
      end
  end.

(** One exchange: the next fault decides its fate. *)
Definition exchange (w : world) (r : request) : world * outcome :=
  let log := requests w ++ [r] in
  match faults w with
  | HTTPError :: fs =>
      ({| db := db w; pages := pages w; faults := fs; requests := log |},
       ErrorStatus)
  | URLError :: fs =>
      ({| db := db w; pages := pages w; faults := fs; requests := log |},
       Broken)
  | HTTPErrorUnreadable :: fs =>
      ({| db := db w; pages := pages w; faults := fs; requests := log |},
       ErrorStatusUnreadable)
  | fs =>
      let '(ps, o) := answer w r in
      ({| db := db w; pages := ps; faults := tl fs; requests := log |}, o)
  end.

(** The requests that change a page. *)
Definition is_write (r : request) : bool :=
  match r with AppendChildren _ _ => true | _ => false end.

Definition writes (w : world) : list request := filter is_write (requests w).

End Notion.

(* ================================================================== *)
(** * Building the blocks of a transcript *)
(* ================================================================== *)

Module Chunks.
Import Py Notion.

(** The state of the chunking loop of [add_transcript_to_page]
    (the same text in both scripts): [chunks], [current_chunk],
    [current_len]. *)
Definition chunk_state := (list str * list str * nat)%type.

Definition chunk_step (st : chunk_state) (word : str) : chunk_state :=
  let '(chunks, current_chunk, current_len) := st in
  if 1900 <? current_len + len word + 1
  then (chunks ++ [join [SPACE] current_chunk], [word], len word)
  else (chunks, current_chunk ++ [word], current_len + (len word + 1)).

Definition split_chunks (transcript_text : str) : list str :=
  let words := split transcript_text in
  let '(chunks, current_chunk, _) := fold_left chunk_step words ([], [], 0) in
  match current_chunk with
  | [] => chunks
  | _ => chunks ++ [join [SPACE] current_chunk]
  end.

Definition text_item (content : str) : rich_text := Some content.

(** The heading written in front of a transcript: a memo emoji
    (U+1F4DD), a space, "Transcript". *)
Definition TRANSCRIPT_HEADING : str := 128221%N :: lit " Transcript".

Definition heading_block : block := Heading2 [text_item TRANSCRIPT_HEADING].

Definition paragraph (content : str) : block := Paragraph [text_item content].

End Chunks.

(* ================================================================== *)
(** * Exceptions *)
(* ================================================================== *)

Module Exn.

(** The exceptions that end a call in the two workspace-database
    scripts; none of them is caught there for its text. *)
Inductive exn :=
| ValueError        (** [int] on a string that is no integer literal *)
| NetworkError      (** [urllib.error.URLError], a socket time-out *)
| HandlerError      (** raised inside the [except HTTPError] clause of
                        [notion_request], by [e.read()] or [.decode()] *).

(** A call returns or raises. *)
Inductive result (E A : Type) :=
| Ok (a : A)
| Raise (e : E).

Arguments Ok {E A} a.
Arguments Raise {E A} e.

End Exn.

Module PyInt.
Import Py.

(** The digits of an integer literal: decimal digits, single
    underscores allowed between two digits. *)
Fixpoint digits_value `{Unicode} (acc : N) (after_digit : bool) (s : str)
  : option N :=
  match s with
  | [] => if after_digit then Some acc else None
  | c :: s' =>
      match decimal c with
      | Some d => digits_value (10 * acc + d)%N true s'
      | None =>
          if (c =? 95)%N && after_digit then digits_value acc false s'
          else None
      end
  end.

(** The white space [int] passes over at both ends of a string: the
    ASCII characters space, tab, line feed, vertical tab, form feed
    and carriage return, and the white space beyond ASCII.  The
    separators U+001C to U+001F, which [str.strip] removes, are not
    among them. *)
Definition int_space (c : char) : bool :=
  isspace c && negb ((28 <=? c) && (c <=? 31))%N.

Fixpoint skip_int_space (s : str) : str :=
  match s with
  | c :: s' => if int_space c then skip_int_space s' else s
  | [] => []
  end.

Definition int_strip (s : str) : str :=
  rev (skip_int_space (rev (skip_int_space s))).

(** The most digits [int] converts, underscores not counted: the
    default of [sys.set_int_max_str_digits]. *)
Definition MAX_STR_DIGITS : nat := 4300.

Definition is_decimal `{Unicode} (c : char) : bool :=
  match decimal c with Some _ => true | None => false end.

(** The value of the literal behind the sign. *)
Definition literal_value `{Unicode} (ds : str) : option N :=
  if MAX_STR_DIGITS <? len (filter is_decimal ds) then None
  else digits_value 0%N false ds.

(** [int(s)] on a string; [None] is [ValueError]. *)
Definition int `{Unicode} (s : str) : option Z :=
  match int_strip s with
  | 43%N :: ds => option_map Z.of_N (literal_value ds)
  | 45%N :: ds => option_map (fun n => (- Z.of_N n)%Z) (literal_value ds)
  | ds => option_map Z.of_N (literal_value ds)
  end.

End PyInt.

(* ================================================================== *)
(** * sync_youtube_transcripts_to_notion.py *)
(* ================================================================== *)

Module SyncYoutubeTranscriptsToNotion.
Import Py PyInt Notion Chunks Exn.

(** Both [except] clauses return [None]; an exception raised inside
    the first one, while the body of the error answer is read for the
    message, leaves the function. *)
Definition notion_request (w : world) (r : request)
  : world * result exn (option response) :=
  match exchange w r with
  | (w', Answer data) => (w', Ok (Some data))
  | (w', ErrorStatus) => (w', Ok None)
  | (w', Broken) => (w', Ok None)
  | (w', ErrorStatusUnreadable) => (w', Raise HandlerError)
  end.

Definition find_episode_page `{Unicode} (w : world) (episode_num : str)
  : world * result exn (option page_id) :=
  match int episode_num with
  | None => (w, Raise ValueError)
  | Some n =>
      match notion_request w (QueryEpisode n) with
      | (w', Raise e) => (w', Raise e)
      | (w', Ok data) =>
          (w', Ok match data with
                  | Some (Results (id :: _)) => Some id
                  | _ => None
                  end)
      end
  end.

(** The test made on one block of the answer. *)
Definition is_transcript_heading (b : block) : bool :=
  match b with
  | Heading2 (item :: _) =>
      contains (lit "Transcript")
               match item with Some content => content | None => [] end
  | _ => false
  end.

Definition check_page_has_transcript (w : world) (page : page_id)
  : world * result exn bool :=
  match notion_request w (GetChildren page 20) with
  | (w', Raise e) => (w', Raise e)
  | (w', Ok data) =>
      (w', Ok match data with
              | Some (Children results) => existsb is_transcript_heading results
              | _ => false
              end)
  end.

Definition truncation_marker (more : nat) : str :=
  lit "[... transcript truncated, " ++ str_of_nat more ++ lit " more paragraphs ...]".

(** The [children] sent by [add_transcript_to_page]. *)
Definition transcript_blocks (transcript_text : str) : list block :=
  let chunks := split_chunks transcript_text in
  [Divider; heading_block]
  ++ map paragraph (firstn 97 chunks)
  ++ (if 97 <? len chunks
      then [paragraph (truncation_marker (len chunks - 97))]
      else []).

Definition add_transcript_to_page (w : world) (page : page_id)
  (transcript_text : str) : world * result exn bool :=
  match notion_request w (AppendChildren page (transcript_blocks transcript_text)) with
  | (w', Raise e) => (w', Raise e)
  | (w', Ok result) =>
      (w', Ok match result with Some _ => true | None => false end)
  end.

(** ** [parse_vtt_to_text] *)

Definition ARROW : str := Eval cbv in lit "-->".
Definition LT : char := 60%N.
Definition GT : char := 62%N.

Fixpoint span_not_gt (s : str) : nat :=
  match s with
  | c :: s' => if (c =? GT)%N then 0 else S (span_not_gt s')
  | [] => 0
  end.

(** Length of the match of [<[^>]+>] at the head of [s], if any. *)
Definition tag_length (s : str) : option nat :=
  match s with
  | c :: s' =>
      if (c =? LT)%N then
        let n := span_not_gt s' in
        match n, skipn n s' with
        | S _, _ :: _ => Some (n + 2)
        | _, _ => None
        end
      else None
  | [] => None
  end.

(** [re.sub(r'<[^>]+>', '', s)]; [skip] counts the characters of the
    current match still to be dropped. *)
Fixpoint remove_tags_from (skip : nat) (s : str) : str :=
  match s with
  | [] => []
  | c :: s' =>
      match skip with
      | S k => remove_tags_from k s'
      | 0 =>
          match tag_length s with
          | Some (S k) => remove_tags_from k s'
          | _ => c :: remove_tags_from 0 s'
          end
      end
  end.

Definition remove_tags (s : str) : str := remove_tags_from 0 s.

Definition is_header_or_timing (line : str) : bool :=
  match line with [] => true | _ => false end
  || contains ARROW line
  || startswith line (lit "WEBVTT")
  || startswith line (lit "Kind:")
  || startswith line (lit "Language:").

(** The first loop: the payload lines. *)
Fixpoint text_lines `{Unicode} (lines : list str) : list str :=
  match lines with
  | [] => []
  | line :: rest =>
      let line := strip line in
      if is_header_or_timing line then text_lines rest
      else if isdigit line then text_lines rest
      else match remove_tags line with
           | [] => text_lines rest
           | line' => line' :: text_lines rest
           end
  end.

(** The second loop: drop a line equal to the one kept before it. *)
Fixpoint dedupe (prev : option str) (lines : list str) : list str :=
  match lines with
  | [] => []
  | line :: rest =>
      if match prev with Some p => eqb line p | None => false end
      then dedupe prev rest
      else line :: dedupe (Some line) rest
  end.

Definition parse_vtt_to_text `{Unicode} (vtt_content : str) : str :=
  join [SPACE] (dedupe None (text_lines (split_on NEWLINE vtt_content))).

(** ** The progress record and [main] *)

(** [notion_sync_progress.json]: three lists of episode numbers. *)
Record synced_data := {
  synced : list str;
  failed : list str;
  skipped : list str
}.

(** A [*.vtt] file of the transcript directory: the stem of its name
    and its text ([None]: opening or reading it raises). *)
Record vtt_file := {
  stem : str;
  content : option str
}.

(** What the loop of [main] carries: the workspace database, the
    in-memory [synced_data] and the progress file on disk ([None]:
    no file yet). *)
Record run := {
  notion : world;
  data : synced_data;
  synced_file : option synced_data
}.

Definition load_synced (file : option synced_data) : synced_data :=
  match file with
  | Some d => d
  | None => {| synced := []; failed := []; skipped := [] |}
  end.

Definition save_synced (st : run) : run :=
  {| notion := notion st; data := data st; synced_file := Some (data st) |}.

Definition mem (x : str) (l : list str) : bool := existsb (eqb x) l.

Definition append_synced (ep : str) (st : run) : run :=
  {| notion := notion st;
     data := {| synced := synced (data st) ++ [ep];
                failed := failed (data st);
                skipped := skipped (data st) |};
     synced_file := synced_file st |}.

Definition append_failed (ep : str) (st : run) : run :=
  {| notion := notion st;
     data := {| synced := synced (data st);
                failed := failed (data st) ++ [ep];
                skipped := skipped (data st) |};
     synced_file := synced_file st |}.

Definition append_skipped (ep : str) (st : run) : run :=
  {| notion := notion st;
     data := {| synced := synced (data st);
                failed := failed (data st);
                skipped := skipped (data st) ++ [ep] |};
     synced_file := synced_file st |}.

Definition with_notion (w : world) (st : run) : run :=
  {| notion := w; data := data st; synced_file := synced_file st |}.

(** [ep_num] of a file name such as [ep1171_8AkPm4Zy3MU.en]:
    [name.split('_')[0][2:]]. *)
Definition ep_num_of (name : str) : str :=
  skipn 2 (hd [] (split_on 95%N name)).

Fixpoint to_process (synced_set : list str) (vtt_files : list vtt_file)
  : list (str * vtt_file) :=
  match vtt_files with
  | [] => []
  | vtt :: rest =>
      let name := stem vtt in
      if startswith name (lit "ep") && negb (mem (ep_num_of name) synced_set)
      then (ep_num_of name, vtt) :: to_process synced_set rest
      else to_process synced_set rest
  end.

(** The loop over [enumerate(to_process)], from index [i] on.  The
    second component is the exception that ended the script, if any. *)
Fixpoint process `{Unicode} (i : nat) (items : list (str * vtt_file))
  (st : run) : run * option exn :=
  match items with
  | [] => (st, None)
  | (ep_num, vtt) :: rest =>
      if negb (isdigit ep_num) then process (S i) rest st
      else
        match content vtt with
        | None => process (S i) rest (append_failed ep_num st)
        | Some vtt_content =>
            let transcript := parse_vtt_to_text vtt_content in
            if len transcript <? 100
            then process (S i) rest (append_skipped ep_num st)
            else
              match find_episode_page (notion st) ep_num with
              | (w1, Raise e) => (with_notion w1 st, Some e)
              | (w1, Ok None) | (w1, Ok (Some [])) =>
                  process (S i) rest (append_failed ep_num (with_notion w1 st))
              | (w1, Ok (Some page)) =>
                  match check_page_has_transcript w1 page with
                  | (w2, Raise e) => (with_notion w2 st, Some e)
                  | (w2, Ok true) =>
                      process (S i) rest
                        (append_skipped ep_num (with_notion w2 st))
                  | (w2, Ok false) =>
                      match add_transcript_to_page w2 page transcript with
                      | (w3, Raise e) => (with_notion w3 st, Some e)
                      | (w3, Ok ok) =>
                          let st3 := with_notion w3 st in
                          let st4 := if ok then append_synced ep_num st3
                                     else append_failed ep_num st3 in
                          let st5 := if (i + 1) mod 5 =? 0 then save_synced st4
                                     else st4 in
                          process (S i) rest st5
                      end
                  end
              end
        end
  end.

Definition main `{Unicode} (vtt_files : list vtt_file) (w : world)
  (file : option synced_data) : run * option exn :=
  let synced_data := load_synced file in
  let synced_set :=
    synced synced_data ++ failed synced_data ++ skipped synced_data in
  let st := {| notion := w; data := synced_data; synced_file := file |} in
  match process 0 (to_process synced_set vtt_files) st with
  | (st', None) => (save_synced st', None)
  | (st', Some e) => (st', Some e)
  end.

End SyncYoutubeTranscriptsToNotion.

(* ================================================================== *)
(** * sync_transcripts_to_notion.py *)
(* ================================================================== *)

Module SyncTranscriptsToNotion.
Import Py PyInt Notion Chunks Exn.

(** Only [urllib.error.HTTPError] is caught: a broken exchange leaves
    the function as an exception, and so does an exception raised
    inside the [except] clause while the body of the error answer is
    read for the message. *)
Definition notion_request (w : world) (r : request)
  : world * result exn (option response) :=
  match exchange w r with
  | (w', Answer data) => (w', Ok (Some data))
  | (w', ErrorStatus) => (w', Ok None)
  | (w', Broken) => (w', Raise NetworkError)
  | (w', ErrorStatusUnreadable) => (w', Raise HandlerError)
  end.

Definition find_episode_page `{Unicode} (w : world) (episode_num : str)
  : world * result exn (option page_id) :=
  match int episode_num with
  | None => (w, Raise ValueError)
  | Some n =>
      match notion_request w (QueryEpisode n) with
      | (w', Raise e) => (w', Raise e)
      | (w', Ok data) =>
          (w', Ok match data with
                  | Some (Results (id :: _)) => Some id
                  | _ => None
                  end)
      end
  end.

(** The [children] sent by [add_transcript_to_page]. *)
Definition transcript_blocks (transcript_text : str) : list block :=
  let chunks := split_chunks transcript_text in
  [heading_block] ++ map paragraph (firstn 100 chunks).

Definition add_transcript_to_page (w : world) (page : page_id)
  (transcript_text : str) : world * result exn bool :=
  match notion_request w (AppendChildren page (transcript_blocks transcript_text)) with
  | (w', Raise e) => (w', Raise e)
  | (w', Ok result) => (w', Ok match result with Some _ => true | None => false end)
  end.

(** An entry of [mapping.json]. *)
Record mapping_entry := {
  episode : str;
  guest : str;
  score : Q;
  text_path : option str
}.

(** "Deduplicate by episode (keep highest score)": the dict
    [by_episode], in insertion order. *)
Fixpoint put (m : mapping_entry) (by_episode : list (str * mapping_entry))
  : list (str * mapping_entry) :=
  match by_episode with
  | [] => [(episode m, m)]
  | (ep, old) :: rest =>
      if eqb ep (episode m)
      then (ep, if Qle_bool (score m) (score old) then old else m) :: rest
      else (ep, old) :: put m rest
  end.

Definition by_episode (mapping : list mapping_entry)
  : list (str * mapping_entry) :=
  fold_left (fun d m => put m d) mapping [].

(** The sort key [int(x[0]) if x[0].isdigit() else 0]. *)
Definition sort_key `{Unicode} (ep : str) : option Z :=
  if isdigit ep then int ep else Some 0%Z.

Fixpoint insert_desc (x : Z * (str * mapping_entry))
  (l : list (Z * (str * mapping_entry))) : list (Z * (str * mapping_entry)) :=
  match l with
  | [] => [x]
  | y :: l' =>
      if (fst x <? fst y)%Z then y :: insert_desc x l' else x :: y :: l'
  end.

Fixpoint keyed `{Unicode} (items : list (str * mapping_entry))
  : option (list (Z * (str * mapping_entry))) :=
  match items with
  | [] => Some []
  | (ep, m) :: rest =>
      match sort_key ep, keyed rest with
      | Some k, Some l => Some ((k, (ep, m)) :: l)
      | _, _ => None
      end
  end.

(** [sorted(..., key=..., reverse=True)]: stable, largest key first;
    [None] when a key raises [ValueError]. *)
Definition sorted_desc `{Unicode} (items : list (str * mapping_entry))
  : option (list (str * mapping_entry)) :=
  option_map (fun l => map snd (fold_right insert_desc [] l)) (keyed items).

(** The transcript files: path and text. *)
Definition files := list (str * str).

Fixpoint read (fs : files) (path : str) : option str :=
  match fs with
  | [] => None
  | (p, text) :: fs' => if eqb p path then Some text else read fs' path
  end.

Record run := {
  notion : world;
  synced : nat;
  failed : nat
}.

Definition count_synced (w : world) (st : run) : run :=
  {| notion := w; synced := synced st + 1; failed := failed st |}.

Definition count_failed (w : world) (st : run) : run :=
  {| notion := w; synced := synced st; failed := failed st + 1 |}.

Definition with_notion (w : world) (st : run) : run :=
  {| notion := w; synced := synced st; failed := failed st |}.

(** The transcript of an entry: [None] when [text_path] is missing,
    empty, or names no file. *)
Definition load_transcript (fs : files) (m : mapping_entry) : option str :=
  match text_path m with
  | None | Some [] => None
  | Some path => option_map strip (read fs path)
  end.

(** The loop of [main].  The second component is the exception that
    ended the script, if any. *)
Fixpoint process `{Unicode} (fs : files) (items : list (str * mapping_entry))
  (st : run) : run * option exn :=
  match items with
  | [] => (st, None)
  | (ep_num, m) :: rest =>
      match load_transcript fs m with
      | None => process fs rest (count_failed (notion st) st)
      | Some transcript =>
          if len transcript <? 100
          then process fs rest (count_failed (notion st) st)
          else
            match find_episode_page (notion st) ep_num with
            | (w1, Raise e) => (with_notion w1 st, Some e)
            | (w1, Ok None) | (w1, Ok (Some [])) =>
                process fs rest (count_failed w1 st)
            | (w1, Ok (Some page)) =>
                match add_transcript_to_page w1 page transcript with
                | (w2, Raise e) => (with_notion w2 st, Some e)
                | (w2, Ok true) => process fs rest (count_synced w2 st)
                | (w2, Ok false) => process fs rest (count_failed w2 st)
                end
            end
      end
  end.

Definition main `{Unicode} (fs : files) (mapping : list mapping_entry)
  (w : world) : run * option exn :=
  let st := {| notion := w; synced := 0; failed := 0 |} in
  match sorted_desc (by_episode mapping) with
  | None => (st, Some ValueError)
  | Some items => process fs items st
  end.

End SyncTranscriptsToNotion.

(* ================================================================== *)
(** * difflib.SequenceMatcher(None, a, b).ratio() *)
(* ================================================================== *)

Module Difflib.
Import Py.

Fixpoint count (c : char) (s : str) : nat :=
  match s with
  | [] => 0
  | d :: s' => (if (c =? d)%N then 1 else 0) + count c s'
  end.

(** [autojunk]: in a second sequence of 200 elements or more, an
    element that fills more than 1% (plus one) of it starts no match. *)
Definition popular (b : str) (c : char) : bool :=
  (200 <=? len b) && (len b / 100 + 1 <? count c b).

(** Length of the common run of [a] and [b] from their heads, over
    elements of [b] that may start a match. *)
Fixpoint run (pop : char -> bool) (a b : str) : nat :=
  match a, b with
  | x :: a', y :: b' => if (x =? y)%N && negb (pop y) then S (run pop a' b') else 0
  | _, _ => 0
  end.

(** Length of the plain common prefix. *)
Fixpoint common (a b : str) : nat :=
  match a, b with
  | x :: a', y :: b' => if (x =? y)%N then S (common a' b') else 0
  | _, _ => 0
  end.

(** The best block starting in [a] at offset [i]: the longest run
    against the suffixes of [b], the first one among equals. *)
Fixpoint best_in_b (pop : char -> bool) (a b : str) (j : nat)
  (best : nat * nat) : nat * nat :=
  match b with
  | [] => best
  | _ :: b' =>
      let k := run pop a b in
      best_in_b pop a b' (S j) (if snd best <? k then (j, k) else best)
  end.

Fixpoint best_block (pop : char -> bool) (a b : str) (i : nat)
  (best : nat * nat * nat) : nat * nat * nat :=
  match a with
  | [] => best
  | _ :: a' =>
      let '(j, k) := best_in_b pop a b 0 (0, 0) in
      best_block pop a' b (S i)
        (if snd best <? k then (i, j, k) else best)
  end.

(** [find_longest_match] on the windows [a], [b]: the block of
    [best_block], then grown to both sides over equal elements (the
    popular ones included).  The result is (i, j, size). *)
Definition find_longest_match (pop : char -> bool) (a b : str)
  : nat * nat * nat :=
  let '(i, j, k) := best_block pop a b 0 (0, 0, 0) in
  let left := common (rev (firstn i a)) (rev (firstn j b)) in
  let right := common (skipn (i + k) a) (skipn (j + k) b) in
  (i - left, j - left, left + k + right).

(** Sum of the sizes of [get_matching_blocks]: the longest block,
    then the same to its left and to its right. *)
Fixpoint matches (fuel : nat) (pop : char -> bool) (a b : str) : nat :=
  match fuel with
  | 0 => 0
  | S fuel' =>
      let '(i, j, k) := find_longest_match pop a b in
      match k with
      | 0 => 0
      | _ =>
          k + matches fuel' pop (firstn i a) (firstn j b)
            + matches fuel' pop (skipn (i + k) a) (skipn (j + k) b)
      end
  end.

(** [ratio()]: [2.0 * matches / (len(a) + len(b))], and [1.0] for two
    empty sequences.  The quotient is kept as an exact rational; the
    comparisons made on it by the scripts come out the same on the
    doubles as long as the strings have fewer than 2^26 characters. *)
Definition ratio (a b : str) : Q :=
  match (len a + len b)%nat with
  | 0%nat => 1%Q
  | length =>
      Z.of_nat (2 * matches (S (len a)) (popular b) a b) # Pos.of_nat length
  end.

End Difflib.

(* ================================================================== *)
(** * download_transcripts.py *)
(* ================================================================== *)

Module DownloadTranscripts.
Import Py.

(** ** [normalize_name] *)

(** [p$] at the head of [s]: [s] is [p], or [p] and a final newline. *)
Definition at_end (s p : str) : bool := eqb s p || eqb s (p ++ [NEWLINE]).

Fixpoint span_decimal `{Unicode} (s : str) : nat :=
  match s with
  | c :: s' => if isdecimal c then S (span_decimal s') else 0
  | [] => 0
  end.

(** [\(\d+\)] at the head of [s]: the length of the match. *)
Definition counter_length `{Unicode} (s : str) : option nat :=
  match s with
  | 40%N :: s' =>
      let n := span_decimal s' in
      match n, skipn n s' with
      | S _, 41%N :: _ => Some (n + 2)
      | _, _ => None
      end
  | _ => None
  end.

(** The alternatives of
    [\.srt$|\.en_us$|_final$|\(new\)|\(\d+\)|_subtitles$|\.mp4$|\.mov$]
    tried in this order at the head of [s]; the length of the match. *)
Definition noise_length `{Unicode} (s : str) : option nat :=
  if at_end s (lit ".srt") then Some 4
  else if at_end s (lit ".en_us") then Some 6
  else if at_end s (lit "_final") then Some 6
  else if startswith s (lit "(new)") then Some 5
  else match counter_length s with
       | Some n => Some n
       | None =>
           if at_end s (lit "_subtitles") then Some 10
           else if at_end s (lit ".mp4") then Some 4
           else if at_end s (lit ".mov") then Some 4
           else None
       end.

(** [re.sub(<the pattern above>, '', s)]; [skip] counts the characters
    of the current match still to be dropped. *)
Fixpoint remove_noise_from `{Unicode} (skip : nat) (s : str) : str :=
  match s with
  | [] => []
  | c :: s' =>
      match skip with
      | S k => remove_noise_from k s'
      | 0 =>
          match noise_length s with
          | Some (S k) => remove_noise_from k s'
          | _ => c :: remove_noise_from 0 s'
          end
      end
  end.

(** [re.sub(r'[_\-]', ' ', s)] *)
Definition separators_to_spaces (s : str) : str :=
  map (fun c => if (c =? 95)%N || (c =? 45)%N then SPACE else c) s.

(** [re.sub(r'\s+', ' ', s)]; [in_run] tells that the character before
    was white space. *)
Fixpoint collapse_spaces (in_run : bool) (s : str) : str :=
  match s with
  | [] => []
  | c :: s' =>
      if isspace c
      then if in_run then collapse_spaces true s'
           else SPACE :: collapse_spaces true s'
      else c :: collapse_spaces false s'
  end.

Definition normalize_name `{Unicode} (name : str) : str :=
  let name := lower name in
  let name := remove_noise_from 0 name in
  let name := separators_to_spaces name in
  strip (collapse_spaces false name).

(** ** [match_guest] *)

(** An entry of [episodes.json]; [guest] is [ep.get('guest', '')]. *)
Record episode := {
  number : str;
  guest : str
}.

Definition Qlt_bool (x y : Q) : bool := negb (Qle_bool y x).

Section Matcher.

(** [SequenceMatcher(None, a, b).ratio()] *)
Variable ratio : str -> str -> Q.

(** The loop of [match_guest] from [episodes] on, with the
    [best_match] and [best_score] reached so far. *)
Fixpoint scan `{Unicode} (norm_srt : str) (episodes : list episode)
  (best_match : option episode) (best_score : Q) : option episode * Q :=
  match episodes with
  | [] => (best_match, best_score)
  | ep :: rest =>
      match lower (guest ep) with
      | [] => scan norm_srt rest best_match best_score
      | guest =>
          if contains guest norm_srt || contains norm_srt guest
          then (Some ep, 1%Q)
          else
            let score := ratio norm_srt guest in
            if Qlt_bool best_score score && Qlt_bool (6 # 10) score
            then scan norm_srt rest (Some ep) score
            else scan norm_srt rest best_match best_score
      end
  end.

Definition match_guest `{Unicode} (srt_name : str) (episodes : list episode)
  : option episode * Q :=
  scan (normalize_name srt_name) episodes None 0%Q.

End Matcher.

(** ** [srt_to_text] *)

(** [re.match(r'^\d+$', line)] *)
Definition is_sequence_number `{Unicode} (line : str) : bool :=
  let n := span_decimal line in
  match n, skipn n line with
  | S _, [] => true
  | S _, [10%N] => true
  | _, _ => false
  end.

(** [re.match(r'^\d{2}:\d{2}:\d{2}', line)] *)
Definition is_timestamp `{Unicode} (line : str) : bool :=
  match line with
  | d1 :: d2 :: c1 :: d3 :: d4 :: c2 :: d5 :: d6 :: _ =>
      isdecimal d1 && isdecimal d2 && (c1 =? 58)%N
      && isdecimal d3 && isdecimal d4 && (c2 =? 58)%N
      && isdecimal d5 && isdecimal d6
  | _ => false
  end.

Definition ARROW : str := Eval cbv in lit "-->".

Fixpoint text_lines `{Unicode} (lines : list str) : list str :=
  match lines with
  | [] => []
  | line :: rest =>
      let line := strip line in
      if is_sequence_number line then text_lines rest
      else if is_timestamp line then text_lines rest
      else if contains ARROW line then text_lines rest
      else match line with
           | [] => text_lines rest
           | _ => line :: text_lines rest
           end
  end.

Definition srt_to_text `{Unicode} (srt_content : str) : str :=
  join [SPACE] (text_lines (split_on NEWLINE srt_content)).

End DownloadTranscripts.

(* ================================================================== *)
(** * json.dumps(value, indent=2) *)
(* ================================================================== *)

Module Json.
Import Py.

(** The JSON values the progress files are made of. *)
#[warnings="-register-all"]
Inductive value :=
| Str (s : str)
| Arr (items : list value)
| Obj (members : list (str * value)).

Definition hex_digit (n : N) : char :=
  if (n <? 10)%N then (48 + n)%N else (87 + n)%N.

(** [\uXXXX] for a 16-bit unit. *)
Definition u_escape (n : N) : str :=
  lit "\u" ++ [hex_digit (n / 4096 mod 16); hex_digit (n / 256 mod 16);
               hex_digit (n / 16 mod 16); hex_digit (n mod 16)]%N.

(** One character of a string, as [ensure_ascii] writes it. *)
Definition escape (c : char) : str :=
  match c with
  | 34 => [92; 34]
  | 92 => [92; 92]
  | 10 => lit "\n"
  | 13 => lit "\r"
  | 9 => lit "\t"
  | 8 => lit "\b"
  | 12 => lit "\f"
  | _ =>
      if (32 <=? c) && (c <=? 126) then [c]
      else if c <? 65536 then u_escape c
      else u_escape (55296 + (c - 65536) / 1024)
           ++ u_escape (56320 + (c - 65536) mod 1024)
  end%N.

Definition quote (s : str) : str := [34%N] ++ flat_map escape s ++ [34%N].

Definition newline_indent (level : nat) : str :=
  NEWLINE :: repeat SPACE (2 * level).

Fixpoint encode (level : nat) (v : value) : str :=
  match v with
  | Str s => quote s
  | Arr [] => lit "[]"
  | Arr items =>
      lit "[" ++ newline_indent (S level)
      ++ join (lit "," ++ newline_indent (S level)) (map (encode (S level)) items)
      ++ newline_indent level ++ lit "]"
  | Obj [] => lit "{}"
  | Obj members =>
      lit "{" ++ newline_indent (S level)
      ++ join (lit "," ++ newline_indent (S level))
           (map (fun m => quote (fst m) ++ lit ": " ++ encode (S level) (snd m))
                members)
      ++ newline_indent level ++ lit "}"
  end.

Definition dumps (v : value) : str := encode 0 v.

End Json.

(* ================================================================== *)
(** * Files, as a writer and an onlooker see them *)
(* ================================================================== *)

Module Files.
Import Py.

(** The steps a script makes on the file system.  [open(path, 'w')]
    (and [Path.write_text]) is [Truncate]; the text then reaches the
    file by [Write]; [Rename] is [os.replace]. *)
Inductive op :=
| Truncate (path : str)
| Write (path : str) (text : str)
| Rename (src dst : str).

(** The files and their text. *)
Definition disk := list (str * str).

Fixpoint read (d : disk) (path : str) : option str :=
  match d with
  | [] => None
  | (p, text) :: d' => if eqb p path then Some text else read d' path
  end.

Fixpoint remove (d : disk) (path : str) : disk :=
  match d with
  | [] => []
  | (p, text) :: d' =>
      if eqb p path then remove d' path else (p, text) :: remove d' path
  end.

Definition store (d : disk) (path text : str) : disk :=
  (path, text) :: remove d path.

Definition step (d : disk) (o : op) : disk :=
  match o with
  | Truncate path => store d path []
  | Write path text =>
      store d path (match read d path with Some old => old | None => [] end ++ text)
  | Rename src dst =>
      match read d src with
      | Some text => store (remove d src) dst text
      | None => d
      end
  end.

(** The states of the disk while [ops] run: the one before, and the
    one after each step.  A crash leaves the disk in one of them; a
    reader at the same time sees one of them. *)
Fixpoint states (d : disk) (ops : list op) : list disk :=
  match ops with
  | [] => [d]
  | o :: ops' => d :: states (step d o) ops'
  end.

Definition run (d : disk) (ops : list op) : disk := fold_left step ops d.

Definition is_rename (o : op) : bool :=
  match o with Rename _ _ => true | _ => false end.

Definition target (o : op) : str :=
  match o with
  | Truncate path => path
  | Write path _ => path
  | Rename _ dst => dst
  end.

End Files.

(* ================================================================== *)
(** * assemblyai_transcribe.py *)
(* ================================================================== *)

Module AssemblyaiTranscribe.
Import Py Exn.

(** An exception of this script is caught as [Exception] and used for
    its text [str(e)] only: it is modelled by that text. *)
Definition exn := str.

Record utterance := {
  speaker : str;
  text : str
}.

(** The result of a completed transcription. *)
Record transcript := {
  full_text : str;
  utterances : list utterance
}.

(** The [status] of a job. *)
Inductive job_status :=
| Completed (result : transcript)
| Error (error : str)
| Waiting (status : str).

(** The collaborators of the script. *)
Record service := {
  (** [yt-dlp -f bestaudio -g]: the audio URL of a video *)
  audio_url : str -> result exn str;
  (** [POST /transcript]: the id of the new job *)
  submit : str -> result exn str;
  (** [GET /transcript/<id>] sent at a given time: the answer (or the
      exception of the request) and the seconds the request took *)
  poll : str -> nat -> result exn job_status * nat
}.

(** The dict of [assemblyai_progress.json], as [load_progress]
    returns it.  A key is [None] when the dict has no such key: the
    script writes all three, and reads them so as to allow for a file
    that lacks one ([get], [setdefault]).  A key that is there holds
    a value of the kind the script writes: a list of episode numbers,
    a list of failures, a dict of job ids.  The keys are taken in the
    order in which [load_progress] creates them. *)
Record progress := {
  completed : option (list str);
  failed : option (list (str * str));      (** [episode], [error] *)
  pending : option (list (str * str))      (** episode number to transcript id *)
}.

(** [progress.get(key, [])], [progress.get(key, {})] *)
Definition or_empty {A : Type} (value : option (list A)) : list A :=
  match value with
  | Some l => l
  | None => []
  end.

Inductive content :=
| Markdown (text : str)
| RawJson (result : transcript).

(** What the script does to its surroundings, in order. *)
Inductive event :=
| GetAudioURL (youtube_id : str)
| Submit (audio_url : str)
| Poll (transcript_id : str)
| Save (p : progress)
| WriteFile (name : str) (c : content).

Record machine := {
  clock : nat;                        (** [time.time()], in seconds *)
  files : list (str * content);       (** [transcripts/assemblyai/] *)
  progress_file : option progress;    (** [PROGRESS_FILE] *)
  trace : list event
}.

Definition log (e : event) (m : machine) : machine :=
  {| clock := clock m; files := files m; progress_file := progress_file m;
     trace := trace m ++ [e] |}.

Definition tick (seconds : nat) (m : machine) : machine :=
  {| clock := clock m + seconds; files := files m;
     progress_file := progress_file m; trace := trace m |}.

Definition write_file (name : str) (c : content) (m : machine) : machine :=
  {| clock := clock m; files := files m ++ [(name, c)];
     progress_file := progress_file m; trace := trace m ++ [WriteFile name c] |}.

Definition exists_file (m : machine) (name : str) : bool :=
  existsb (fun f => eqb (fst f) name) (files m).

(** ** Dictionaries keyed by strings *)

Fixpoint lookup (k : str) (d : list (str * str)) : option str :=
  match d with
  | [] => None
  | (k', v) :: d' => if eqb k' k then Some v else lookup k d'
  end.

(** [d[k] = v] *)
Fixpoint assign (k v : str) (d : list (str * str)) : list (str * str) :=
  match d with
  | [] => [(k, v)]
  | (k', v') :: d' =>
      if eqb k' k then (k', v) :: d' else (k', v') :: assign k v d'
  end.

(** [d.pop(k, None)] *)
Fixpoint pop (k : str) (d : list (str * str)) : list (str * str) :=
  match d with
  | [] => []
  | (k', v') :: d' => if eqb k' k then pop k d' else (k', v') :: pop k d'
  end.

Definition mem (x : str) (l : list str) : bool := existsb (eqb x) l.

(** ** The functions of the script *)

Definition get_youtube_audio_url (svc : service) (youtube_id : str)
  (m : machine) : result exn str * machine :=
  (audio_url svc youtube_id, log (GetAudioURL youtube_id) m).

Definition submit_transcription (svc : service) (url : str) (m : machine)
  : result exn str * machine :=
  (submit svc url, log (Submit url) m).

Definition max_wait : nat := 600.

Definition timed_out : exn :=
  lit "Transcription timed out after " ++ str_of_nat max_wait ++ lit "s".

(** The loop of [poll_transcription]; [fuel] bounds the number of
    rounds (see [poll_loop_fuel]: [max_wait] rounds are never used up,
    as each round sleeps ten seconds). *)
Fixpoint poll_loop (fuel : nat) (svc : service) (transcript_id : str)
  (start_time : nat) (m : machine) : result exn transcript * machine :=
  if clock m - start_time <? max_wait then
    match fuel with
    | 0 => (Raise timed_out, m)
    | S fuel' =>
        let '(answer, took) := poll svc transcript_id (clock m) in
        let m1 := tick took (log (Poll transcript_id) m) in
        match answer with
        | Raise e => (Raise e, m1)
        | Ok (Completed result) => (Ok result, m1)
        | Ok (Error error) => (Raise (lit "Transcription failed: " ++ error), m1)
        | Ok (Waiting _) => poll_loop fuel' svc transcript_id start_time (tick 10 m1)
        end
    end
  else (Raise timed_out, m).

Definition poll_transcription (svc : service) (transcript_id : str)
  (m : machine) : result exn transcript * machine :=
  poll_loop max_wait svc transcript_id (clock m) m.

(** The loop of [format_transcript_with_speakers]. *)
Fixpoint speaker_lines (current_speaker : option str) (us : list utterance)
  : list str :=
  match us with
  | [] => []
  | u :: rest =>
      if match current_speaker with
         | Some s => eqb (speaker u) s
         | None => false
         end
      then text u :: speaker_lines current_speaker rest
      else
        let speaker_name :=
          if eqb (speaker u) (lit "A") then lit "Michael" else lit "Guest" in
        ([NEWLINE] ++ lit "**" ++ speaker_name ++ lit ":** " ++ text u)
        :: speaker_lines (Some (speaker u)) rest
  end.

Definition format_transcript_with_speakers (result : transcript) : str :=
  match utterances result with
  | [] => full_text result
  | us => join [SPACE] (speaker_lines None us)
  end.

Definition load_progress (m : machine) : progress :=
  match progress_file m with
  | Some p => p
  | None => {| completed := Some []; failed := Some []; pending := Some [] |}
  end.

(** [str(e)] for the [KeyError] of a missing key. *)
Definition KeyError (key : string) : exn := lit "'" ++ lit key ++ lit "'".

(** [save_progress], as a completed call: the file holds [p]. *)
Definition save_progress (p : progress) (m : machine) : machine :=
  {| clock := clock m; files := files m; progress_file := Some p;
     trace := trace m ++ [Save p] |}.

Definition PROGRESS_FILE : str := lit "scripts/assemblyai_progress.json".

Definition json_of_progress (p : progress) : Json.value :=
  Json.Obj
    (match completed p with
     | Some l => [(lit "completed", Json.Arr (map Json.Str l))]
     | None => []
     end
     ++ match failed p with
        | Some l =>
            [(lit "failed",
              Json.Arr (map (fun f => Json.Obj [(lit "episode", Json.Str (fst f));
                                                (lit "error", Json.Str (snd f))])
                            l))]
        | None => []
        end
     ++ match pending p with
        | Some d =>
            [(lit "pending", Json.Obj (map (fun e => (fst e, Json.Str (snd e))) d))]
        | None => []
        end).

(** [save_progress], step by step on the file system:
    [PROGRESS_FILE.write_text(json.dumps(progress, indent=2))]. *)
Definition save_progress_steps (p : progress) : list Files.op :=
  [Files.Truncate PROGRESS_FILE;
   Files.Write PROGRESS_FILE (Json.dumps (json_of_progress p))].

Definition output_name (episode_num youtube_id ext : str) : str :=
  lit "ep" ++ episode_num ++ lit "_" ++ youtube_id ++ ext.

(** From "Waiting for transcription" to the end of the [try] block.
    [progress["completed"]] and [progress["pending"]] raise
    [KeyError] on a dict without the key. *)
Definition wait_and_store (svc : service) (episode_num youtube_id : str)
  (transcript_id : str) (p : progress) (m : machine)
  : result exn unit * progress * machine :=
  match poll_transcription svc transcript_id m with
  | (Raise e, m1) => (Raise e, p, m1)
  | (Ok result, m1) =>
      let formatted := format_transcript_with_speakers result in
      let m2 :=
        write_file (output_name episode_num youtube_id (lit ".md"))
          (Markdown (lit "# Episode " ++ episode_num ++ lit " Transcript"
                     ++ [NEWLINE; NEWLINE] ++ formatted)) m1 in
      let m3 :=
        write_file (output_name episode_num youtube_id (lit ".json"))
          (RawJson result) m2 in
      match completed p with
      | None => (Raise (KeyError "completed"), p, m3)
      | Some done =>
          let p1 := {| completed := Some (done ++ [episode_num]);
                       failed := failed p;
                       pending := pending p |} in
          match pending p1 with
          | None => (Raise (KeyError "pending"), p1, m3)
          | Some waiting =>
              let p2 := {| completed := completed p1;
                           failed := failed p1;
                           pending := Some (pop episode_num waiting) |} in
              (Ok tt, p2, save_progress p2 m3)
          end
      end
  end.

(** The first part of the [try] block: the id of the job to wait
    for.  It is the one found under [pending], or that of a new
    submission, which is written to the progress file at once. *)
Definition job_to_wait_for (svc : service) (episode_num youtube_id : str)
  (p : progress) (m : machine) : result exn str * progress * machine :=
  match lookup episode_num (or_empty (pending p)) with
  | Some transcript_id => (Ok transcript_id, p, m)
  | None =>
      match get_youtube_audio_url svc youtube_id m with
      | (Raise e, m1) => (Raise e, p, m1)
      | (Ok url, m1) =>
          match submit_transcription svc url m1 with
          | (Raise e, m2) => (Raise e, p, m2)
          | (Ok transcript_id, m2) =>
              let p1 := {| completed := completed p;
                           failed := failed p;
                           pending :=
                             Some (assign episode_num transcript_id
                                     (or_empty (pending p))) |} in
              (Ok transcript_id, p1, save_progress p1 m2)
          end
      end
  end.

(** The [try] block of [transcribe_episode]. *)
Definition try_transcribe (svc : service) (episode_num youtube_id : str)
  (p : progress) (m : machine) : result exn unit * progress * machine :=
  match job_to_wait_for svc episode_num youtube_id p m with
  | (Raise e, p1, m1) => (Raise e, p1, m1)
  | (Ok transcript_id, p1, m1) =>
      wait_and_store svc episode_num youtube_id transcript_id p1 m1
  end.

(** [Raise]: the [KeyError] of [progress["pending"]] in the [except]
    clause, which leaves the function. *)
Definition transcribe_episode (svc : service) (episode_num youtube_id : str)
  (p : progress) (m : machine) : result exn bool * progress * machine :=
  if exists_file m (output_name episode_num youtube_id (lit ".md"))
  then (Ok true, p, m)
  else if mem episode_num (or_empty (completed p)) then (Ok true, p, m)
  else
    match try_transcribe svc episode_num youtube_id p m with
    | (Ok _, p1, m1) => (Ok true, p1, m1)
    | (Raise e, p1, m1) =>
        let p2 := {| completed := completed p1;
                     failed := Some (or_empty (failed p1) ++ [(episode_num, e)]);
                     pending := pending p1 |} in
        match pending p2 with
        | None => (Raise (KeyError "pending"), p2, m1)
        | Some waiting =>
            let p3 := {| completed := completed p2;
                         failed := failed p2;
                         pending := Some (pop episode_num waiting) |} in
            (Ok false, p3, save_progress p3 m1)
        end
    end.

(** [main] with [--episode]: one episode, on the progress loaded from
    the file. *)
Definition main_episode (svc : service) (episode_num youtube_id : str)
  (m : machine) : result exn bool * progress * machine :=
  transcribe_episode svc episode_num youtube_id (load_progress m) m.

(** The loop of the batch mode over the episodes to transcribe; it
    has no [try], so an exception of [transcribe_episode] ends it. *)
Fixpoint transcribe_all (svc : service) (episodes : list (str * str))
  (p : progress) (m : machine) (success failed_count : nat)
  : result exn unit * progress * machine * nat * nat :=
  match episodes with
  | [] => (Ok tt, p, m, success, failed_count)
  | (episode_num, youtube_id) :: rest =>
      match transcribe_episode svc episode_num youtube_id p m with
      | (Ok true, p1, m1) =>
          transcribe_all svc rest p1 m1 (success + 1) failed_count
      | (Ok false, p1, m1) =>
          transcribe_all svc rest p1 m1 success (failed_count + 1)
      | (Raise e, p1, m1) => (Raise e, p1, m1, success, failed_count)
      end
  end.

(** A new process on what an earlier one left on the disk. *)
Definition restart (left : machine) (now : nat) : machine :=
  {| clock := now; files := files left; progress_file := progress_file left;
     trace := [] |}.

Definition is_poll (e : event) : bool :=
  match e with Poll _ => true | _ => false end.

Definition is_submit (e : event) : bool :=
  match e with Submit _ => true | _ => false end.

End AssemblyaiTranscribe.

(* ================================================================== *)
(** * pull_youtube_captions.py *)
(* ================================================================== *)

Module PullYoutubeCaptions.
Import Py.

(** [caption_progress.json]: three lists of video ids. *)
Record progress := {
  completed : list str;
  failed : list str;
  no_captions : list str
}.

(** How the [yt-dlp] subprocess ends: it returns, having created the
    files with the given suffixes and written [stderr]; it is killed
    after 60 seconds ([subprocess.TimeoutExpired]); or starting it
    raises. *)
Inductive subprocess :=
| Returned (created : list str) (stderr : str)
| TimeoutExpired
| OtherException.

(** The five strings [download_captions] returns. *)
Inductive status := Exists | Success | NoCaptions | Failed | Timeout.

Record machine := {
  files : list str;                   (** [transcripts/youtube/] *)
  progress_file : option progress     (** [PROGRESS_FILE] *)
}.

Definition mem (x : str) (l : list str) : bool := existsb (eqb x) l.

Definition download_captions `{Unicode} (yt_dlp : str -> subprocess)
  (youtube_id episode_num : str) (m : machine) : status * machine :=
  let output_path := lit "ep" ++ episode_num ++ lit "_" ++ youtube_id in
  if mem (output_path ++ lit ".en.vtt") (files m) then (Exists, m)
  else
    match yt_dlp youtube_id with
    | TimeoutExpired => (Timeout, m)
    | OtherException => (Failed, m)
    | Returned created stderr =>
        let m1 := {| files := files m ++ map (fun ext => output_path ++ ext) created;
                     progress_file := progress_file m |} in
        if existsb (fun ext => mem (output_path ++ ext) (files m1))
             [lit ".en.vtt"; lit ".en.srt"; lit ".vtt"; lit ".srt"]
        then (Success, m1)
        else if contains (lit "no subtitles") (lower stderr)
                || contains (lit "no automatic captions") (lower stderr)
        then (NoCaptions, m1)
        else (Failed, m1)
    end.

Definition load_progress (m : machine) : progress :=
  match progress_file m with
  | Some p => p
  | None => {| completed := []; failed := []; no_captions := [] |}
  end.

(** [save_progress], as a completed call. *)
Definition save_progress (p : progress) (m : machine) : machine :=
  {| files := files m; progress_file := Some p |}.

Definition PROGRESS_FILE : str := lit "scripts/caption_progress.json".

Definition json_of_progress (p : progress) : Json.value :=
  Json.Obj
    [(lit "completed", Json.Arr (map Json.Str (completed p)));
     (lit "failed", Json.Arr (map Json.Str (failed p)));
     (lit "no_captions", Json.Arr (map Json.Str (no_captions p)))].

(** [save_progress], step by step on the file system:
    [open(PROGRESS_FILE, 'w')], then [json.dump(progress, f, indent=2)]
    (the text is buffered and reaches the file when it is closed). *)
Definition save_progress_steps (p : progress) : list Files.op :=
  [Files.Truncate PROGRESS_FILE;
   Files.Write PROGRESS_FILE (Json.dumps (json_of_progress p))].

(** The entry made for one video. *)
Definition record (result : status) (yt_id : str) (p : progress) : progress :=
  match result with
  | Success | Exists =>
      {| completed := completed p ++ [yt_id]; failed := failed p;
         no_captions := no_captions p |}
  | NoCaptions =>
      {| completed := completed p; failed := failed p;
         no_captions := no_captions p ++ [yt_id] |}
  | _ =>
      {| completed := completed p; failed := failed p ++ [yt_id];
         no_captions := no_captions p |}
  end.

(** The loop of [main] over [enumerate(to_process)], from index [i]. *)
Fixpoint process `{Unicode} (yt_dlp : str -> subprocess) (i : nat)
  (items : list (str * str)) (p : progress) (m : machine)
  : progress * machine :=
  match items with
  | [] => (p, m)
  | (ep_num, yt_id) :: rest =>
      let '(result, m1) := download_captions yt_dlp yt_id ep_num m in
      let p1 := record result yt_id p in
      let m2 := if (i + 1) mod 10 =? 0 then save_progress p1 m1 else m1 in
      process yt_dlp (S i) rest p1 m2
  end.

(** [main] up to the last [save_progress]; [with_yt] lists the
    episodes that have a [youtubeId]. *)
Definition main `{Unicode} (yt_dlp : str -> subprocess)
  (with_yt : list (str * str)) (m : machine) : progress * machine :=
  let p := load_progress m in
  let completed_set := completed p ++ failed p ++ no_captions p in
  let to_process :=
    filter (fun e => negb (mem (snd e) completed_set)) with_yt in
  let '(p1, m1) := process yt_dlp 0 to_process p m in
  (p1, save_progress p1 m1).

End PullYoutubeCaptions.

(* ================================================================== *)
(** * Example inputs *)
(* ================================================================== *)

Module Inputs.
Import Py Notion.

(** A word of [n] letters. *)
Definition word (n : nat) : str := repeat 97%N n.

(** [k] words of [n] letters each, separated by single spaces. *)
Definition words (k n : nat) : str := join [SPACE] (repeat (word n) k).

(** A transcript of 101 words of 1000 letters: 101100 characters. *)
Definition long_transcript : str := words 101 1000.

(** A transcript of 120 characters. *)
Definition short_talk : str := words 20 5.

(** A page with no children for episode 7 and one for episode 8. *)
Definition two_pages : world :=
  {| db := [(7%Z, lit "page-7"); (8%Z, lit "page-8")];
     pages := [(lit "page-7", []); (lit "page-8", [])];
     faults := [];
     requests := [] |}.

(** A page whose transcript heading is its 21st child. *)
Definition deep_heading : world :=
  {| db := [(7%Z, lit "page-7")];
     pages := [(lit "page-7",
                repeat (OtherBlock (lit "image")) 20
                ++ [Chunks.heading_block; Chunks.paragraph (lit "hello")])];
     faults := [];
     requests := [] |}.

(** A text of 40 characters. *)
Definition tiny_talk : str := words 8 4 ++ lit "!".

(** [mapping.json] with one transcript for episode 7 and one for
    episode 8, and the transcript files. *)
Definition talk_path (n : string) : str :=
  lit "transcripts/" ++ lit n ++ lit ".txt".

Definition entry (ep guest file : string) : SyncTranscriptsToNotion.mapping_entry :=
  {| SyncTranscriptsToNotion.episode := lit ep;
     SyncTranscriptsToNotion.guest := lit guest;
     SyncTranscriptsToNotion.score := 1%Q;
     SyncTranscriptsToNotion.text_path := Some (talk_path file) |}.

Definition mapping_7 : list SyncTranscriptsToNotion.mapping_entry :=
  [entry "7" "Jane Smith" "jane"].

Definition mapping_7_8 : list SyncTranscriptsToNotion.mapping_entry :=
  [entry "7" "Jane Smith" "jane"; entry "8" "Alex Rivera" "alex"].

Definition talk_files : SyncTranscriptsToNotion.files :=
  [(talk_path "jane", short_talk); (talk_path "alex", short_talk)].

Definition tiny_files : SyncTranscriptsToNotion.files :=
  [(talk_path "jane", tiny_talk)].

(** The database of [two_pages] with the first exchange broken. *)
Definition first_exchange_broken : world :=
  {| db := db two_pages; pages := pages two_pages;
     faults := [URLError]; requests := [] |}.

(** A catalog: an entry without guest name; Bob Stone and Jane Smith. *)
Definition nameless : DownloadTranscripts.episode :=
  {| DownloadTranscripts.number := lit "12"; DownloadTranscripts.guest := [] |}.

Definition bob : DownloadTranscripts.episode :=
  {| DownloadTranscripts.number := lit "3";
     DownloadTranscripts.guest := lit "Bob Stone" |}.

Definition jane : DownloadTranscripts.episode :=
  {| DownloadTranscripts.number := lit "4";
     DownloadTranscripts.guest := lit "Jane Smith" |}.

(** A caption track with a repeated cue. *)
Definition caption_track : str :=
  lit "WEBVTT" ++ [NEWLINE] ++ lit "Kind: captions" ++ [NEWLINE; NEWLINE]
  ++ lit "00:00:01.000 --> 00:00:03.000" ++ [NEWLINE]
  ++ lit "welcome to the show" ++ [NEWLINE; NEWLINE]
  ++ lit "00:00:03.000 --> 00:00:05.000" ++ [NEWLINE]
  ++ lit "welcome to the show" ++ [NEWLINE]
  ++ lit "today we talk about leadership" ++ [NEWLINE].

(** A transcription service whose jobs never leave "processing". *)
Definition slow_service : AssemblyaiTranscribe.service :=
  {| AssemblyaiTranscribe.audio_url := fun _ => Exn.Ok (lit "https://audio/1");
     AssemblyaiTranscribe.submit := fun _ => Exn.Ok (lit "job-1");
     AssemblyaiTranscribe.poll := fun _ _ =>
       (Exn.Ok (AssemblyaiTranscribe.Waiting (lit "processing")), 0) |}.

Definition no_progress : AssemblyaiTranscribe.progress :=
  {| AssemblyaiTranscribe.completed := Some [];
     AssemblyaiTranscribe.failed := Some [];
     AssemblyaiTranscribe.pending := Some [] |}.

(** A machine with no transcript and no progress file. *)
Definition fresh_machine : AssemblyaiTranscribe.machine :=
  {| AssemblyaiTranscribe.clock := 0;
     AssemblyaiTranscribe.files := [];
     AssemblyaiTranscribe.progress_file := None;
     AssemblyaiTranscribe.trace := [] |}.

(** The progress of a run that was killed while episode 1171 waited
    for job-1. *)
Definition waiting_progress : AssemblyaiTranscribe.progress :=
  {| AssemblyaiTranscribe.completed := Some [];
     AssemblyaiTranscribe.failed := Some [];
     AssemblyaiTranscribe.pending := Some [(lit "1171", lit "job-1")] |}.

(** The caption progress after one video, and after a second one. *)
Definition one_video : PullYoutubeCaptions.progress :=
  {| PullYoutubeCaptions.completed := [lit "8AkPm4Zy3MU"];
     PullYoutubeCaptions.failed := [];
     PullYoutubeCaptions.no_captions := [] |}.

Definition two_videos : PullYoutubeCaptions.progress :=
  {| PullYoutubeCaptions.completed := [lit "8AkPm4Zy3MU"; lit "dQw4w9WgXcQ"];
     PullYoutubeCaptions.failed := [];
     PullYoutubeCaptions.no_captions := [] |}.

End Inputs.

(* ================================================================== *)
(** * Terms of the statements *)
(* ================================================================== *)

Module Terms.
Import Py Notion.

(** [needle] occurs in [hay]. *)
Definition occurs_in (needle hay : str) : Prop :=
  exists pre post, hay = pre ++ needle ++ post.

(** A [heading_2] block whose first rich-text item has "Transcript"
    in its content. *)
Definition transcript_heading (b : block) : Prop :=
  exists content rest,
    b = Heading2 (Some content :: rest) /\ occurs_in (lit "Transcript") content.

(** The episode has a guest name. *)
Definition named `{Unicode} (ep : DownloadTranscripts.episode) : Prop :=
  lower (DownloadTranscripts.guest ep) <> [].

(** The lower-cased guest name contains the normalized artifact name
    [n], or is contained in it. *)
Definition contained `{Unicode} (n : str) (ep : DownloadTranscripts.episode)
  : Prop :=
  occurs_in (lower (DownloadTranscripts.guest ep)) n
  \/ occurs_in n (lower (DownloadTranscripts.guest ep)).

Definition is_ascii (s : str) : Prop := Forall (fun c => (c < 128)%N) s.

End Terms.


(* ================================================================== *)
(** * sync_from_notion.py *)
(* ================================================================== *)

Module SyncFromNotion.
Import Py.

(** ** [extract_youtube_id] *)

(** The class [[a-zA-Z0-9_-]]. *)
Definition id_char (c : char) : bool :=
  ((97 <=? c) && (c <=? 122) || (65 <=? c) && (c <=? 90)
   || (48 <=? c) && (c <=? 57) || (c =? 95) || (c =? 45))%N.

(** The three patterns, each a literal followed by the group
    [([a-zA-Z0-9_-]{11})]: the literals, in the order of the loop. *)
Definition PREFIXES : list str :=
  [lit "youtu.be/"; lit "youtube.com/watch?v="; lit "youtube.com/embed/"].

(** The group of the match of one pattern at the head of [s]. *)
Definition match_at (prefix s : str) : option str :=
  if startswith s prefix then
    let id := firstn 11 (skipn (len prefix) s) in
    if (len id =? 11) && forallb id_char id then Some id else None
  else None.

(** [re.search(p, url)]: the match that starts first; [m.group(1)]. *)
Fixpoint search (prefix s : str) : option str :=
  match match_at prefix s with
  | Some id => Some id
  | None =>
      match s with
      | [] => None
      | _ :: s' => search prefix s'
      end
  end.

Fixpoint first_match (prefixes : list str) (url : str) : option str :=
  match prefixes with
  | [] => None
  | p :: rest =>
      match search p url with
      | Some id => Some id
      | None => first_match rest url
      end
  end.

(** [url] is [None] for a JSON null. *)
Definition extract_youtube_id (url : option str) : option str :=
  match url with
  | None | Some [] => None
  | Some url => first_match PREFIXES url
  end.

(** ** [get_text] *)

(** A title or rich-text property: the [plain_text] of each of its
    items, [None] for an item without one; a missing property has no
    items. *)
Definition text_property := list (option str).

Definition get_text (prop : text_property) : str :=
  strip (List.concat (map (fun x => match x with Some t => t | None => [] end) prop)).

(** ** The transformation of [main] *)

(** The first entry of a files property. *)
Inductive file_ref :=
| External (url : option str)
| File (url : option str)
| OtherFile.

(** The properties of a page that [main] reads.  A number is the
    integer [json.loads] gives for a literal without fraction. *)
Record notion_episode := {
  episode_no : option Z;              (** "Episode No." *)
  episode_name : text_property;       (** "Episode Name" (title) *)
  podcast_title : text_property;      (** "Podcast Episode Title" *)
  summary : text_property;            (** "Episode Summary" *)
  podcast_description : text_property;(** "Podcast Episode Description" *)
  spotify_link : option str;          (** [url] of "Spotify Link"; [Some []] when missing *)
  youtube_link : option str;          (** [url] of "YouTube Link"; [Some []] when missing *)
  publication_start : option str;     (** [start] of "Publication Date" *)
  series_name : option str;           (** [name] of "Series" *)
  key_graphic : option file_ref;      (** first file of "Key Graphic" *)
  ai_image : option file_ref          (** first file of "AI Image" *)
}.

(** One entry of [episodes.json]; [youtubeId] and [image] are keys
    that may be missing, [link] may be null. *)
Record website_episode := {
  episode : str;
  title : str;
  guest : str;
  topic : str;
  description : str;
  link : option str;
  date : str;
  series : str;
  youtubeId : option str;
  image : option str
}.

(** [str(n)] for an integer. *)
Definition str_of_Z (n : Z) : str :=
  match n with
  | Zneg _ => lit "-" ++ str_of_nat (Z.abs_nat n)
  | _ => str_of_nat (Z.abs_nat n)
  end.

(** Truth of a number or [None], and of a string. *)
Definition number_true (n : option Z) : bool :=
  match n with
  | Some k => negb (k =? 0)%Z
  | None => false
  end.

Definition nonempty (s : str) : bool :=
  match s with [] => false | _ => true end.

Definition or_else (s t : str) : str := if nonempty s then s else t.

(** One round of the loop over the image fields: the new value of
    [image]. *)
Definition image_step (image : option str) (first_file : option file_ref)
  : option str :=
  match first_file with
  | Some (External url) => url
  | Some (File url) => url
  | Some OtherFile => image
  | None => image
  end.

Definition image_true (image : option str) : bool :=
  match image with Some u => nonempty u | None => false end.

Definition image_of (nep : notion_episode) : option str :=
  let image := image_step (Some []) (key_graphic nep) in
  if match key_graphic nep with Some _ => image_true image | None => false end
  then image
  else image_step image (ai_image nep).

(** The body of the loop: the entry appended for one page, [None]
    when the page is passed over. *)
Definition transform (nep : notion_episode) : option website_episode :=
  let ep_no := episode_no nep in
  let guest := get_text (episode_name nep) in
  let topic := get_text (podcast_title nep) in
  let desc := or_else (get_text (summary nep)) (get_text (podcast_description nep)) in
  let yt_id := extract_youtube_id (youtube_link nep) in
  let date_str := match publication_start nep with Some d => d | None => [] end in
  let series := match series_name nep with Some n => n | None => [] end in
  let image := image_of nep in
  let ep_text := match ep_no with Some n => str_of_Z n | None => lit "None" end in
  let title :=
    if number_true ep_no && nonempty guest then
      if nonempty topic
      then lit "Ep" ++ ep_text ++ lit ": " ++ guest ++ lit ": " ++ topic
      else lit "Ep" ++ ep_text ++ lit ": " ++ guest
    else if nonempty guest then
      if nonempty topic then guest ++ lit ": " ++ topic else guest
    else or_else topic (lit "Untitled") in
  if negb (nonempty guest || number_true ep_no) then None
  else
    Some {| episode := if number_true ep_no then ep_text else [];
            title := title;
            guest := guest;
            topic := or_else topic title;
            description :=
              if nonempty desc then lit "<p>" ++ desc ++ lit "</p>" else [];
            link := spotify_link nep;
            date := date_str;
            series := series;
            youtubeId :=
              match yt_id with
              | Some id => if nonempty id then Some id else None
              | None => None
              end;
            image := if image_true image then image else None |}.

(** [website_eps] for the pages [all_eps]. *)
Fixpoint website_eps (all_eps : list notion_episode) : list website_episode :=
  match all_eps with
  | [] => []
  | nep :: rest =>
      match transform nep with
      | Some ep_data => ep_data :: website_eps rest
      | None => website_eps rest
      end
  end.

(** ** The two files *)

(** The JSON values of the catalog. *)
#[warnings="-register-all"]
Inductive json :=
| Null
| Text (s : str)
| Array (items : list json)
| Dict (members : list (str * json)).

(** One character of a string, as [json.dump] writes it with
    [ensure_ascii=False]. *)
Definition escape (c : char) : str :=
  match c with
  | 34 => [92; 34]
  | 92 => [92; 92]
  | 10 => lit "\n"
  | 13 => lit "\r"
  | 9 => lit "\t"
  | 8 => lit "\b"
  | 12 => lit "\f"
  | _ => if c <? 32 then Json.u_escape c else [c]
  end%N.

Definition quote (s : str) : str := [34%N] ++ flat_map escape s ++ [34%N].

(** [indent=2] *)
Fixpoint encode (level : nat) (v : json) : str :=
  match v with
  | Null => lit "null"
  | Text s => quote s
  | Array [] => lit "[]"
  | Array items =>
      lit "[" ++ Json.newline_indent (S level)
      ++ join (lit "," ++ Json.newline_indent (S level))
           (map (encode (S level)) items)
      ++ Json.newline_indent level ++ lit "]"
  | Dict [] => lit "{}"
  | Dict members =>
      lit "{" ++ Json.newline_indent (S level)
      ++ join (lit "," ++ Json.newline_indent (S level))
           (map (fun m => quote (fst m) ++ lit ": " ++ encode (S level) (snd m))
                members)
      ++ Json.newline_indent level ++ lit "}"
  end.

Definition json_of_episode (e : website_episode) : json :=
  Dict ([(lit "episode", Text (episode e));
         (lit "title", Text (title e));
         (lit "guest", Text (guest e));
         (lit "topic", Text (topic e));
         (lit "description", Text (description e));
         (lit "link", match link e with Some l => Text l | None => Null end);
         (lit "date", Text (date e));
         (lit "series", Text (series e))]
        ++ match youtubeId e with
           | Some id => [(lit "youtubeId", Text id)]
           | None => []
           end
        ++ match image e with
           | Some url => [(lit "image", Text url)]
           | None => []
           end).

(** The text of [episodes.json]. *)
Definition episodes_json (eps : list website_episode) : str :=
  encode 0 (Array (map json_of_episode eps)).

(** [datetime.now()] *)
Record datetime := {
  year : nat; month : nat; day : nat;
  hour : nat; minute : nat; second : nat; microsecond : nat
}.

(** [%0wd] *)
Definition pad (w n : nat) : str :=
  repeat 48%N (w - len (str_of_nat n)) ++ str_of_nat n.

Definition isoformat (t : datetime) : str :=
  pad 4 (year t) ++ lit "-" ++ pad 2 (month t) ++ lit "-" ++ pad 2 (day t)
  ++ lit "T" ++ pad 2 (hour t) ++ lit ":" ++ pad 2 (minute t)
  ++ lit ":" ++ pad 2 (second t)
  ++ match microsecond t with
     | 0 => []
     | us => lit "." ++ pad 6 us
     end.

(** The text of [js/episodes.js]. *)
Definition episodes_js (now : datetime) (eps : list website_episode) : str :=
  lit "// Episode data - auto-synced from Notion" ++ [NEWLINE]
  ++ (lit "// Last sync: " ++ isoformat now ++ [NEWLINE])
  ++ (lit "const EPISODES = " ++ [NEWLINE])
  ++ episodes_json eps
  ++ (lit ";" ++ [NEWLINE]).

End SyncFromNotion.

(* ================================================================== *)
(** * assemblyai_transcribe.py: the episodes of the batch *)
(* ================================================================== *)

Module AssemblyaiEpisodes.
Import Py Exn.

(** [s.split(sep)] for a separator of one or more characters;
    [skip] counts the characters of the separator just found that are
    still to be passed, [cur] holds the current part, last character
    first. *)
Fixpoint split_from (sep : str) (skip : nat) (cur : str) (s : str) : list str :=
  match s with
  | [] => [rev cur]
  | c :: s' =>
      match skip with
      | S k => split_from sep k cur s'
      | 0 =>
          if startswith s sep
          then rev cur :: split_from sep (len sep - 1) [] s'
          else split_from sep 0 (c :: cur) s'
      end
  end.

Definition split_str (sep s : str) : list str := split_from sep 0 [] s.

(** An entry of [episodes.json] as this script reads it: a key is
    [None] when it is missing or null. *)
Record catalog_entry := {
  episode : option str;
  link : option str;
  guest : option str                  (** [None] when the key is missing *)
}.

Record job := {
  job_episode : option str;           (** ["episode"] *)
  youtube_id : str;
  job_guest : str
}.

(** The YouTube id taken from the link, [None] when there is none. *)
Definition youtube_id_of (youtube_link : str) : option str :=
  if contains (lit "youtube.com/watch?v=") youtube_link then
    Some (nth 0 (split_str (lit "&") (nth 1 (split_str (lit "v=") youtube_link) [])) [])
  else if contains (lit "youtu.be/") youtube_link then
    Some (nth 0 (split_str (lit "?") (nth 1 (split_str (lit "youtu.be/") youtube_link) [])) [])
  else None.

(** [f"ep{episode_num}_{youtube_id}.md"] *)
Definition output_file (episode_num : option str) (youtube_id : str) : str :=
  AssemblyaiTranscribe.output_name
    (match episode_num with Some e => e | None => lit "None" end)
    youtube_id (lit ".md").

(** The loop over the catalog. *)
Fixpoint to_transcribe (m : AssemblyaiTranscribe.machine)
  (episodes : list catalog_entry) : list job :=
  match episodes with
  | [] => []
  | ep :: rest =>
      let youtube_link := match link ep with Some l => l | None => [] end in
      match youtube_id_of youtube_link with
      | Some (c :: id) =>
          if AssemblyaiTranscribe.exists_file m (output_file (episode ep) (c :: id))
          then to_transcribe m rest
          else {| job_episode := episode ep; youtube_id := c :: id;
                  job_guest := match guest ep with
                               | Some g => g
                               | None => lit "Unknown"
                               end |} :: to_transcribe m rest
      | _ => to_transcribe m rest
      end
  end.

(** What ends the sort: [int] of a string that is no integer
    literal, or of [None]. *)
Inductive error := ValueError | TypeError.

(** The keys [int(x["episode"])], computed for the whole list before
    anything is moved. *)
Fixpoint keyed `{Unicode} (jobs : list job) : result error (list (Z * job)) :=
  match jobs with
  | [] => Ok []
  | j :: rest =>
      match job_episode j with
      | None => Raise TypeError
      | Some e =>
          match PyInt.int e with
          | None => Raise ValueError
          | Some k =>
              match keyed rest with
              | Ok l => Ok ((k, j) :: l)
              | Raise x => Raise x
              end
          end
      end
  end.

Fixpoint insert_desc (x : Z * job) (l : list (Z * job)) : list (Z * job) :=
  match l with
  | [] => [x]
  | y :: l' =>
      if (fst x <? fst y)%Z then y :: insert_desc x l' else x :: y :: l'
  end.

(** [limit] is [None] without [--limit]. *)
Definition get_episodes_to_transcribe `{Unicode} (m : AssemblyaiTranscribe.machine)
  (episodes : list catalog_entry) (limit : option Z) : result error (list job) :=
  match keyed (to_transcribe m episodes) with
  | Raise x => Raise x
  | Ok l =>
      let sorted := map snd (fold_right insert_desc [] l) in
      Ok match limit with
         | None | Some 0%Z => sorted
         | Some (Zpos n) => firstn (Pos.to_nat n) sorted
         | Some (Zneg n) => firstn (len sorted - Pos.to_nat n) sorted
         end
  end.

(** [episodes.json] as written by [sync_from_notion.py] and read back
    by [json.loads]: the strings as they were written. *)
Definition as_read (e : SyncFromNotion.website_episode) : catalog_entry :=
  {| episode := Some (SyncFromNotion.episode e);
     link := SyncFromNotion.link e;
     guest := Some (SyncFromNotion.guest e) |}.

End AssemblyaiEpisodes.


(* ================================================================== *)
(** * pull_youtube_captions.py: the catalog and the text files *)
(* ================================================================== *)

Module PullYoutubeCaptionsFiles.
Import Py.

(** ** [load_episodes] *)

(** [s.find(c)] and [s.rfind(c)] for one character: the first and
    the last index, -1 when there is none. *)
Fixpoint find (c : char) (s : str) : Z :=
  match s with
  | [] => (-1)%Z
  | d :: s' =>
      if (d =? c)%N then 0%Z
      else let i := find c s' in if (i <? 0)%Z then (-1)%Z else (i + 1)%Z
  end.

Fixpoint rfind (c : char) (s : str) : Z :=
  match s with
  | [] => (-1)%Z
  | d :: s' =>
      let i := rfind c s' in
      if (0 <=? i)%Z then (i + 1)%Z
      else if (d =? c)%N then 0%Z else (-1)%Z
  end.

(** An index of a slice, brought into [0 .. n]. *)
Definition clamp (n : nat) (i : Z) : nat :=
  Z.to_nat (if (i <? 0)%Z then Z.max 0 (i + Z.of_nat n)
            else Z.min i (Z.of_nat n)).

(** [s[start:stop]] *)
Definition slice (s : str) (start stop : Z) : str :=
  let a := clamp (len s) start in
  let b := clamp (len s) stop in
  firstn (b - a) (skipn a s).

(** The text [load_episodes] hands to [json.loads]. *)
Definition array_text (content : str) : str :=
  let start := find 91%N content in
  let end_ := (rfind 93%N content + 1)%Z in
  slice content start end_.

(** ** [convert_vtt_to_txt] *)

(** [f.readlines()]: the lines, each with its line end; [cur] holds
    the current line, last character first. *)
Fixpoint readlines_from (cur : str) (s : str) : list str :=
  match s with
  | [] => match cur with [] => [] | _ => [rev cur] end
  | c :: s' =>
      if (c =? NEWLINE)%N then rev (c :: cur) :: readlines_from [] s'
      else readlines_from (c :: cur) s'
  end.

Definition readlines (s : str) : list str := readlines_from [] s.

(** The text written to the [.txt] file, [None] when nothing is
    written: the file is there already ([txt_exists]), or the [.vtt]
    file cannot be read ([vtt] is [None]).  The two loops are those of
    [parse_vtt_to_text]. *)
Definition convert_vtt_to_txt `{Unicode} (txt_exists : bool) (vtt : option str)
  : option str :=
  if txt_exists then None
  else
    match vtt with
    | None => None
    | Some content =>
        let text_lines :=
          SyncYoutubeTranscriptsToNotion.text_lines (readlines content) in
        let deduped := SyncYoutubeTranscriptsToNotion.dedupe None text_lines in
        Some (join [NEWLINE] deduped)
    end.

End PullYoutubeCaptionsFiles.

(* ================================================================== *)
(** * sync_transcripts_to_drive.py *)
(* ================================================================== *)

Module SyncTranscriptsToDrive.
Import Py Exn.

(** ** [get_notion_transcript] *)

(** A block as the API returns it: its type and the rich text under
    the key of that type, as the [plain_text] of each item ([None]
    for an item without one); [rich_text] is [None] for a block that
    has no rich text. *)
Record block := {
  type : str;
  rich_text : option (list (option str))
}.

Definition plain_texts (b : block) : list str :=
  match rich_text b with
  | Some items => map (fun x => match x with Some t => t | None => [] end) items
  | None => []
  end.

(** The loop over the blocks: [transcript_lines] at its end. *)
Fixpoint transcript_lines `{Unicode} (in_transcript : bool) (blocks : list block)
  : list str :=
  match blocks with
  | [] => []
  | b :: rest =>
      let paragraph_texts :=
        if in_transcript && eqb (type b) (lit "paragraph")
        then plain_texts b else [] in
      if startswith (type b) (lit "heading") then
        match plain_texts b with
        | first :: _ =>
            if contains (lit "transcript") (lower first)
            then transcript_lines true rest
            else if in_transcript then []
            else paragraph_texts ++ transcript_lines in_transcript rest
        | [] => paragraph_texts ++ transcript_lines in_transcript rest
        end
      else paragraph_texts ++ transcript_lines in_transcript rest
  end.

(** The value returned for the blocks of the answer. *)
Definition transcript_of `{Unicode} (blocks : list block) : option str :=
  match transcript_lines false blocks with
  | [] => None
  | lines => Some (join [NEWLINE; NEWLINE] lines)
  end.

(** A block of the workspace database as the API returns it: the
    [plain_text] of a text item is its content.  (An item without
    [text] member is given no [plain_text] here.) *)
Definition as_returned (b : Notion.block) : block :=
  match b with
  | Notion.Divider => {| type := lit "divider"; rich_text := None |}
  | Notion.Heading2 rt => {| type := lit "heading_2"; rich_text := Some rt |}
  | Notion.Paragraph rt => {| type := lit "paragraph"; rich_text := Some rt |}
  | Notion.OtherBlock t => {| type := t; rich_text := None |}
  end.

(** Every exception is caught and gives [None]. *)
Definition get_notion_transcript `{Unicode} (w : Notion.world)
  (page : Notion.page_id) : Notion.world * option str :=
  match Notion.exchange w (Notion.GetChildren page 100) with
  | (w', Notion.Answer (Notion.Children results)) =>
      (w', transcript_of (map as_returned results))
  | (w', Notion.Answer _) => (w', transcript_of [])
  | (w', _) => (w', None)
  end.

(** ** [main] *)

(** The value under [episode] of an entry of the matched file. *)
Inductive episode_value :=
| Number (n : Z)
| String (s : str).

(** [f"{ep_num}"] *)
Definition format (v : episode_value) : str :=
  match v with
  | Number n => SyncFromNotion.str_of_Z n
  | String s => s
  end.

(** An entry of the matched file; a key is [None] when missing. *)
Record matched_entry := {
  episode : option episode_value;
  guest : option str;
  folder_id : option str
}.

(** [transcript_sync_progress.json] *)
Record progress := {
  synced : list episode_value;
  skipped : list episode_value;
  errors : list episode_value;
  last_index : nat
}.

Definition no_progress : progress :=
  {| synced := []; skipped := []; errors := []; last_index := 0 |}.

(** The services the loop calls, on a state [W] of the two of them:
    - [check_existing_transcript_doc]: the name of a document found
      in the folder ([None] also when the request fails);
    - the database query of [main]: the id of the first page found,
      [Ok None] when there is none, [Raise] when the request raises;
    - [get_notion_transcript] on that page;
    - [create_google_doc]: the id of the new document, [None] when
      one of its two requests fails. *)
Record services (W : Type) := {
  check_existing_transcript_doc : option str -> W -> option str * W;
  query_page : episode_value -> W -> result unit (option str) * W;
  notion_transcript : str -> W -> option str * W;
  create_google_doc : option str -> str -> str -> W -> option str * W
}.

Arguments check_existing_transcript_doc {W}.
Arguments query_page {W}.
Arguments notion_transcript {W}.
Arguments create_google_doc {W}.

(** A call of [create_google_doc]: folder, title, content. *)
Definition creation := (option str * str * str)%type.

Record machine (W : Type) := {
  world : W;
  progress_file : option progress;    (** [PROGRESS_FILE] *)
  created : list creation             (** the documents asked for, oldest first *)
}.

Arguments world {W}.
Arguments progress_file {W}.
Arguments created {W}.

Definition with_world {W : Type} (w : W) (m : machine W) : machine W :=
  {| world := w; progress_file := progress_file m; created := created m |}.

Definition save_progress {W : Type} (p : progress) (m : machine W) : machine W :=
  {| world := world m; progress_file := Some p; created := created m |}.

Definition load_progress {W : Type} (m : machine W) : progress :=
  match progress_file m with
  | Some p => p
  | None => no_progress
  end.

Definition add_skipped (ep_num : episode_value) (i : nat) (p : progress) : progress :=
  {| synced := synced p; skipped := skipped p ++ [ep_num]; errors := errors p;
     last_index := i + 1 |}.

Definition add_synced (ep_num : episode_value) (i : nat) (p : progress) : progress :=
  {| synced := synced p ++ [ep_num]; skipped := skipped p; errors := errors p;
     last_index := i + 1 |}.

Definition add_error (ep_num : episode_value) (i : nat) (p : progress) : progress :=
  {| synced := synced p; skipped := skipped p; errors := errors p ++ [ep_num];
     last_index := i + 1 |}.

Definition doc_title (ep_num : episode_value) (guest : str) : str :=
  lit "Ep" ++ format ep_num ++ lit " - " ++ guest ++ lit " (Transcript)".

(** One round of the loop, for [ep = matched[i]]. *)
Definition sync_one {W : Type} (svc : services W) (i : nat) (ep : matched_entry)
  (p : progress) (m : machine W) : progress * machine W :=
  let ep_num := match episode ep with Some v => v | None => String (lit "?") end in
  let guest := match guest ep with Some g => g | None => lit "Unknown" end in
  let '(existing, w1) := check_existing_transcript_doc svc (folder_id ep) (world m) in
  let m1 := with_world w1 m in
  match existing with
  | Some _ => let p1 := add_skipped ep_num i p in (p1, save_progress p1 m1)
  | None =>
      let '(search_data, w2) := query_page svc ep_num w1 in
      let m2 := with_world w2 m1 in
      match search_data with
      | Raise _ => let p1 := add_error ep_num i p in (p1, save_progress p1 m2)
      | Ok None => let p1 := add_skipped ep_num i p in (p1, save_progress p1 m2)
      | Ok (Some page_id) =>
          let '(transcript, w3) := notion_transcript svc page_id w2 in
          let m3 := with_world w3 m2 in
          match transcript with
          | None => let p1 := add_skipped ep_num i p in (p1, save_progress p1 m3)
          | Some text =>
              if match text with [] => true | _ => len text <? 100 end
              then let p1 := add_skipped ep_num i p in (p1, save_progress p1 m3)
              else
                let title := doc_title ep_num guest in
                let '(doc_id, w4) :=
                  create_google_doc svc (folder_id ep) title text w3 in
                let m4 :=
                  {| world := w4; progress_file := progress_file m3;
                     created := created m3 ++ [(folder_id ep, title, text)] |} in
                let p1 :=
                  match doc_id with
                  | Some (_ :: _) => add_synced ep_num i p
                  | _ => add_error ep_num i p
                  end in
                (p1, save_progress p1 m4)
          end
      end
  end.

(** The loop over [range(start_index, end_index)], from [i] on the
    entries [eps] still to come. *)
Fixpoint sync_from {W : Type} (svc : services W) (i : nat)
  (eps : list matched_entry) (p : progress) (m : machine W)
  : progress * machine W :=
  match eps with
  | [] => (p, m)
  | ep :: rest =>
      let '(p1, m1) := sync_one svc i ep p m in
      sync_from svc (S i) rest p1 m1
  end.

(** [main]; [limit] is [None] without [--limit]. *)
Definition main {W : Type} (svc : services W) (matched : list matched_entry)
  (limit : option Z) (resume : bool) (m : machine W) : progress * machine W :=
  let progress := if resume then load_progress m else no_progress in
  let start_index := if resume then last_index progress else 0 in
  let total := len matched in
  let end_index :=
    match limit with
    | None | Some 0%Z => Z.of_nat total
    | Some l => Z.min (Z.of_nat start_index + l) (Z.of_nat total)
    end in
  let count := Z.to_nat (end_index - Z.of_nat start_index) in
  sync_from svc start_index (firstn count (skipn start_index matched)) progress m.

End SyncTranscriptsToDrive.

(* ================================================================== *)
(** * More example inputs *)
(* ================================================================== *)

Module MoreInputs.
Import Py Notion Inputs.

(** A caption file for episode 7 whose text has 119 characters, after
    the header and one cue line. *)
Definition talk_vtt : SyncYoutubeTranscriptsToNotion.vtt_file :=
  {| SyncYoutubeTranscriptsToNotion.stem := lit "ep7_8AkPm4Zy3MU.en";
     SyncYoutubeTranscriptsToNotion.content :=
       Some (lit "WEBVTT" ++ [NEWLINE; NEWLINE]
             ++ lit "00:00:01.000 --> 00:00:09.000" ++ [NEWLINE]
             ++ short_talk ++ [NEWLINE]) |}.

(** A caption file whose name carries no episode number. *)
Definition stray_vtt : SyncYoutubeTranscriptsToNotion.vtt_file :=
  {| SyncYoutubeTranscriptsToNotion.stem := lit "epilogue.en";
     SyncYoutubeTranscriptsToNotion.content := Some short_talk |}.

(** A transcription service that has every job done at the first
    poll: the host asks, the guest answers twice. *)
Definition interview : AssemblyaiTranscribe.transcript :=
  {| AssemblyaiTranscribe.full_text := lit "Welcome. Thank you. Glad to be here.";
     AssemblyaiTranscribe.utterances :=
       [ {| AssemblyaiTranscribe.speaker := lit "A";
            AssemblyaiTranscribe.text := lit "Welcome." |};
         {| AssemblyaiTranscribe.speaker := lit "B";
            AssemblyaiTranscribe.text := lit "Thank you." |};
         {| AssemblyaiTranscribe.speaker := lit "B";
            AssemblyaiTranscribe.text := lit "Glad to be here." |} ] |}.

Definition quick_service : AssemblyaiTranscribe.service :=
  {| AssemblyaiTranscribe.audio_url := fun _ => Exn.Ok (lit "https://audio/1");
     AssemblyaiTranscribe.submit := fun _ => Exn.Ok (lit "job-1");
     AssemblyaiTranscribe.poll := fun _ _ =>
       (Exn.Ok (AssemblyaiTranscribe.Completed interview), 2) |}.

(** A page of the episodes database with both links. *)
Definition jane_page : SyncFromNotion.notion_episode :=
  {| SyncFromNotion.episode_no := Some 1171%Z;
     SyncFromNotion.episode_name := [Some (lit "Jane Smith ")];
     SyncFromNotion.podcast_title := [Some (lit "Leading in the open")];
     SyncFromNotion.summary := [];
     SyncFromNotion.podcast_description := [Some (lit "A talk.")];
     SyncFromNotion.spotify_link :=
       Some (lit "https://open.spotify.com/episode/4rOoJ6Egrf8K2IrywzwOMk");
     SyncFromNotion.youtube_link :=
       Some (lit "https://www.youtube.com/watch?v=8AkPm4Zy3MU");
     SyncFromNotion.publication_start := Some (lit "2024-03-05");
     SyncFromNotion.series_name := None;
     SyncFromNotion.key_graphic := None;
     SyncFromNotion.ai_image := None |}.


(** Three matched episodes, and services that find no document,
    find a page with a transcript of 119 characters for every
    episode, and create every document asked for. *)
Definition three_matched : list SyncTranscriptsToDrive.matched_entry :=
  map (fun n =>
         {| SyncTranscriptsToDrive.episode := Some (SyncTranscriptsToDrive.Number n);
            SyncTranscriptsToDrive.guest := Some (lit "Jane Smith");
            SyncTranscriptsToDrive.folder_id := Some (lit "folder") |})
      [7%Z; 8%Z; 9%Z].

Definition willing_services : SyncTranscriptsToDrive.services unit :=
  {| SyncTranscriptsToDrive.check_existing_transcript_doc := fun _ w => (None, w);
     SyncTranscriptsToDrive.query_page := fun _ w => (Exn.Ok (Some (lit "page")), w);
     SyncTranscriptsToDrive.notion_transcript := fun _ w => (Some short_talk, w);
     SyncTranscriptsToDrive.create_google_doc := fun _ _ _ w => (Some (lit "doc"), w) |}.

Definition empty_machine : SyncTranscriptsToDrive.machine unit :=
  {| SyncTranscriptsToDrive.world := tt;
     SyncTranscriptsToDrive.progress_file := None;
     SyncTranscriptsToDrive.created := [] |}.

End MoreInputs.
(* ================================================================== *)
(** * Facts about Python strings *)
(* ================================================================== *)

Unset Implicit Arguments.

Module PyFacts.
Import Py.

Lemma eqb_eq (s t : str) : eqb s t = true <-> s = t.
Proof.
  revert t; induction s as [|c s IH]; intros [|d t]; simpl;
    try (split; [discriminate | discriminate]); try tauto.
  rewrite andb_true_iff, N.eqb_eq, IH.
  split; [intros [-> ->]; reflexivity | intros [= -> ->]; auto].
Qed.

Lemma eqb_refl (s : str) : eqb s s = true.
Proof. apply eqb_eq; reflexivity. Qed.

Lemma eqb_neq (s t : str) : eqb s t = false <-> s <> t.
Proof.
  rewrite <- eqb_eq. destruct (eqb s t); split; congruence.
Qed.

Lemma startswith_nil (s : str) : startswith s [] = true.
Proof. destruct s; reflexivity. Qed.

Lemma startswith_spec (s p : str) :
  startswith s p = true <-> exists r, s = p ++ r.
Proof.
  revert s; induction p as [|c p IH]; intros s.
  - rewrite startswith_nil. split; [exists s; reflexivity | reflexivity].
  - destruct s as [|d s]; simpl.
    + split; [discriminate | intros [r [=]]].
    + rewrite andb_true_iff, N.eqb_eq, IH. split.
      * intros [-> [r ->]]. exists r; reflexivity.
      * intros [r [= -> ->]]. split; [reflexivity | exists r; reflexivity].
Qed.

Lemma contains_spec (needle hay : str) :
  contains needle hay = true <-> exists pre post, hay = pre ++ needle ++ post.
Proof.
  induction hay as [|c hay IH]; cbn [contains].
  - rewrite orb_false_r, startswith_spec. split.
    + intros [r E]. exists [], r. exact E.
    + intros (pre & post & E). destruct pre; [exists post; exact E | discriminate].
  - rewrite orb_true_iff, startswith_spec, IH. split.
    + intros [[r E] | (pre & post & ->)].
      * exists [], r. exact E.
      * exists (c :: pre), post. reflexivity.
    + intros (pre & post & E). destruct pre as [|d pre].
      * left. exists post. exact E.
      * right. injection E as -> ->. exists pre, post. reflexivity.
Qed.

Lemma contains_nil (hay : str) : contains [] hay = true.
Proof. apply contains_spec. exists [], hay. reflexivity. Qed.

Lemma join_snoc (sep : str) (l : list str) (w : str) :
  join sep (l ++ [w]) =
  match l with [] => w | _ => join sep l ++ sep ++ w end.
Proof.
  induction l as [|p l IH]; [reflexivity|].
  destruct l as [|q l]; [reflexivity|].
  change (join sep ((p :: q :: l) ++ [w]))
    with (p ++ sep ++ join sep ((q :: l) ++ [w])).
  rewrite IH. change (join sep (p :: q :: l)) with (p ++ sep ++ join sep (q :: l)).
  now rewrite <- !app_assoc.
Qed.

End PyFacts.

(* ================================================================== *)
(** * The blocks of a transcript: sizes and counts *)
(* ================================================================== *)

Module ChunkFacts.
Import Py Notion Chunks PyFacts Inputs.

Lemma join_snoc_length (sep : str) (l : list str) (w : str) :
  len (join sep (l ++ [w])) <= len (join sep l) + len sep + len w.
Proof.
  rewrite join_snoc. destruct l; simpl join.
  - lia.
  - rewrite !length_app. lia.
Qed.

(** What the chunking loop keeps true: the finished chunks and the
    chunk being filled have at most 1900 characters. *)
Definition chunk_inv (st : chunk_state) : Prop :=
  let '(chunks, current_chunk, current_len) := st in
  Forall (fun c : str => len c <= 1900) chunks
  /\ len (join [SPACE] current_chunk) <= current_len
  /\ current_len <= 1900.

Lemma chunk_step_inv (st : chunk_state) (w : str) :
  len w <= 1900 -> chunk_inv st -> chunk_inv (chunk_step st w).
Proof.
  destruct st as [[chunks cur] clen]. unfold chunk_inv, chunk_step.
  intros Hw (Hc & Hj & Hl).
  destruct (1900 <? clen + len w + 1) eqn:E.
  - repeat split.
    + apply Forall_app. split; [exact Hc|]. constructor; [lia | constructor].
    + simpl. lia.
    + exact Hw.
  - apply Nat.ltb_ge in E. repeat split.
    + exact Hc.
    + pose proof (join_snoc_length [SPACE] cur w) as J. simpl in J. lia.
    + lia.
Qed.

Lemma chunk_loop_inv (ws : list str) (st : chunk_state) :
  Forall (fun w : str => len w <= 1900) ws ->
  chunk_inv st -> chunk_inv (fold_left chunk_step ws st).
Proof.
  revert st. induction ws as [|w ws IH]; intros st Hws Hst; simpl.
  - exact Hst.
  - inversion Hws; subst. apply IH; [assumption|].
    apply chunk_step_inv; assumption.
Qed.

(** When no word of the transcript is longer than 1900 characters, no
    chunk is: every chunk is below the 2000 characters of a block. *)
Lemma split_chunks_bound (transcript_text : str) :
  Forall (fun w : str => len w <= 1900) (split transcript_text) ->
  Forall (fun c : str => len c < 2000) (split_chunks transcript_text).
Proof.
  intros Hws. unfold split_chunks.
  assert (I : chunk_inv (fold_left chunk_step (split transcript_text) ([], [], 0))).
  { apply chunk_loop_inv; [exact Hws|]. simpl. split; [constructor | lia]. }
  destruct (fold_left chunk_step (split transcript_text) ([], [], 0))
    as [[chunks cur] clen].
  destruct I as (Hc & Hj & Hl).
  assert (Forall (fun c : str => len c < 2000) chunks).
  { eapply Forall_impl; [|exact Hc]. simpl; intros; lia. }
  destruct cur; [assumption|].
  apply Forall_app. split; [assumption|]. constructor; [lia | constructor].
Qed.

(** A word of 2500 letters becomes a chunk of 2500 characters, after
    an empty chunk. *)
Lemma split_chunks_long_word :
  split_chunks (word 2500) = [[]; word 2500].
Proof. vm_compute. reflexivity. Qed.

(** The caption sync sends at most 100 blocks in a request. *)
Lemma youtube_blocks_within_cap (transcript_text : str) :
  len (SyncYoutubeTranscriptsToNotion.transcript_blocks transcript_text) <= 100.
Proof.
  unfold SyncYoutubeTranscriptsToNotion.transcript_blocks.
  cbn [app]. cbn [List.length]. rewrite length_app, length_map, length_firstn.
  pose proof (Nat.le_min_l 97 (len (split_chunks transcript_text))) as M.
  destruct (97 <? len (split_chunks transcript_text)); cbn [List.length]; lia.
Qed.

(** The caption sync ends an overlong transcript with the marker. *)
Lemma youtube_overflow_marked (transcript_text : str) :
  97 < len (split_chunks transcript_text) ->
  last (SyncYoutubeTranscriptsToNotion.transcript_blocks transcript_text) Divider
  = paragraph (SyncYoutubeTranscriptsToNotion.truncation_marker
                 (len (split_chunks transcript_text) - 97)).
Proof.
  intros H. unfold SyncYoutubeTranscriptsToNotion.transcript_blocks.
  apply Nat.ltb_lt in H. rewrite H.
  rewrite !app_assoc. apply last_last.
Qed.

(** C6 (the defect): [add_transcript_to_page] of
    sync_transcripts_to_notion.py, given a transcript of 101 chunks,
    sends 101 blocks in one request, over the 100 blocks a request may
    hold; the last chunk is left out and no truncation marker stands
    in for it. *)
Theorem add_transcript_to_page_over_cap :
  len (split_chunks long_transcript) = 101
  /\ len (SyncTranscriptsToNotion.transcript_blocks long_transcript) = 101
  /\ SyncTranscriptsToNotion.transcript_blocks long_transcript
     = heading_block :: repeat (paragraph (word 1000)) 100.
Proof. vm_compute. repeat split. Qed.

End ChunkFacts.

(* ================================================================== *)
(** * The workspace-database scripts *)
(* ================================================================== *)

Module NotionFacts.
Import Py Notion Chunks Exn PyFacts Inputs Terms AsciiTables.

Lemma is_transcript_heading_spec (b : block) :
  SyncYoutubeTranscriptsToNotion.is_transcript_heading b = true
  <-> transcript_heading b.
Proof.
  unfold transcript_heading, occurs_in. split.
  - destruct b as [|rt|rt|ty]; try discriminate.
    destruct rt as [|[content|] rest]; simpl; try discriminate.
    intros H. apply contains_spec in H. exists content, rest. auto.
  - intros (content & rest & -> & H). simpl. apply contains_spec. exact H.
Qed.

(** An exchange that is not hit by a fault is answered by the
    service. *)
Lemma exchange_answered (w : world) (r : request) :
  hd NoFault (faults w) = NoFault ->
  snd (exchange w r) = snd (answer w r).
Proof.
  unfold exchange. destruct (faults w) as [|[| | |] fs]; simpl;
    try discriminate; intros _; destruct (answer w r); reflexivity.
Qed.

(** C10: when the request is answered, [check_page_has_transcript] is
    true exactly when one of the first 20 children of the page is a
    [heading_2] block with "Transcript" in the content of its first
    rich-text item; so a page with no such heading among its first 20
    children is reported as having no transcript, whatever follows. *)
Theorem check_page_has_transcript_first_20
  (w : world) (page : page_id) (kids : list block) :
  children_of (pages w) page = Some kids ->
  hd NoFault (faults w) = NoFault ->
  (snd (SyncYoutubeTranscriptsToNotion.check_page_has_transcript w page) = Ok true
   <-> exists b, In b (firstn 20 kids) /\ transcript_heading b)
  /\ (forall first more,
        kids = first ++ more -> len first = 20 ->
        (forall b, In b first -> ~ transcript_heading b) ->
        snd (SyncYoutubeTranscriptsToNotion.check_page_has_transcript w page)
        = Ok false).
Proof.
  intros Hkids Hfault.
  assert (E : snd (SyncYoutubeTranscriptsToNotion.check_page_has_transcript w page)
              = Ok (existsb SyncYoutubeTranscriptsToNotion.is_transcript_heading
                      (firstn 20 kids))).
  { unfold SyncYoutubeTranscriptsToNotion.check_page_has_transcript,
      SyncYoutubeTranscriptsToNotion.notion_request.
    pose proof (exchange_answered w (GetChildren page 20) Hfault) as A.
    destruct (exchange w (GetChildren page 20)) as [w' o]. simpl in A.
    unfold answer in A. rewrite Hkids in A. simpl in A. subst o. reflexivity. }
  assert (I : existsb SyncYoutubeTranscriptsToNotion.is_transcript_heading
                (firstn 20 kids) = true
              <-> exists b, In b (firstn 20 kids) /\ transcript_heading b).
  { rewrite existsb_exists. split; intros (b & Hb & H); exists b; split; auto;
      apply is_transcript_heading_spec; exact H. }
  split.
  - rewrite E. split.
    + intros H. apply I. injection H as H. exact H.
    + intros H. apply I in H. rewrite H. reflexivity.
  - intros first more -> Hlen Hnone. rewrite E. f_equal.
    apply not_true_is_false. intros X.
    apply I in X. destruct X as (b & Hb & H).
    rewrite firstn_app, Hlen, Nat.sub_diag, firstn_O, app_nil_r in Hb.
    rewrite <- Hlen, firstn_all in Hb. elim (Hnone b Hb H).
Qed.

(** The page of [deep_heading] carries the heading as its 21st child
    and is reported as having no transcript. *)
Lemma check_page_has_transcript_first_20_witness :
  snd (SyncYoutubeTranscriptsToNotion.check_page_has_transcript
         deep_heading (lit "page-7")) = Ok false.
Proof.
  destruct (@check_page_has_transcript_first_20 deep_heading (lit "page-7")
              (repeat (OtherBlock (lit "image")) 20
               ++ [heading_block; paragraph (lit "hello")])
              eq_refl eq_refl) as [_ H].
  apply (H (repeat (OtherBlock (lit "image")) 20)
           [heading_block; paragraph (lit "hello")]);
    [reflexivity | reflexivity |].
  intros b Hb (content & rest & E & _).
  apply repeat_spec in Hb. subst b. discriminate E.
Defined.

(** C1 (the defect): [main] of sync_transcripts_to_notion.py, run a
    second time on the same mapping and files, sends the transcript
    again: the page then holds the heading and the paragraphs twice,
    and each run made one write. *)
Theorem second_run_appends_again :
  let first := fst (SyncTranscriptsToNotion.main talk_files mapping_7 two_pages) in
  let second :=
    fst (SyncTranscriptsToNotion.main talk_files mapping_7
           (SyncTranscriptsToNotion.notion first)) in
  let sent := SyncTranscriptsToNotion.transcript_blocks short_talk in
  children_of (pages (SyncTranscriptsToNotion.notion first)) (lit "page-7")
    = Some sent
  /\ children_of (pages (SyncTranscriptsToNotion.notion second)) (lit "page-7")
    = Some (sent ++ sent)
  /\ writes (SyncTranscriptsToNotion.notion first)
    = [AppendChildren (lit "page-7") sent]
  /\ writes (SyncTranscriptsToNotion.notion second)
    = [AppendChildren (lit "page-7") sent; AppendChildren (lit "page-7") sent].
Proof. vm_compute. repeat split. Qed.

(** C8 (the defect): in sync_transcripts_to_notion.py a broken
    exchange on the first item (episode 8) ends [main] with the
    exception: nothing is counted, and the item that follows
    (episode 7) is never looked up, while the same run without the
    fault syncs both. *)
Theorem network_error_ends_run :
  SyncTranscriptsToNotion.main talk_files mapping_7_8 first_exchange_broken
  = ({| SyncTranscriptsToNotion.notion :=
          {| db := db two_pages; pages := pages two_pages; faults := [];
             requests := [QueryEpisode 8] |};
        SyncTranscriptsToNotion.synced := 0;
        SyncTranscriptsToNotion.failed := 0 |},
     Some NetworkError)
  /\ (let '(st, e) := SyncTranscriptsToNotion.main talk_files mapping_7_8 two_pages in
      e = None /\ SyncTranscriptsToNotion.synced st = 2
      /\ len (requests (SyncTranscriptsToNotion.notion st)) = 4).
Proof. vm_compute. repeat split. Qed.

(** The check of 100 characters where it stands: in both sync scripts
    a transcript shorter than 100 characters is not sent to the
    workspace database; the loop goes on to the next item without any
    exchange.  The caption sync records the episode under [skipped]
    and leaves [failed] and [synced] as they are; the mapping sync
    adds one to [failed]. *)
Lemma too_short_never_sent_to_notion (U : Unicode) :
  (forall i ep_num vtt vtt_content rest st,
      isdigit ep_num = true ->
      SyncYoutubeTranscriptsToNotion.content vtt = Some vtt_content ->
      len (SyncYoutubeTranscriptsToNotion.parse_vtt_to_text vtt_content) < 100 ->
      exists st',
        SyncYoutubeTranscriptsToNotion.process i ((ep_num, vtt) :: rest) st
        = SyncYoutubeTranscriptsToNotion.process (S i) rest st'
        /\ SyncYoutubeTranscriptsToNotion.notion st'
           = SyncYoutubeTranscriptsToNotion.notion st
        /\ SyncYoutubeTranscriptsToNotion.skipped
             (SyncYoutubeTranscriptsToNotion.data st')
           = SyncYoutubeTranscriptsToNotion.skipped
               (SyncYoutubeTranscriptsToNotion.data st) ++ [ep_num]
        /\ SyncYoutubeTranscriptsToNotion.failed
             (SyncYoutubeTranscriptsToNotion.data st')
           = SyncYoutubeTranscriptsToNotion.failed
               (SyncYoutubeTranscriptsToNotion.data st)
        /\ SyncYoutubeTranscriptsToNotion.synced
             (SyncYoutubeTranscriptsToNotion.data st')
           = SyncYoutubeTranscriptsToNotion.synced
               (SyncYoutubeTranscriptsToNotion.data st))
  /\ (forall fs ep_num m transcript rest st,
      SyncTranscriptsToNotion.load_transcript fs m = Some transcript ->
      len transcript < 100 ->
      exists st',
        SyncTranscriptsToNotion.process fs ((ep_num, m) :: rest) st
        = SyncTranscriptsToNotion.process fs rest st'
        /\ SyncTranscriptsToNotion.notion st' = SyncTranscriptsToNotion.notion st
        /\ SyncTranscriptsToNotion.failed st' = SyncTranscriptsToNotion.failed st + 1
        /\ SyncTranscriptsToNotion.synced st' = SyncTranscriptsToNotion.synced st).
Proof.
  split.
  - intros i ep_num vtt vtt_content rest st Hd Hc Hlen.
    exists (SyncYoutubeTranscriptsToNotion.append_skipped ep_num st).
    apply Nat.ltb_lt in Hlen.
    cbn [SyncYoutubeTranscriptsToNotion.process].
    rewrite Hd, Hc. cbn [negb]. rewrite Hlen. repeat split.
  - intros fs ep_num m transcript rest st Hload Hlen.
    exists (SyncTranscriptsToNotion.count_failed (SyncTranscriptsToNotion.notion st) st).
    apply Nat.ltb_lt in Hlen.
    cbn [SyncTranscriptsToNotion.process].
    rewrite Hload, Hlen. repeat split.
Qed.

(** The transcript of 40 characters, in the mapping sync. *)
Lemma too_short_never_sent_to_notion_witness :
  let st := {| SyncTranscriptsToNotion.notion := two_pages;
               SyncTranscriptsToNotion.synced := 0;
               SyncTranscriptsToNotion.failed := 0 |} in
  exists st',
    SyncTranscriptsToNotion.process tiny_files
      [(lit "7", entry "7" "Jane Smith" "jane")] st
    = SyncTranscriptsToNotion.process tiny_files [] st'
    /\ SyncTranscriptsToNotion.notion st' = two_pages
    /\ SyncTranscriptsToNotion.failed st' = 0 + 1
    /\ SyncTranscriptsToNotion.synced st' = 0.
Proof.
  intros st.
  destruct (too_short_never_sent_to_notion ascii_unicode) as [_ H].
  apply (H tiny_files (lit "7") (entry "7" "Jane Smith" "jane") tiny_talk [] st);
    [reflexivity | vm_compute; lia].
Defined.

(** A caption file for episode 7 with the track of two lines. *)
Definition tiny_vtt : SyncYoutubeTranscriptsToNotion.vtt_file :=
  {| SyncYoutubeTranscriptsToNotion.stem := lit "ep7_8AkPm4Zy3MU.en";
     SyncYoutubeTranscriptsToNotion.content := Some caption_track |}.

(** C7 (the defect): the check of 100 characters stands in front of
    the workspace database only, and the mapping sync has no record
    of its own for it.
    - In sync_transcripts_to_notion.py a transcript of 40 characters
      leaves the same record as a transcript file that is missing:
      one more in [failed], the one counter for every item that was
      not synced.  The caption sync, on a track of 50 characters,
      records the episode under [skipped] and leaves [failed] empty.
    - [convert_vtt_to_txt] of pull_youtube_captions.py writes the 50
      characters of that track to the [.txt] file.
    - [transcribe_episode] of assemblyai_transcribe.py writes a
      transcript of 62 characters to the [.md] file, and records the
      episode as completed. *)
Theorem too_short_published_and_miscounted :
  (len tiny_talk = 40
   /\ SyncTranscriptsToNotion.main tiny_files mapping_7 two_pages
      = SyncTranscriptsToNotion.main [] mapping_7 two_pages
   /\ SyncTranscriptsToNotion.failed
        (fst (SyncTranscriptsToNotion.main tiny_files mapping_7 two_pages)) = 1)
  /\ (let st := fst (@SyncYoutubeTranscriptsToNotion.main ascii_unicode
                       [tiny_vtt] two_pages None) in
      len (SyncYoutubeTranscriptsToNotion.parse_vtt_to_text caption_track) = 50
      /\ SyncYoutubeTranscriptsToNotion.skipped
           (SyncYoutubeTranscriptsToNotion.data st) = [lit "7"]
      /\ SyncYoutubeTranscriptsToNotion.failed
           (SyncYoutubeTranscriptsToNotion.data st) = [])
  /\ (exists text,
        @PullYoutubeCaptionsFiles.convert_vtt_to_txt ascii_unicode false
          (Some caption_track) = Some text
        /\ len text = 50)
  /\ (let '(ok, p, m) :=
        AssemblyaiTranscribe.transcribe_episode MoreInputs.quick_service
          (lit "1171") (lit "8AkPm4Zy3MU") no_progress fresh_machine in
      let formatted :=
        AssemblyaiTranscribe.format_transcript_with_speakers MoreInputs.interview in
      ok = Ok true
      /\ len formatted = 62
      /\ AssemblyaiTranscribe.files m
         = [(lit "ep1171_8AkPm4Zy3MU.md",
             AssemblyaiTranscribe.Markdown
               (lit "# Episode 1171 Transcript" ++ [NEWLINE; NEWLINE] ++ formatted));
            (lit "ep1171_8AkPm4Zy3MU.json",
             AssemblyaiTranscribe.RawJson MoreInputs.interview)]
      /\ AssemblyaiTranscribe.completed p = Some [lit "1171"]).
Proof.
  split; [vm_compute; repeat split|].
  split; [vm_compute; repeat split|].
  split; [eexists; split; vm_compute; reflexivity|].
  vm_compute. repeat split.
Qed.

End NotionFacts.

(* ================================================================== *)
(** * The matcher of download_transcripts.py *)
(* ================================================================== *)

Module MatcherFacts.
Import Py PyFacts DownloadTranscripts Inputs Terms AsciiTables.

Lemma Qlt_bool_true (x y : Q) : Qlt_bool x y = true <-> (x < y)%Q.
Proof.
  unfold Qlt_bool. rewrite negb_true_iff. split.
  - intros H. apply Qnot_le_lt. intros L. apply Qle_bool_iff in L. congruence.
  - intros H. destruct (Qle_bool y x) eqn:E; [|reflexivity].
    apply Qle_bool_iff in E. elim (Qlt_not_le _ _ H E).
Qed.

Lemma Qlt_bool_false (x y : Q) : Qlt_bool x y = false <-> (y <= x)%Q.
Proof.
  unfold Qlt_bool. rewrite negb_false_iff. apply Qle_bool_iff.
Qed.

Section Scan.

Context {U : Unicode}.
Variable ratio : str -> str -> Q.
Variable n : str.

(** The score of an episode against the normalized name [n]. *)
Let score (ep : episode) : Q := ratio n (lower (guest ep)).

Lemma contained_test (ep : episode) :
  contains (lower (guest ep)) n || contains n (lower (guest ep)) = true
  <-> contained n ep.
Proof.
  unfold contained, occurs_in. rewrite orb_true_iff, !contains_spec. tauto.
Qed.

(** One round of the loop on an episode without guest name. *)
Lemma scan_nameless ep rest bm bs :
  ~ named ep -> scan ratio n (ep :: rest) bm bs = scan ratio n rest bm bs.
Proof.
  unfold named. intros H. cbn [scan].
  destruct (lower (guest ep)); [reflexivity | elim H; discriminate].
Qed.

(** One round on an episode whose name contains [n] or lies in it. *)
Lemma scan_contained ep rest bm bs :
  named ep -> contained n ep -> scan ratio n (ep :: rest) bm bs = (Some ep, 1%Q).
Proof.
  unfold named. intros Hn Hc. apply contained_test in Hc. cbn [scan].
  destruct (lower (guest ep)) eqn:E; [elim Hn; reflexivity|].
  rewrite Hc. reflexivity.
Qed.

(** One round on any other episode with a guest name. *)
Lemma scan_scored ep rest bm bs :
  named ep -> ~ contained n ep ->
  scan ratio n (ep :: rest) bm bs =
  if Qlt_bool bs (score ep) && Qlt_bool (6 # 10) (score ep)
  then scan ratio n rest (Some ep) (score ep)
  else scan ratio n rest bm bs.
Proof.
  unfold named, score. intros Hn Hc.
  assert (T : contains (lower (guest ep)) n || contains n (lower (guest ep)) = false).
  { apply not_true_is_false. intros T. apply contained_test in T. auto. }
  cbn [scan]. destruct (lower (guest ep)) eqn:E; [elim Hn; reflexivity|].
  rewrite T. reflexivity.
Qed.

Lemma named_dec ep : named ep \/ ~ named ep.
Proof.
  unfold named. destruct (lower (guest ep)); [right | left]; congruence.
Qed.

(** The scan stops at the first episode that is contained. *)
Lemma scan_first_contained pre ep post bm bs :
  named ep -> contained n ep ->
  (forall e, In e pre -> named e -> ~ contained n e) ->
  scan ratio n (pre ++ ep :: post) bm bs = (Some ep, 1%Q).
Proof.
  intros Hn Hc. revert bm bs.
  induction pre as [|e pre IH]; intros bm bs Hpre.
  - apply scan_contained; assumption.
  - change ((e :: pre) ++ ep :: post) with (e :: (pre ++ ep :: post)).
    assert (Hpre' : forall e', In e' pre -> named e' -> ~ contained n e')
      by (intros; apply Hpre; [right|]; assumption).
    destruct (named_dec e) as [Ne | Ne].
    + rewrite scan_scored; [|assumption | apply Hpre; [left; reflexivity | assumption]].
      destruct (_ && _); apply IH; assumption.
    + rewrite scan_nameless by assumption. apply IH; assumption.
Qed.

(** Episodes that score no more than the best so far, or no more than
    0.6, leave the best as it is. *)
Lemma scan_keeps eps bm bs :
  (forall e, In e eps -> named e ->
     ~ contained n e /\ ((score e <= bs)%Q \/ (score e <= 6 # 10)%Q)) ->
  scan ratio n eps bm bs = (bm, bs).
Proof.
  induction eps as [|e eps IH]; intros H; [reflexivity|].
  assert (H' : forall e', In e' eps -> named e' ->
             ~ contained n e' /\ ((score e' <= bs)%Q \/ (score e' <= 6 # 10)%Q))
    by (intros; apply H; [right|]; assumption).
  destruct (named_dec e) as [Ne | Ne].
  - destruct (H e (or_introl eq_refl) Ne) as [Hc Hs].
    rewrite scan_scored by assumption.
    replace (Qlt_bool bs (score e) && Qlt_bool (6 # 10) (score e)) with false.
    + apply IH; assumption.
    + symmetry. apply andb_false_iff.
      destruct Hs; [left | right]; apply Qlt_bool_false; assumption.
  - rewrite scan_nameless by assumption. apply IH; assumption.
Qed.

(** The scan ends on the first episode of the highest score, when
    that score is above 0.6. *)
Lemma scan_best pre ep post bm bs :
  named ep -> (6 # 10 < score ep)%Q -> (bs < score ep)%Q ->
  (forall e, In e (pre ++ ep :: post) -> named e -> ~ contained n e) ->
  (forall e, In e pre -> named e -> (score e < score ep)%Q) ->
  (forall e, In e post -> named e -> (score e <= score ep)%Q) ->
  scan ratio n (pre ++ ep :: post) bm bs = (Some ep, score ep).
Proof.
  intros Hn H6. revert bm bs.
  induction pre as [|e pre IH]; intros bm bs Hbs Hnc Hpre Hpost.
  - cbn [app]. rewrite scan_scored;
      [|assumption | apply Hnc; [left; reflexivity | assumption]].
    replace (Qlt_bool bs (score ep) && Qlt_bool (6 # 10) (score ep)) with true.
    + apply scan_keeps. intros e He Ne. split.
      * apply Hnc; [right|]; assumption.
      * left. apply Hpost; assumption.
    + symmetry. apply andb_true_iff. split; apply Qlt_bool_true; assumption.
  - change ((e :: pre) ++ ep :: post) with (e :: (pre ++ ep :: post)).
    assert (Hnc' : forall e', In e' (pre ++ ep :: post) -> named e' -> ~ contained n e')
      by (intros; apply Hnc; [right|]; assumption).
    assert (Hpre' : forall e', In e' pre -> named e' -> (score e' < score ep)%Q)
      by (intros; apply Hpre; [right|]; assumption).
    destruct (named_dec e) as [Ne | Ne].
    + rewrite scan_scored;
        [|assumption | apply Hnc; [left; reflexivity | assumption]].
      destruct (_ && _).
      * apply IH; try assumption. apply Hpre; [left; reflexivity | assumption].
      * apply IH; assumption.
    + rewrite scan_nameless by assumption. apply IH; assumption.
Qed.

End Scan.

(** ** ASCII names are normalized the same under every table *)

Lemma isdecimal_ascii (U : Unicode) (c : char) :
  (c < 128)%N -> @isdecimal U c = @isdecimal ascii_unicode c.
Proof.
  intros H. unfold isdecimal. rewrite (decimal_ascii H).
  simpl. unfold ascii_digit. reflexivity.
Qed.

Lemma span_decimal_ascii (U : Unicode) (s : str) :
  is_ascii s -> @span_decimal U s = @span_decimal ascii_unicode s.
Proof.
  induction 1 as [|c s Hc Hs IH]; [reflexivity|].
  cbn [span_decimal]. rewrite (isdecimal_ascii U c Hc), IH. reflexivity.
Qed.

Lemma noise_length_ascii (U : Unicode) (s : str) :
  is_ascii s -> @noise_length U s = @noise_length ascii_unicode s.
Proof.
  intros H. unfold noise_length, counter_length.
  destruct s as [|c s]; [reflexivity|].
  inversion H; subst. rewrite (span_decimal_ascii U); [reflexivity | assumption].
Qed.

Lemma remove_noise_ascii (U : Unicode) (s : str) (skip : nat) :
  is_ascii s -> @remove_noise_from U skip s = @remove_noise_from ascii_unicode skip s.
Proof.
  intros H. revert skip. induction H as [|c s Hc Hs IH]; intros skip; [reflexivity|].
  cbn [remove_noise_from]. destruct skip; [|apply IH].
  rewrite (noise_length_ascii U) by (constructor; assumption).
  destruct (noise_length (c :: s)) as [[|k]|]; rewrite ?IH; reflexivity.
Qed.

Lemma lower_ascii_tables (U : Unicode) (s : str) :
  is_ascii s -> @lower U s = @lower ascii_unicode s /\ is_ascii (@lower U s).
Proof.
  intros H. rewrite (lower_ascii H). split; [reflexivity|].
  induction H as [|c s Hc Hs IH]; simpl; constructor; [|exact IH].
  destruct ((65 <=? c)%N && (c <=? 90)%N) eqn:E; [|exact Hc].
  apply andb_true_iff in E. destruct E as [_ E]. apply N.leb_le in E. lia.
Qed.

Lemma normalize_name_ascii (U : Unicode) (name : str) :
  is_ascii name -> @normalize_name U name = @normalize_name ascii_unicode name.
Proof.
  intros H. unfold normalize_name.
  destruct (lower_ascii_tables U name H) as [E A].
  rewrite (remove_noise_ascii U) by exact A. rewrite E. reflexivity.
Qed.

Lemma is_ascii_lit (s : string) :
  forallb (fun c => (c <? 128)%N) (lit s) = true -> is_ascii (lit s).
Proof.
  intros H. apply Forall_forall. intros c Hc.
  rewrite forallb_forall in H. apply N.ltb_lt. apply H. exact Hc.
Qed.

(** C5 (as stated, refuted): an episode whose guest name is empty is
    contained in every artifact name, and is not matched. *)
Lemma guest_without_name_not_matched :
  contained (normalize_name (lit "Jane Smith")) nameless
  /\ match_guest Difflib.ratio (lit "Jane Smith") [nameless] = (None, 0%Q).
Proof.
  split.
  - left. exists [], (normalize_name (lit "Jane Smith")). reflexivity.
  - reflexivity.
Qed.

(** C5 (amended): among the episodes that have a guest name,
    [match_guest] returns the first one whose lower-cased guest name
    contains the normalized artifact name or is contained in it, with
    score exactly 1.0; when there is none, it returns the first episode
    of the highest similarity ratio if that ratio is above 0.6, and no
    episode (score 0) when every ratio is at most 0.6.  Episodes
    without guest name are passed over.  "Jane Smith (Final)" matches
    the guest "Jane Smith" with score 1.0. *)
Theorem match_guest_spec (U : Unicode) (ratio : str -> str -> Q) :
  (forall srt_name pre ep post,
      named ep -> contained (normalize_name srt_name) ep ->
      (forall e, In e pre -> named e -> ~ contained (normalize_name srt_name) e) ->
      match_guest ratio srt_name (pre ++ ep :: post) = (Some ep, 1%Q))
  /\ (forall srt_name pre ep post,
      let score e := ratio (normalize_name srt_name) (lower (guest e)) in
      (forall e, In e (pre ++ ep :: post) -> named e ->
         ~ contained (normalize_name srt_name) e) ->
      named ep -> (6 # 10 < score ep)%Q ->
      (forall e, In e pre -> named e -> (score e < score ep)%Q) ->
      (forall e, In e post -> named e -> (score e <= score ep)%Q) ->
      match_guest ratio srt_name (pre ++ ep :: post) = (Some ep, score ep))
  /\ (forall srt_name episodes,
      (forall e, In e episodes -> named e ->
         ~ contained (normalize_name srt_name) e
         /\ (ratio (normalize_name srt_name) (lower (guest e)) <= 6 # 10)%Q) ->
      match_guest ratio srt_name episodes = (None, 0%Q))
  /\ (forall pre ep post,
      guest ep = lit "Jane Smith" ->
      (forall e, In e pre -> named e -> ~ contained (lit "jane smith (final)") e) ->
      match_guest ratio (lit "Jane Smith (Final)") (pre ++ ep :: post)
      = (Some ep, 1%Q)).
Proof.
  repeat split.
  - intros srt_name pre ep post Hn Hc Hpre. unfold match_guest.
    apply scan_first_contained; assumption.
  - intros srt_name pre ep post score Hnc Hn H6 Hpre Hpost. unfold match_guest.
    apply scan_best; try assumption.
    eapply Qlt_trans; [|exact H6]. reflexivity.
  - intros srt_name episodes H. unfold match_guest.
    apply scan_keeps. intros e He Ne. destruct (H e He Ne). split; [assumption|].
    right. assumption.
  - intros pre ep post Hg Hpre. unfold match_guest.
    assert (N : normalize_name (lit "Jane Smith (Final)") = lit "jane smith (final)").
    { rewrite normalize_name_ascii by (apply is_ascii_lit; reflexivity). reflexivity. }
    assert (L : lower (guest ep) = lit "jane smith").
    { rewrite Hg.
      rewrite (proj1 (lower_ascii_tables U (lit "Jane Smith")
                        (is_ascii_lit "Jane Smith" eq_refl))).
      reflexivity. }
    rewrite N. apply scan_first_contained.
    + unfold named. rewrite L. discriminate.
    + left. unfold occurs_in. rewrite L. exists [], (lit " (final)"). reflexivity.
    + exact Hpre.
Qed.

(** "Jane Smyth.srt" against a catalog of an entry without name, Bob
    Stone and Jane Smith: Jane Smith, at 18/20. *)
Lemma match_guest_spec_witness :
  match_guest Difflib.ratio (lit "Jane Smyth.srt") [nameless; bob; jane]
  = (Some jane, (18 # 20)%Q).
Proof.
  destruct (match_guest_spec ascii_unicode Difflib.ratio) as (_ & H & _).
  apply (H (lit "Jane Smyth.srt") [nameless; bob] jane []).
  - intros e He Ne [C | C]; apply contains_spec in C;
      destruct He as [<- | [<- | [<- | []]]]; vm_compute in C; try discriminate;
      apply Ne; reflexivity.
  - vm_compute. discriminate.
  - vm_compute. reflexivity.
  - intros e [<- | [<- | []]] Ne.
    + elim Ne. reflexivity.
    + vm_compute. reflexivity.
  - intros e [].
Defined.

End MatcherFacts.

(* ================================================================== *)
(** * The caption and subtitle normalizers *)
(* ================================================================== *)

Module NormalizerFacts.
Import Py PyFacts AsciiTables Terms.

(** ** Stripping *)

(** The first character, if any, is no white space. *)
Definition first_ok (l : str) : Prop :=
  forall c, hd_error l = Some c -> isspace c = false.

(** Neither end of [l] is white space. *)
Definition stripped (l : str) : Prop := first_ok l /\ first_ok (rev l).

Lemma lstrip_first_ok (s : str) : first_ok (lstrip s).
Proof.
  induction s as [|a s IH]; simpl.
  - intros c [=].
  - destruct (isspace a) eqn:E; [exact IH|]. intros c [= <-]. exact E.
Qed.

Lemma lstrip_id (s : str) : first_ok s -> lstrip s = s.
Proof.
  destruct s as [|a s]; simpl; [reflexivity|].
  intros H. rewrite (H a eq_refl). reflexivity.
Qed.

Lemma lstrip_suffix (s : str) : exists pre, s = pre ++ lstrip s.
Proof.
  induction s as [|a s [pre E]]; simpl.
  - exists []. reflexivity.
  - destruct (isspace a).
    + exists (a :: pre). simpl. f_equal. exact E.
    + exists []. reflexivity.
Qed.

Lemma rstrip_prefix (s : str) : exists post, s = rstrip s ++ post.
Proof.
  unfold rstrip. destruct (lstrip_suffix (rev s)) as [pre E].
  exists (rev pre). rewrite <- rev_app_distr, <- E, rev_involutive. reflexivity.
Qed.

Lemma first_ok_prefix (a b : str) : first_ok (a ++ b) -> first_ok a.
Proof.
  destruct a as [|x a]; intros H c [=]. subst. apply H. reflexivity.
Qed.

Lemma first_ok_app (a b : str) : a <> [] -> first_ok a -> first_ok (a ++ b).
Proof.
  destruct a as [|x a]; [congruence|]. intros _ H c [= <-]. apply H. reflexivity.
Qed.

Lemma strip_stripped (s : str) : stripped (strip s).
Proof.
  unfold stripped, strip. split.
  - destruct (rstrip_prefix (lstrip s)) as [post E].
    apply first_ok_prefix with post. rewrite <- E. apply lstrip_first_ok.
  - unfold rstrip. rewrite rev_involutive. apply lstrip_first_ok.
Qed.

Lemma strip_id (s : str) : stripped s -> strip s = s.
Proof.
  intros [H1 H2]. unfold strip, rstrip.
  rewrite (lstrip_id s H1), (lstrip_id (rev s) H2). apply rev_involutive.
Qed.

Lemma strip_incl (s : str) (c : char) : In c (strip s) -> In c s.
Proof.
  unfold strip. intros H.
  destruct (rstrip_prefix (lstrip s)) as [post E].
  destruct (lstrip_suffix s) as [pre E'].
  rewrite E', E. apply in_or_app. right. apply in_or_app. left. exact H.
Qed.

(** ** Splitting into lines *)

Lemma split_on_no_sep (sep : char) (s : str) :
  ~ In sep s -> split_on sep s = [s].
Proof.
  induction s as [|c s IH]; intros H; simpl; [reflexivity|].
  destruct (N.eqb_spec c sep) as [->|_].
  - elim H. left. reflexivity.
  - rewrite IH; [reflexivity|]. intros I. apply H. right. exact I.
Qed.

Lemma split_on_lines (sep : char) (s : str) :
  Forall (fun l => ~ In sep l) (split_on sep s).
Proof.
  induction s as [|c s IH]; simpl.
  - constructor; [intros [] | constructor].
  - destruct (N.eqb_spec c sep) as [->|Hc].
    + constructor; [intros [] | exact IH].
    + destruct (split_on sep s) as [|l ls].
      * constructor; [|constructor]. intros [E | []]. congruence.
      * inversion IH; subst. constructor; [|assumption].
        intros [E | I]; [congruence | auto].
Qed.

Lemma split_on_keeps (c : char) (s : str) :
  ~ In c s -> Forall (fun l => ~ In c l) (split_on NEWLINE s).
Proof.
  induction s as [|x s IH]; intros H; simpl.
  - constructor; [intros [] | constructor].
  - assert (H' : ~ In c s) by (intros I; apply H; right; exact I).
    specialize (IH H'). destruct (x =? NEWLINE)%N.
    + constructor; [intros [] | exact IH].
    + destruct (split_on NEWLINE s) as [|l ls].
      * constructor; [|constructor]. intros [E | []]. apply H. left. exact E.
      * inversion IH; subst. constructor; [|assumption].
        intros [E | I]; [apply H; left; exact E | auto].
Qed.

(** ** Joining lines with a space *)

(** A payload line: not empty, stripped, on one line. *)
Definition line_ok (l : str) : Prop :=
  l <> [] /\ stripped l /\ ~ In NEWLINE l.

Lemma join_cons2 (sep l l2 : str) (rest : list str) :
  join sep (l :: l2 :: rest) = l ++ sep ++ join sep (l2 :: rest).
Proof. reflexivity. Qed.

Lemma join_line_ok (l : str) (rest : list str) :
  Forall line_ok (l :: rest) -> line_ok (join [SPACE] (l :: rest)).
Proof.
  revert l. induction rest as [|l2 rest IH]; intros l H.
  - inversion H; subst. assumption.
  - inversion H as [|? ? (Hn & (Hf & Hl) & Hnl) H2]; subst.
    destruct (IH l2 H2) as (Jn & (Jf & Jl) & Jnl).
    rewrite join_cons2. repeat split.
    + destruct l; [congruence | discriminate].
    + apply first_ok_app; assumption.
    + rewrite !rev_app_distr, <- app_assoc. apply first_ok_app; [|assumption].
      intros E. apply Jn. rewrite <- (rev_involutive (join _ _)), E. reflexivity.
    + intros I. apply in_app_or in I. destruct I as [I | I]; [auto|].
      apply in_app_or in I. destruct I as [[E | []] | I]; [discriminate | auto].
Qed.

(** ** Tests that a joined text passes with its lines *)

Lemma startswith_app_sep (a b n : str) (c : char) :
  ~ In c n -> startswith (a ++ c :: b) n = true -> startswith a n = true.
Proof.
  revert a. induction n as [|x n IH]; intros a Hc H.
  - apply startswith_nil.
  - destruct a as [|y a]; simpl in *.
    + apply andb_true_iff in H. destruct H as [H _]. apply N.eqb_eq in H.
      elim Hc. left. congruence.
    + apply andb_true_iff in H. destruct H as [H1 H2]. rewrite H1. simpl.
      apply IH; [|exact H2]. intros I. apply Hc. right. exact I.
Qed.

Lemma contains_app_sep (a b n : str) (c : char) :
  ~ In c n -> n <> [] ->
  contains n a = false -> contains n b = false ->
  contains n (a ++ c :: b) = false.
Proof.
  intros Hc Hn Ha Hb. induction a as [|y a IH].
  - cbn [app contains]. rewrite Hb, orb_false_r.
    apply not_true_is_false. intros S.
    destruct n as [|x n]; [congruence|]. simpl in S.
    apply andb_true_iff in S. destruct S as [S _]. apply N.eqb_eq in S.
    apply Hc. left. congruence.
  - cbn [contains] in Ha. apply orb_false_iff in Ha. destruct Ha as [Ha1 Ha2].
    change ((y :: a) ++ c :: b) with (y :: (a ++ c :: b)). cbn [contains].
    rewrite (IH Ha2), orb_false_r.
    apply not_true_is_false. intros S.
    apply (startswith_app_sep (y :: a) b n c Hc) in S. congruence.
Qed.

Lemma contains_join (n l : str) (rest : list str) :
  ~ In SPACE n -> n <> [] ->
  Forall (fun l => contains n l = false) (l :: rest) ->
  contains n (join [SPACE] (l :: rest)) = false.
Proof.
  intros Hc Hn. revert l. induction rest as [|l2 rest IH]; intros l H.
  - inversion H; subst. assumption.
  - inversion H; subst. rewrite join_cons2.
    apply contains_app_sep; auto.
Qed.

Lemma startswith_join (p l : str) (rest : list str) :
  ~ In SPACE p -> startswith l p = false ->
  startswith (join [SPACE] (l :: rest)) p = false.
Proof.
  intros Hc H. destruct rest as [|l2 rest]; [exact H|].
  rewrite join_cons2. apply not_true_is_false. intros S.
  apply startswith_app_sep in S; [congruence | exact Hc].
Qed.

Section Tables.

Context {U : Unicode}.

Lemma space_not_decimal : isdecimal SPACE = false.
Proof.
  unfold isdecimal. rewrite decimal_ascii by reflexivity. reflexivity.
Qed.

Lemma colon_not_decimal : isdecimal 58%N = false.
Proof.
  unfold isdecimal. rewrite decimal_ascii by reflexivity. reflexivity.
Qed.

Lemma space_not_digit : isdigit_char SPACE = false.
Proof. rewrite isdigit_ascii by reflexivity. reflexivity. Qed.

Lemma span_decimal_digits (s : str) :
  Forall (fun c => isdecimal c = true)
         (firstn (DownloadTranscripts.span_decimal s) s).
Proof.
  induction s as [|c s IH]; simpl; [constructor|].
  destruct (isdecimal c) eqn:E; simpl; constructor; assumption.
Qed.

(** A sequence-number line is made of decimal digits, and a final
    newline at most. *)
Lemma is_sequence_number_chars (s : str) :
  DownloadTranscripts.is_sequence_number s = true ->
  Forall (fun c => isdecimal c = true \/ c = NEWLINE) s.
Proof.
  unfold DownloadTranscripts.is_sequence_number. intros H.
  rewrite <- (firstn_skipn (DownloadTranscripts.span_decimal s) s).
  apply Forall_app. split.
  - eapply Forall_impl; [|apply span_decimal_digits]. simpl. auto.
  - destruct (DownloadTranscripts.span_decimal s); [discriminate|].
    destruct (skipn (S n) s) as [|c [|d t]].
    + constructor.
    + destruct (N.eqb_spec c 10) as [->|Hc].
      * constructor; [right; reflexivity | constructor].
      * exfalso. destruct c as [|p]; [discriminate|].
        repeat (destruct p as [p|p|]; try discriminate); congruence.
    + exfalso. destruct c as [|p]; [discriminate|].
      repeat (destruct p as [p|p|]; try discriminate).
Qed.

Lemma is_sequence_number_join (l : str) (rest : list str) :
  DownloadTranscripts.is_sequence_number l = false ->
  DownloadTranscripts.is_sequence_number (join [SPACE] (l :: rest)) = false.
Proof.
  intros H. destruct rest as [|l2 rest]; [exact H|].
  rewrite join_cons2. apply not_true_is_false. intros S.
  apply is_sequence_number_chars in S. rewrite Forall_forall in S.
  destruct (S SPACE) as [D | D].
  - apply in_or_app. right. left. reflexivity.
  - rewrite space_not_decimal in D. discriminate.
  - discriminate.
Qed.

(** A time-stamp line is decided by its first eight characters, all
    decimal digits or colons. *)
Lemma is_timestamp_chars (s : str) :
  DownloadTranscripts.is_timestamp s = true ->
  exists p rest, s = p ++ rest /\ len p = 8
    /\ Forall (fun c => isdecimal c = true \/ c = 58%N) p.
Proof.
  intros H.
  do 8 (destruct s as [|? s]; [discriminate|]).
  cbn [DownloadTranscripts.is_timestamp] in H.
  repeat (apply andb_true_iff in H; destruct H as [H ?]).
  repeat match goal with E : (_ =? _)%N = true |- _ => apply N.eqb_eq in E end.
  eexists [_; _; _; _; _; _; _; _], s. split; [reflexivity|]. split; [reflexivity|].
  repeat (apply Forall_cons; [first [left; assumption | right; assumption]|]).
  apply Forall_nil.
Qed.

Lemma is_timestamp_prefix (p rest rest' : str) :
  len p = 8 ->
  DownloadTranscripts.is_timestamp (p ++ rest)
  = DownloadTranscripts.is_timestamp (p ++ rest').
Proof.
  intros H. do 8 (destruct p as [|? p]; [discriminate|]).
  destruct p; [reflexivity | discriminate].
Qed.

Lemma is_timestamp_join (l : str) (rest : list str) :
  DownloadTranscripts.is_timestamp l = false ->
  DownloadTranscripts.is_timestamp (join [SPACE] (l :: rest)) = false.
Proof.
  intros H. destruct rest as [|l2 rest]; [exact H|].
  rewrite join_cons2. cbn [app]. apply not_true_is_false. intros S.
  destruct (Nat.le_gt_cases 8 (len l)) as [L | L].
  - rewrite <- (firstn_skipn 8 l), <- app_assoc in S.
    rewrite (is_timestamp_prefix (firstn 8 l) _ (skipn 8 l)) in S
      by (rewrite length_firstn; lia).
    rewrite firstn_skipn in S. congruence.
  - apply is_timestamp_chars in S. destruct S as (p & tail & E & Hp & Hall).
    assert (P : p = firstn 8 (l ++ SPACE :: join [SPACE] (l2 :: rest))).
    { rewrite E, firstn_app, Hp, Nat.sub_diag, firstn_O, app_nil_r.
      rewrite <- Hp, firstn_all. reflexivity. }
    rewrite firstn_app in P.
    destruct (8 - len l) as [|k] eqn:K; [lia|]. cbn [firstn] in P.
    rewrite Forall_forall in Hall. destruct (Hall SPACE) as [D | D].
    + rewrite P. apply in_or_app. right. left. reflexivity.
    + rewrite space_not_decimal in D. discriminate.
    + discriminate.
Qed.

Lemma isdigit_join (l : str) (rest : list str) :
  isdigit l = false -> isdigit (join [SPACE] (l :: rest)) = false.
Proof.
  intros H. destruct rest as [|l2 rest]; [exact H|].
  rewrite join_cons2. unfold isdigit.
  destruct (l ++ [SPACE] ++ join [SPACE] (l2 :: rest)) eqn:E; [reflexivity|].
  rewrite <- E. rewrite forallb_app. cbn [app forallb].
  rewrite space_not_digit. cbn [andb]. apply andb_false_r.
Qed.

(** ** [srt_to_text] *)

(** What [srt_to_text] keeps of a line. *)
Definition srt_payload (l : str) : Prop :=
  line_ok l
  /\ DownloadTranscripts.is_sequence_number l = false
  /\ DownloadTranscripts.is_timestamp l = false
  /\ contains DownloadTranscripts.ARROW l = false.

Lemma strip_line_ok (line : str) :
  ~ In NEWLINE line -> strip line <> [] -> line_ok (strip line).
Proof.
  intros Hn He. repeat split; try apply strip_stripped; [exact He|].
  intros I. apply Hn. apply strip_incl. exact I.
Qed.

Lemma srt_text_lines_payload (lines : list str) :
  Forall (fun l => ~ In NEWLINE l) lines ->
  Forall srt_payload (DownloadTranscripts.text_lines lines).
Proof.
  induction 1 as [|line lines Hl Hls IH]; cbn [DownloadTranscripts.text_lines];
    [constructor|].
  destruct (DownloadTranscripts.is_sequence_number (strip line)) eqn:E1; [exact IH|].
  destruct (DownloadTranscripts.is_timestamp (strip line)) eqn:E2; [exact IH|].
  destruct (contains DownloadTranscripts.ARROW (strip line)) eqn:E3; [exact IH|].
  destruct (strip line) as [|c t] eqn:E4; [exact IH|].
  constructor; [|exact IH]. rewrite <- E4 in *.
  repeat split; try assumption; try apply strip_stripped.
  - rewrite E4. discriminate.
  - intros I. apply Hl. apply strip_incl. exact I.
Qed.

Lemma srt_join_payload (l : str) (rest : list str) :
  Forall srt_payload (l :: rest) -> srt_payload (join [SPACE] (l :: rest)).
Proof.
  intros H. assert (H0 := H). inversion H0 as [|? ? (_ & S1 & S2 & S3) _]; subst.
  repeat split.
  - apply join_line_ok. eapply Forall_impl; [|exact H]. intros ? [? _]; assumption.
  - apply join_line_ok. eapply Forall_impl; [|exact H]. intros ? [? _]; assumption.
  - apply join_line_ok. eapply Forall_impl; [|exact H]. intros ? [? _]; assumption.
  - apply join_line_ok. eapply Forall_impl; [|exact H]. intros ? [? _]; assumption.
  - apply is_sequence_number_join. exact S1.
  - apply is_timestamp_join. exact S2.
  - apply contains_join.
    + intros [E | [E | [E | []]]]; discriminate.
    + discriminate.
    + eapply Forall_impl; [|exact H]. intros ? (_ & _ & _ & ?); assumption.
Qed.

(** A payload on one line is what [srt_to_text] makes of it. *)
Lemma srt_to_text_payload (o : str) :
  srt_payload o -> DownloadTranscripts.srt_to_text o = o.
Proof.
  intros ((Hn & Hs & Hnl) & S1 & S2 & S3).
  unfold DownloadTranscripts.srt_to_text.
  rewrite (split_on_no_sep NEWLINE o Hnl). cbn [DownloadTranscripts.text_lines].
  rewrite (strip_id o Hs), S1, S2, S3.
  destruct o; [congruence | reflexivity].
Qed.

Lemma srt_to_text_idempotent (s : str) :
  DownloadTranscripts.srt_to_text (DownloadTranscripts.srt_to_text s)
  = DownloadTranscripts.srt_to_text s.
Proof.
  unfold DownloadTranscripts.srt_to_text at 2 3.
  pose proof (srt_text_lines_payload (split_on NEWLINE s) (split_on_lines NEWLINE s)) as P.
  destruct (DownloadTranscripts.text_lines (split_on NEWLINE s)) as [|l rest].
  - reflexivity.
  - apply srt_to_text_payload. apply srt_join_payload. exact P.
Qed.

(** ** [parse_vtt_to_text] *)

Import SyncYoutubeTranscriptsToNotion.

Lemma remove_tags_no_lt (s : str) : ~ In LT s -> remove_tags s = s.
Proof.
  unfold remove_tags. induction s as [|c s IH]; intros H; [reflexivity|].
  cbn [remove_tags_from tag_length].
  destruct (N.eqb_spec c LT) as [->|_].
  - elim H. left. reflexivity.
  - rewrite IH; [reflexivity|]. intros I. apply H. right. exact I.
Qed.

(** What [parse_vtt_to_text] keeps of a line without markup. *)
Definition vtt_payload (l : str) : Prop :=
  line_ok l /\ ~ In LT l
  /\ is_header_or_timing l = false
  /\ isdigit l = false.

Lemma vtt_text_lines_payload (lines : list str) :
  Forall (fun l => ~ In NEWLINE l /\ ~ In LT l) lines ->
  Forall vtt_payload (text_lines lines).
Proof.
  induction 1 as [|line lines [Hl Ht] Hls IH]; cbn [text_lines]; [constructor|].
  destruct (is_header_or_timing (strip line)) eqn:E1; [exact IH|].
  destruct (isdigit (strip line)) eqn:E2; [exact IH|].
  assert (T : ~ In LT (strip line)) by (intros I; apply Ht, strip_incl, I).
  rewrite (remove_tags_no_lt _ T).
  destruct (strip line) as [|c t] eqn:E4; [exact IH|].
  constructor; [|exact IH]. rewrite <- E4 in *.
  repeat split; try assumption; try apply strip_stripped.
  - rewrite E4. discriminate.
  - intros I. apply Hl. apply strip_incl. exact I.
Qed.

Lemma dedupe_keeps (P : str -> Prop) (prev : option str) (lines : list str) :
  Forall P lines -> Forall P (dedupe prev lines).
Proof.
  intros H. revert prev. induction H as [|l lines Hl Hls IH]; intros prev;
    cbn [dedupe]; [constructor|].
  destruct (match prev with Some p => eqb l p | None => false end);
    [apply IH | constructor; [exact Hl | apply IH]].
Qed.

Lemma header_or_timing_false (l : str) :
  is_header_or_timing l = false <->
  l <> [] /\ contains ARROW l = false
  /\ startswith l (lit "WEBVTT") = false
  /\ startswith l (lit "Kind:") = false
  /\ startswith l (lit "Language:") = false.
Proof.
  unfold is_header_or_timing. rewrite !orb_false_iff.
  destruct l; intuition congruence.
Qed.

Lemma vtt_join_payload (l : str) (rest : list str) :
  Forall vtt_payload (l :: rest) -> vtt_payload (join [SPACE] (l :: rest)).
Proof.
  intros H. assert (H0 := H). inversion H0 as [|? ? (L1 & L2 & L3 & L4) _]; subst.
  assert (J : line_ok (join [SPACE] (l :: rest))).
  { apply join_line_ok. eapply Forall_impl; [|exact H]. intros ? [? _]; assumption. }
  apply header_or_timing_false in L3. destruct L3 as (_ & A & W & K & G).
  split; [exact J|]. split; [|split].
  - clear - H. revert l H. induction rest as [|l2 rest IH]; intros l H.
    + inversion H as [|? ? (_ & ? & _) _]; subst. assumption.
    + inversion H as [|? ? (_ & ? & _) H2]; subst. rewrite join_cons2.
      intros I. apply in_app_or in I. destruct I as [I | I]; [auto|].
      apply in_app_or in I. destruct I as [[E | []] | I]; [discriminate|].
      exact (IH l2 H2 I).
  - apply header_or_timing_false. split; [apply J|]. split; [|split; [|split]].
    + apply contains_join.
      * intros [E | [E | [E | []]]]; discriminate.
      * discriminate.
      * eapply Forall_impl; [|exact H]. intros ? (_ & _ & X & _).
        apply header_or_timing_false in X. apply X.
    + apply startswith_join; [|exact W].
      cbv. intros I. repeat (destruct I as [I | I]; [discriminate|]). exact I.
    + apply startswith_join; [|exact K].
      cbv. intros I. repeat (destruct I as [I | I]; [discriminate|]). exact I.
    + apply startswith_join; [|exact G].
      cbv. intros I. repeat (destruct I as [I | I]; [discriminate|]). exact I.
  - apply isdigit_join. exact L4.
Qed.

(** A payload on one line is what [parse_vtt_to_text] makes of it. *)
Lemma parse_vtt_to_text_payload (o : str) :
  vtt_payload o -> parse_vtt_to_text o = o.
Proof.
  intros ((Hn & Hs & Hnl) & T & H & D).
  unfold parse_vtt_to_text.
  rewrite (split_on_no_sep NEWLINE o Hnl). cbn [text_lines].
  rewrite (strip_id o Hs), H, D, (remove_tags_no_lt o T).
  destruct o; [congruence | reflexivity].
Qed.

Lemma parse_vtt_to_text_idempotent (s : str) :
  ~ In LT s ->
  parse_vtt_to_text (parse_vtt_to_text s) = parse_vtt_to_text s.
Proof.
  intros T. unfold parse_vtt_to_text at 2 3.
  assert (L : Forall (fun l => ~ In NEWLINE l /\ ~ In LT l) (split_on NEWLINE s)).
  { pose proof (split_on_lines NEWLINE s) as A.
    pose proof (split_on_keeps LT s T) as B.
    rewrite Forall_forall in *. intros l Hl. split; [apply A | apply B]; exact Hl. }
  pose proof (dedupe_keeps vtt_payload None _ (vtt_text_lines_payload _ L)) as P.
  destruct (dedupe None (text_lines (split_on NEWLINE s))) as [|l rest].
  - reflexivity.
  - apply parse_vtt_to_text_payload. apply vtt_join_payload. exact P.
Qed.

End Tables.

(** C9 (as stated, refuted): [parse_vtt_to_text] turns ["<b> hi"] into
    [" hi"], and [" hi"] into ["hi"]. *)
Lemma parse_vtt_to_text_not_idempotent :
  SyncYoutubeTranscriptsToNotion.parse_vtt_to_text (lit "<b> hi") = lit " hi"
  /\ SyncYoutubeTranscriptsToNotion.parse_vtt_to_text (lit " hi") = lit "hi"
  /\ SyncYoutubeTranscriptsToNotion.parse_vtt_to_text
       (SyncYoutubeTranscriptsToNotion.parse_vtt_to_text (lit "<b> hi"))
     <> SyncYoutubeTranscriptsToNotion.parse_vtt_to_text (lit "<b> hi").
Proof. repeat split. vm_compute. discriminate. Qed.

(** C9 (amended): [srt_to_text] is idempotent on every input;
    [parse_vtt_to_text] is idempotent on every input that has no
    ["<"], that is, where it finds no markup to remove. *)
Theorem normalizers_idempotent (U : Unicode) :
  (forall srt_content,
      DownloadTranscripts.srt_to_text (DownloadTranscripts.srt_to_text srt_content)
      = DownloadTranscripts.srt_to_text srt_content)
  /\ (forall vtt_content,
      ~ In SyncYoutubeTranscriptsToNotion.LT vtt_content ->
      SyncYoutubeTranscriptsToNotion.parse_vtt_to_text
        (SyncYoutubeTranscriptsToNotion.parse_vtt_to_text vtt_content)
      = SyncYoutubeTranscriptsToNotion.parse_vtt_to_text vtt_content).
Proof.
  split.
  - apply srt_to_text_idempotent.
  - apply parse_vtt_to_text_idempotent.
Qed.

(** A caption track with a cue repeated. *)
Lemma normalizers_idempotent_witness :
  SyncYoutubeTranscriptsToNotion.parse_vtt_to_text
    (SyncYoutubeTranscriptsToNotion.parse_vtt_to_text Inputs.caption_track)
  = SyncYoutubeTranscriptsToNotion.parse_vtt_to_text Inputs.caption_track.
Proof.
  apply (proj2 (normalizers_idempotent ascii_unicode)).
  vm_compute. intros I.
  repeat (destruct I as [I | I]; [discriminate|]). exact I.
Defined.

End NormalizerFacts.

(* ================================================================== *)
(** * The transcription script: submission, polling, time-outs *)
(* ================================================================== *)

Module TranscribeFacts.
Import Py PyFacts Exn AssemblyaiTranscribe Inputs.

Lemma lookup_assign (k v : str) (d : list (str * str)) :
  lookup k (assign k v d) = Some v.
Proof.
  induction d as [|[k' v'] d IH]; simpl.
  - rewrite eqb_refl. reflexivity.
  - destruct (eqb k' k) eqn:E; simpl; rewrite E; [reflexivity | exact IH].
Qed.

Lemma lookup_pop (k : str) (d : list (str * str)) : lookup k (pop k d) = None.
Proof.
  induction d as [|[k' v'] d IH]; simpl; [reflexivity|].
  destruct (eqb k' k) eqn:E; simpl; [exact IH | rewrite E; exact IH].
Qed.

Lemma pop_assign (k v : str) (d : list (str * str)) :
  pop k (assign k v d) = pop k d.
Proof.
  induction d as [|[k' v'] d IH]; simpl.
  - rewrite eqb_refl. reflexivity.
  - destruct (eqb k' k) eqn:E; simpl; rewrite E; [reflexivity | rewrite IH; reflexivity].
Qed.

(** ** The polling loop *)

(** [m'] is [m] after some polls of [transcript_id]: the disk is the
    same. *)
Definition polled (transcript_id : str) (m m' : machine) : Prop :=
  exists polls,
    trace m' = trace m ++ polls
    /\ Forall (fun e => e = Poll transcript_id) polls
    /\ files m' = files m
    /\ progress_file m' = progress_file m.

Lemma polled_refl id m : polled id m m.
Proof.
  exists []. rewrite app_nil_r. repeat split. constructor.
Qed.

Lemma poll_loop_polled fuel svc id start m :
  polled id m (snd (poll_loop fuel svc id start m)).
Proof.
  revert m. induction fuel as [|fuel IH]; intros m; cbn [poll_loop].
  - destruct (clock m - start <? max_wait); apply polled_refl.
  - destruct (clock m - start <? max_wait); [|apply polled_refl].
    assert (One : forall took, polled id m (tick took (log (Poll id) m))).
    { intros took. exists [Poll id]. repeat split. repeat constructor. }
    destruct (poll svc id (clock m)) as [[[r | e | s] | e] took]; cbn [snd];
      [apply One | apply One | | apply One].
    destruct (IH (tick 10 (tick took (log (Poll id) m)))) as (polls & T & A & F & P).
    exists (Poll id :: polls). cbn [trace tick log files progress_file app] in *.
    rewrite T, <- app_assoc. repeat split; try assumption.
    constructor; [reflexivity | assumption].
Qed.

(** Fuel beyond what the ceiling allows changes nothing: the loop
    never stops for lack of it. *)
Lemma poll_loop_fuel n fuel svc id start m :
  start <= clock m ->
  max_wait <= (clock m - start) + 10 * fuel ->
  poll_loop (fuel + n) svc id start m = poll_loop fuel svc id start m.
Proof.
  revert m. induction fuel as [|fuel IH]; intros m L H.
  - assert (E : (clock m - start <? max_wait) = false) by (apply Nat.ltb_ge; lia).
    destruct n; cbn [poll_loop Nat.add]; rewrite E; reflexivity.
  - cbn [poll_loop Nat.add].
    destruct (clock m - start <? max_wait); [|reflexivity].
    destruct (poll svc id (clock m)) as [[[r | e | s] | e] took]; try reflexivity.
    apply IH; cbn [clock tick log]; lia.
Qed.

(** With time left, the loop polls at once. *)
Lemma poll_loop_first fuel svc id start m :
  clock m - start < max_wait ->
  exists later,
    trace (snd (poll_loop (S fuel) svc id start m)) = trace m ++ Poll id :: later
    /\ Forall (fun e => e = Poll id) later
    /\ files (snd (poll_loop (S fuel) svc id start m)) = files m
    /\ progress_file (snd (poll_loop (S fuel) svc id start m)) = progress_file m.
Proof.
  intros H. apply Nat.ltb_lt in H. cbn [poll_loop]. rewrite H.
  assert (One : forall took,
             exists later,
               trace (tick took (log (Poll id) m)) = trace m ++ Poll id :: later
               /\ Forall (fun e => e = Poll id) later
               /\ files (tick took (log (Poll id) m)) = files m
               /\ progress_file (tick took (log (Poll id) m)) = progress_file m).
  { intros took. exists []. repeat split. constructor. }
  destruct (poll svc id (clock m)) as [[[r | e | s] | e] took]; cbn [snd];
    [apply One | apply One | | apply One].
  destruct (poll_loop_polled fuel svc id start
              (tick 10 (tick took (log (Poll id) m)))) as (polls & T & A & F & P).
  exists polls. rewrite T, F, P. cbn [trace tick log files progress_file].
  rewrite <- app_assoc. repeat split. exact A.
Qed.

Lemma max_wait_positive : max_wait = S (Nat.pred max_wait).
Proof. reflexivity. Qed.

(** The first poll is made at once. *)
Lemma poll_transcription_first svc id m :
  exists later,
    trace (snd (poll_transcription svc id m)) = trace m ++ Poll id :: later
    /\ Forall (fun e => e = Poll id) later
    /\ files (snd (poll_transcription svc id m)) = files m
    /\ progress_file (snd (poll_transcription svc id m)) = progress_file m.
Proof.
  unfold poll_transcription. rewrite max_wait_positive.
  apply poll_loop_first. rewrite Nat.sub_diag.
  unfold max_wait. lia.
Qed.

(** A job that never leaves the waiting states runs into the ceiling. *)
Lemma poll_loop_times_out fuel svc id start m :
  (forall t, exists s took, poll svc id t = (Ok (Waiting s), took)) ->
  start <= clock m ->
  max_wait <= (clock m - start) + 10 * fuel ->
  fst (poll_loop fuel svc id start m) = Raise timed_out.
Proof.
  intros W. revert m. induction fuel as [|fuel IH]; intros m L H; cbn [poll_loop].
  - destruct (clock m - start <? max_wait); reflexivity.
  - destruct (clock m - start <? max_wait); [|reflexivity].
    destruct (W (clock m)) as (s & took & E). rewrite E.
    apply IH; cbn [clock tick log]; lia.
Qed.

Lemma poll_transcription_times_out svc id m :
  (forall t, exists s took, poll svc id t = (Ok (Waiting s), took)) ->
  fst (poll_transcription svc id m) = Raise timed_out.
Proof.
  intros W. apply poll_loop_times_out; [exact W | lia |].
  unfold max_wait. lia.
Qed.

(** ** From the wait to the end of the [try] block *)

Lemma wait_and_store_trace svc ep yt id p m :
  exists later,
    trace (snd (wait_and_store svc ep yt id p m)) = trace m ++ Poll id :: later
    /\ Forall (fun e => is_submit e = false) later.
Proof.
  unfold wait_and_store.
  destruct (poll_transcription_first svc id m) as (later & T & A & _ & _).
  assert (N : Forall (fun e => is_submit e = false) later).
  { eapply Forall_impl; [|exact A]. intros e ->. reflexivity. }
  destruct (poll_transcription svc id m) as [[r | e] m1]; cbn [snd] in *;
    [|exists later; split; assumption].
  destruct (completed p) as [done|]; cbn [pending];
    [destruct (pending p) as [waiting|]|];
    eexists; cbn [snd trace save_progress write_file];
    rewrite T, <- !app_assoc; cbn [app];
    (split; [reflexivity|]); apply Forall_app; (split; [exact N|]);
    repeat constructor.
Qed.

Lemma transcribe_episode_trace svc ep yt p m id p1 m1 :
  exists_file m (output_name ep yt (lit ".md")) = false ->
  mem ep (or_empty (completed p)) = false ->
  job_to_wait_for svc ep yt p m = (Ok id, p1, m1) ->
  exists later,
    trace (snd (transcribe_episode svc ep yt p m)) = trace m1 ++ Poll id :: later
    /\ Forall (fun e => is_submit e = false) later.
Proof.
  intros F D J. unfold transcribe_episode, try_transcribe. rewrite F, D, J.
  destruct (wait_and_store_trace svc ep yt id p1 m1) as (later & T & N).
  destruct (wait_and_store svc ep yt id p1 m1) as [[[[] | e] p2] m2];
    cbn [snd] in *.
  - exists later. split; assumption.
  - cbn [pending]. destruct (pending p2) as [waiting|]; cbn [snd].
    + eexists. cbn [trace save_progress]. rewrite T, <- app_assoc. cbn [app].
      split; [reflexivity|]. apply Forall_app. split; [exact N|].
      repeat constructor.
    + exists later. split; assumption.
Qed.

(** C2: when [transcribe_episode] submits a job and gets its id, the
    next thing it does is to save the progress with that id under
    [pending]: the progress file of the machine it goes on with holds
    the id, and the first poll comes after that, with nothing else
    submitted.  All through the polling, however many rounds it takes,
    the disk stays as that save left it: no transcript file for the
    episode, and the progress file with the record.  A process that
    is started on a disk in that state (any disk without the
    transcript file whose progress file has the id under [pending]
    and the episode not under [completed]), at any time and whatever
    the service does then, begins by polling the recorded id and
    submits nothing; and so does every call of [transcribe_episode]
    for the episode on a progress with that record, as the batch mode
    makes it. *)
Theorem submission_recorded_then_resumed
  (svc : service) (episode_num youtube_id : str) (p : progress) (m : machine)
  (url transcript_id : str) :
  exists_file m (output_name episode_num youtube_id (lit ".md")) = false ->
  mem episode_num (or_empty (completed p)) = false ->
  lookup episode_num (or_empty (pending p)) = None ->
  audio_url svc youtube_id = Ok url ->
  submit svc url = Ok transcript_id ->
  exists p1 m3,
    job_to_wait_for svc episode_num youtube_id p m = (Ok transcript_id, p1, m3)
    /\ trace m3 = trace m ++ [GetAudioURL youtube_id; Submit url; Save p1]
    /\ progress_file m3 = Some p1
    /\ lookup episode_num (or_empty (pending p1)) = Some transcript_id
    /\ mem episode_num (or_empty (completed p1)) = false
    /\ (exists later,
          trace (snd (transcribe_episode svc episode_num youtube_id p m))
          = trace m3 ++ Poll transcript_id :: later
          /\ Forall (fun e => is_submit e = false) later)
    /\ (forall rounds,
          let at_kill := snd (poll_loop rounds svc transcript_id (clock m3) m3) in
          exists_file at_kill (output_name episode_num youtube_id (lit ".md")) = false
          /\ progress_file at_kill = Some p1)
    /\ (forall svc' p' m',
          exists_file m' (output_name episode_num youtube_id (lit ".md")) = false ->
          mem episode_num (or_empty (completed p')) = false ->
          lookup episode_num (or_empty (pending p')) = Some transcript_id ->
          exists later',
            trace (snd (transcribe_episode svc' episode_num youtube_id p' m'))
            = trace m' ++ Poll transcript_id :: later'
            /\ Forall (fun e => is_submit e = false) later')
    /\ (forall left now svc' p',
          exists_file left (output_name episode_num youtube_id (lit ".md")) = false ->
          progress_file left = Some p' ->
          mem episode_num (or_empty (completed p')) = false ->
          lookup episode_num (or_empty (pending p')) = Some transcript_id ->
          exists later',
            trace (snd (main_episode svc' episode_num youtube_id (restart left now)))
            = Poll transcript_id :: later'
            /\ Forall (fun e => is_submit e = false) later').
Proof.
  intros Hfile Hdone Hpend Haudio Hsubmit.
  destruct (job_to_wait_for svc episode_num youtube_id p m) as [[r p1] m3] eqn:J.
  pose proof J as J'. unfold job_to_wait_for in J'. rewrite Hpend in J'.
  unfold get_youtube_audio_url, submit_transcription in J'.
  rewrite Haudio, Hsubmit in J'. injection J' as <- <- <-.
  set (p1 := {| completed := completed p; failed := failed p;
                pending := Some (assign episode_num transcript_id
                                   (or_empty (pending p))) |}) in *.
  set (m3 := save_progress p1 (log (Submit url) (log (GetAudioURL youtube_id) m))) in *.
  assert (L : lookup episode_num (or_empty (pending p1)) = Some transcript_id)
    by apply lookup_assign.
  exists p1, m3.
  split; [reflexivity|]. split.
  { unfold m3. cbn [trace save_progress log]. rewrite <- !app_assoc. reflexivity. }
  split; [reflexivity|]. split; [exact L|]. split; [exact Hdone|]. split.
  { exact (transcribe_episode_trace svc episode_num youtube_id p m transcript_id
             p1 m3 Hfile Hdone J). }
  split.
  { intros rounds at_kill.
    destruct (poll_loop_polled rounds svc transcript_id (clock m3) m3)
      as (polls & _ & _ & F & P).
    split; [|exact P].
    unfold exists_file, at_kill. rewrite F. exact Hfile. }
  split.
  { intros svc' p' m' Kf Kd Kl.
    apply (transcribe_episode_trace svc' episode_num youtube_id p' m'
             transcript_id p' m' Kf Kd).
    unfold job_to_wait_for. rewrite Kl. reflexivity. }
  intros left now svc' p' Kf Kp Kd Kl.
  assert (X : exists_file (restart left now)
                (output_name episode_num youtube_id (lit ".md")) = false)
    by exact Kf.
  assert (P : load_progress (restart left now) = p').
  { unfold load_progress. cbn [progress_file restart]. rewrite Kp. reflexivity. }
  assert (J1 : job_to_wait_for svc' episode_num youtube_id p' (restart left now)
               = (Ok transcript_id, p', restart left now)).
  { unfold job_to_wait_for. rewrite Kl. reflexivity. }
  unfold main_episode. rewrite P.
  exact (transcribe_episode_trace svc' episode_num youtube_id p' (restart left now)
           transcript_id p' (restart left now) X Kd J1).
Qed.

(** Episode 1171 on a fresh machine, with a service that keeps the
    job waiting. *)
Lemma submission_recorded_then_resumed_witness :
  exists p1 m3,
    job_to_wait_for slow_service (lit "1171") (lit "8AkPm4Zy3MU")
      no_progress fresh_machine = (Ok (lit "job-1"), p1, m3)
    /\ trace m3
       = trace fresh_machine
         ++ [GetAudioURL (lit "8AkPm4Zy3MU"); Submit (lit "https://audio/1"); Save p1]
    /\ progress_file m3 = Some p1
    /\ lookup (lit "1171") (or_empty (pending p1)) = Some (lit "job-1")
    /\ mem (lit "1171") (or_empty (completed p1)) = false
    /\ (exists later,
          trace (snd (transcribe_episode slow_service (lit "1171")
                        (lit "8AkPm4Zy3MU") no_progress fresh_machine))
          = trace m3 ++ Poll (lit "job-1") :: later
          /\ Forall (fun e => is_submit e = false) later)
    /\ (forall rounds,
          let at_kill :=
            snd (poll_loop rounds slow_service (lit "job-1") (clock m3) m3) in
          exists_file at_kill (output_name (lit "1171") (lit "8AkPm4Zy3MU") (lit ".md"))
          = false
          /\ progress_file at_kill = Some p1)
    /\ (forall svc' p' m',
          exists_file m' (output_name (lit "1171") (lit "8AkPm4Zy3MU") (lit ".md"))
          = false ->
          mem (lit "1171") (or_empty (completed p')) = false ->
          lookup (lit "1171") (or_empty (pending p')) = Some (lit "job-1") ->
          exists later',
            trace (snd (transcribe_episode svc' (lit "1171") (lit "8AkPm4Zy3MU") p' m'))
            = trace m' ++ Poll (lit "job-1") :: later'
            /\ Forall (fun e => is_submit e = false) later')
    /\ (forall left now svc' p',
          exists_file left (output_name (lit "1171") (lit "8AkPm4Zy3MU") (lit ".md"))
          = false ->
          progress_file left = Some p' ->
          mem (lit "1171") (or_empty (completed p')) = false ->
          lookup (lit "1171") (or_empty (pending p')) = Some (lit "job-1") ->
          exists later',
            trace (snd (main_episode svc' (lit "1171") (lit "8AkPm4Zy3MU")
                          (restart left now)))
            = Poll (lit "job-1") :: later'
            /\ Forall (fun e => is_submit e = false) later').
Proof.
  apply (submission_recorded_then_resumed slow_service (lit "1171")
           (lit "8AkPm4Zy3MU") no_progress fresh_machine
           (lit "https://audio/1") (lit "job-1"));
    reflexivity.
Defined.

(** The run of episode 1171 that is killed after 7 rounds of polling,
    and the process started on what it left at time 5000 with a
    service that has the job done: it polls job-1 once, writes the
    two files and saves, and asks for no audio and no new job. *)
Lemma killed_run_resumed :
  let '(_, _, m3) :=
    job_to_wait_for slow_service (lit "1171") (lit "8AkPm4Zy3MU")
      no_progress fresh_machine in
  let left := snd (poll_loop 7 slow_service (lit "job-1") (clock m3) m3) in
  let '(ok, p, m) :=
    main_episode MoreInputs.quick_service (lit "1171") (lit "8AkPm4Zy3MU")
      (restart left 5000) in
  len (filter is_poll (trace left)) = 7
  /\ ok = Ok true
  /\ map (fun e => match e with
                   | Poll id => id
                   | Submit _ => lit "submit"
                   | GetAudioURL _ => lit "audio"
                   | WriteFile name _ => name
                   | Save _ => lit "save"
                   end) (trace m)
     = [lit "job-1"; lit "ep1171_8AkPm4Zy3MU.md"; lit "ep1171_8AkPm4Zy3MU.json";
        lit "save"]
  /\ completed p = Some [lit "1171"] /\ pending p = Some []
  /\ progress_file m = Some p.
Proof. vm_compute. repeat split. Qed.

End TranscribeFacts.

(* ================================================================== *)
(** * Time-outs in the two source scripts *)
(* ================================================================== *)

Module TimeoutFacts.
Import Py PyFacts Exn Inputs AsciiTables.

(** C4 (as stated, refuted): episode 1171 waits for job-1, every poll
    finds the job still processing, and after 60 polls the ceiling of
    600 seconds is reached.  The episode is then recorded under
    [failed], its entry under [pending] is gone, job id and all, and
    this is what is saved. *)
Lemma timed_out_job_is_forgotten :
  let '(ok, p, m) :=
    AssemblyaiTranscribe.transcribe_episode slow_service (lit "1171")
      (lit "8AkPm4Zy3MU") waiting_progress fresh_machine in
  ok = Ok false
  /\ AssemblyaiTranscribe.failed p
     = Some [(lit "1171", lit "Transcription timed out after 600s")]
  /\ AssemblyaiTranscribe.pending p = Some []
  /\ AssemblyaiTranscribe.progress_file m = Some p
  /\ len (filter AssemblyaiTranscribe.is_poll (AssemblyaiTranscribe.trace m)) = 60.
Proof. vm_compute. repeat split. Qed.

(** C4 (amended): a time-out is recorded as a failure.  When the
    polling of a job runs into the ceiling, [transcribe_episode]
    returns [False], appends the episode to [failed] with the text
    "Transcription timed out after 600s", removes its entry from
    [pending] and saves the progress: this holds for a job found under
    [pending] and for a job just submitted.  In the caption script a
    subprocess that is killed after 60 seconds gives the status
    "timeout", and the video is appended to [failed]. *)
Theorem timeout_recorded_as_failed (U : Unicode) :
  (forall svc episode_num youtube_id p m transcript_id m1,
      AssemblyaiTranscribe.exists_file m
        (AssemblyaiTranscribe.output_name episode_num youtube_id (lit ".md")) = false ->
      AssemblyaiTranscribe.mem episode_num
        (AssemblyaiTranscribe.or_empty (AssemblyaiTranscribe.completed p)) = false ->
      AssemblyaiTranscribe.lookup episode_num
        (AssemblyaiTranscribe.or_empty (AssemblyaiTranscribe.pending p))
      = Some transcript_id ->
      AssemblyaiTranscribe.poll_transcription svc transcript_id m
      = (Raise AssemblyaiTranscribe.timed_out, m1) ->
      let p' :=
        {| AssemblyaiTranscribe.completed := AssemblyaiTranscribe.completed p;
           AssemblyaiTranscribe.failed :=
             Some (AssemblyaiTranscribe.or_empty (AssemblyaiTranscribe.failed p)
                   ++ [(episode_num, AssemblyaiTranscribe.timed_out)]);
           AssemblyaiTranscribe.pending :=
             Some (AssemblyaiTranscribe.pop episode_num
                     (AssemblyaiTranscribe.or_empty (AssemblyaiTranscribe.pending p))) |} in
      AssemblyaiTranscribe.transcribe_episode svc episode_num youtube_id p m
      = (Ok false, p', AssemblyaiTranscribe.save_progress p' m1)
      /\ AssemblyaiTranscribe.lookup episode_num
           (AssemblyaiTranscribe.or_empty (AssemblyaiTranscribe.pending p')) = None)
  /\ (forall svc episode_num youtube_id p m url transcript_id m1,
      AssemblyaiTranscribe.exists_file m
        (AssemblyaiTranscribe.output_name episode_num youtube_id (lit ".md")) = false ->
      AssemblyaiTranscribe.mem episode_num
        (AssemblyaiTranscribe.or_empty (AssemblyaiTranscribe.completed p)) = false ->
      AssemblyaiTranscribe.lookup episode_num
        (AssemblyaiTranscribe.or_empty (AssemblyaiTranscribe.pending p)) = None ->
      AssemblyaiTranscribe.audio_url svc youtube_id = Ok url ->
      AssemblyaiTranscribe.submit svc url = Ok transcript_id ->
      AssemblyaiTranscribe.poll_transcription svc transcript_id
        (AssemblyaiTranscribe.save_progress
           {| AssemblyaiTranscribe.completed := AssemblyaiTranscribe.completed p;
              AssemblyaiTranscribe.failed := AssemblyaiTranscribe.failed p;
              AssemblyaiTranscribe.pending :=
                Some (AssemblyaiTranscribe.assign episode_num transcript_id
                        (AssemblyaiTranscribe.or_empty
                           (AssemblyaiTranscribe.pending p))) |}
           (AssemblyaiTranscribe.log (AssemblyaiTranscribe.Submit url)
              (AssemblyaiTranscribe.log
                 (AssemblyaiTranscribe.GetAudioURL youtube_id) m)))
      = (Raise AssemblyaiTranscribe.timed_out, m1) ->
      let p' :=
        {| AssemblyaiTranscribe.completed := AssemblyaiTranscribe.completed p;
           AssemblyaiTranscribe.failed :=
             Some (AssemblyaiTranscribe.or_empty (AssemblyaiTranscribe.failed p)
                   ++ [(episode_num, AssemblyaiTranscribe.timed_out)]);
           AssemblyaiTranscribe.pending :=
             Some (AssemblyaiTranscribe.pop episode_num
                     (AssemblyaiTranscribe.or_empty (AssemblyaiTranscribe.pending p))) |} in
      AssemblyaiTranscribe.transcribe_episode svc episode_num youtube_id p m
      = (Ok false, p', AssemblyaiTranscribe.save_progress p' m1)
      /\ AssemblyaiTranscribe.lookup episode_num
           (AssemblyaiTranscribe.or_empty (AssemblyaiTranscribe.pending p')) = None)
  /\ (forall yt_dlp i ep_num yt_id rest p m,
      PullYoutubeCaptions.mem
        ((lit "ep" ++ ep_num ++ lit "_" ++ yt_id) ++ lit ".en.vtt")
        (PullYoutubeCaptions.files m) = false ->
      yt_dlp yt_id = PullYoutubeCaptions.TimeoutExpired ->
      let p' :=
        {| PullYoutubeCaptions.completed := PullYoutubeCaptions.completed p;
           PullYoutubeCaptions.failed := PullYoutubeCaptions.failed p ++ [yt_id];
           PullYoutubeCaptions.no_captions := PullYoutubeCaptions.no_captions p |} in
      PullYoutubeCaptions.download_captions yt_dlp yt_id ep_num m
      = (PullYoutubeCaptions.Timeout, m)
      /\ PullYoutubeCaptions.process yt_dlp i ((ep_num, yt_id) :: rest) p m
         = PullYoutubeCaptions.process yt_dlp (S i) rest p'
             (if (i + 1) mod 10 =? 0 then PullYoutubeCaptions.save_progress p' m
              else m)).
Proof.
  split; [|split].
  - intros svc episode_num youtube_id p m transcript_id m1 Hf Hd Hp Ht p'.
    split; [|apply TranscribeFacts.lookup_pop].
    unfold AssemblyaiTranscribe.transcribe_episode. rewrite Hf, Hd.
    unfold AssemblyaiTranscribe.try_transcribe,
      AssemblyaiTranscribe.job_to_wait_for. rewrite Hp.
    unfold AssemblyaiTranscribe.wait_and_store. rewrite Ht.
    cbn [AssemblyaiTranscribe.pending]. subst p'.
    destruct (AssemblyaiTranscribe.pending p) as [waiting|]; [reflexivity|].
    discriminate Hp.
  - intros svc episode_num youtube_id p m url transcript_id m1 Hf Hd Hp Ha Hs Ht p'.
    split; [|apply TranscribeFacts.lookup_pop].
    unfold AssemblyaiTranscribe.transcribe_episode. rewrite Hf, Hd.
    unfold AssemblyaiTranscribe.try_transcribe,
      AssemblyaiTranscribe.job_to_wait_for. rewrite Hp.
    unfold AssemblyaiTranscribe.get_youtube_audio_url,
      AssemblyaiTranscribe.submit_transcription. rewrite Ha, Hs.
    unfold AssemblyaiTranscribe.wait_and_store. rewrite Ht.
    cbn [AssemblyaiTranscribe.completed AssemblyaiTranscribe.failed
         AssemblyaiTranscribe.pending].
    rewrite TranscribeFacts.pop_assign. reflexivity.
  - intros yt_dlp i ep_num yt_id rest p m Hm Ht p'.
    assert (D : PullYoutubeCaptions.download_captions yt_dlp yt_id ep_num m
                = (PullYoutubeCaptions.Timeout, m)).
    { unfold PullYoutubeCaptions.download_captions. rewrite Hm, Ht. reflexivity. }
    split; [exact D|].
    cbn [PullYoutubeCaptions.process]. rewrite D. reflexivity.
Qed.

(** The job of episode 1171 that never leaves "processing". *)
Lemma timeout_recorded_as_failed_witness :
  let p' :=
    {| AssemblyaiTranscribe.completed := Some [];
       AssemblyaiTranscribe.failed :=
         Some [(lit "1171", AssemblyaiTranscribe.timed_out)];
       AssemblyaiTranscribe.pending := Some [] |} in
  AssemblyaiTranscribe.transcribe_episode slow_service (lit "1171")
    (lit "8AkPm4Zy3MU") waiting_progress fresh_machine
  = (Ok false, p',
     AssemblyaiTranscribe.save_progress p'
       (snd (AssemblyaiTranscribe.poll_transcription slow_service (lit "job-1")
               fresh_machine)))
  /\ AssemblyaiTranscribe.lookup (lit "1171")
       (AssemblyaiTranscribe.or_empty (AssemblyaiTranscribe.pending p')) = None.
Proof.
  apply (proj1 (timeout_recorded_as_failed ascii_unicode) slow_service
           (lit "1171") (lit "8AkPm4Zy3MU") waiting_progress fresh_machine
           (lit "job-1"));
    [reflexivity | reflexivity | reflexivity | vm_compute; reflexivity].
Defined.

End TimeoutFacts.

(* ================================================================== *)
(** * Saving the progress *)
(* ================================================================== *)

Module SaveFacts.
Import Py PyFacts Files Inputs.

Lemma read_remove_same (d : disk) (path : str) : read (remove d path) path = None.
Proof.
  induction d as [|[q text] d IH]; simpl; [reflexivity|].
  destruct (eqb q path) eqn:E; [exact IH|]. simpl. rewrite E. exact IH.
Qed.

Lemma read_remove_other (d : disk) (path q : str) :
  q <> path -> read (remove d path) q = read d q.
Proof.
  intros N. induction d as [|[r text] d IH]; simpl; [reflexivity|].
  destruct (eqb r path) eqn:E.
  - apply eqb_eq in E. subst r.
    destruct (eqb path q) eqn:E2; [apply eqb_eq in E2; congruence | exact IH].
  - simpl. destruct (eqb r q); [reflexivity | exact IH].
Qed.

Lemma read_store_same (d : disk) (path text : str) :
  read (store d path text) path = Some text.
Proof. unfold store. simpl. rewrite eqb_refl. reflexivity. Qed.

Lemma read_store_other (d : disk) (path text q : str) :
  q <> path -> read (store d path text) q = read d q.
Proof.
  intros N. unfold store. simpl.
  destruct (eqb path q) eqn:E; [apply eqb_eq in E; congruence|].
  apply read_remove_other. exact N.
Qed.

(** Writing a text over a file in place: what the file reads before,
    between and after the two steps, and what else is touched. *)
Lemma rewrite_in_place (d : disk) (file text : str) :
  let steps := [Truncate file; Write file text] in
  map (fun d' => read d' file) (states d steps)
  = [read d file; Some []; Some text]
  /\ read (run d steps) file = Some text
  /\ (forall q, q <> file -> read (run d steps) q = read d q).
Proof.
  cbn [states run fold_left map step]. rewrite !read_store_same. cbn [app].
  repeat split. intros q N. rewrite !read_store_other by exact N. reflexivity.
Qed.

(** C3 (as stated, refuted): while the caption script saves its
    progress after a second video, over the file saved after the
    first, the file is empty at one point: it holds neither the old
    progress nor the new one.  No step of the save is a rename. *)
Lemma save_progress_leaves_empty_file :
  let file := PullYoutubeCaptions.PROGRESS_FILE in
  let before := run [] (PullYoutubeCaptions.save_progress_steps one_video) in
  let steps := PullYoutubeCaptions.save_progress_steps two_videos in
  exists d,
    In d (states before steps)
    /\ read d file = Some []
    /\ read before file <> Some []
    /\ read (run before steps) file <> Some []
    /\ existsb is_rename steps = false.
Proof.
  intros file before steps. exists (step before (Truncate file)).
  split; [right; left; reflexivity|].
  split; [reflexivity|].
  split; [vm_compute; discriminate|].
  split; [vm_compute; discriminate | reflexivity].
Qed.

(** C3 (amended): every save writes the full current state, and once
    the save has completed the progress file holds its JSON text.  The
    file is rewritten in place: it is truncated, then written; no
    other file is touched and nothing is renamed, so that between the
    two steps the file is empty. *)
Theorem save_progress_in_place :
  (forall d p,
      let file := AssemblyaiTranscribe.PROGRESS_FILE in
      let steps := AssemblyaiTranscribe.save_progress_steps p in
      let text := Json.dumps (AssemblyaiTranscribe.json_of_progress p) in
      read (run d steps) file = Some text
      /\ map (fun d' => read d' file) (states d steps)
         = [read d file; Some []; Some text]
      /\ Forall (fun o => target o = file /\ is_rename o = false) steps
      /\ (forall q, q <> file -> read (run d steps) q = read d q))
  /\ (forall d p,
      let file := PullYoutubeCaptions.PROGRESS_FILE in
      let steps := PullYoutubeCaptions.save_progress_steps p in
      let text := Json.dumps (PullYoutubeCaptions.json_of_progress p) in
      read (run d steps) file = Some text
      /\ map (fun d' => read d' file) (states d steps)
         = [read d file; Some []; Some text]
      /\ Forall (fun o => target o = file /\ is_rename o = false) steps
      /\ (forall q, q <> file -> read (run d steps) q = read d q)).
Proof.
  split; intros d p file steps text.
  - destruct (rewrite_in_place d file text) as (S & R & O).
    repeat split; try assumption. repeat constructor.
  - destruct (rewrite_in_place d file text) as (S & R & O).
    repeat split; try assumption. repeat constructor.
Qed.

End SaveFacts.

(* ================================================================== *)
(** * A second run of the caption sync *)
(* ================================================================== *)

Module RerunFacts.
Import Py PyFacts Notion Exn SyncYoutubeTranscriptsToNotion.

(** Every episode number the progress record holds. *)
Definition recorded (d : synced_data) : list str :=
  synced d ++ failed d ++ skipped d.

Lemma mem_In (x : str) (l : list str) : mem x l = true <-> In x l.
Proof.
  unfold mem. rewrite existsb_exists. split.
  - intros (y & Hy & E). apply eqb_eq in E. subst. exact Hy.
  - intros H. exists x. split; [exact H | apply eqb_refl].
Qed.

(** [st1] holds what [st] holds, and [ep] as well. *)
Definition adds (ep : str) (st st1 : run) : Prop :=
  In ep (recorded (data st1))
  /\ forall x, In x (recorded (data st)) -> In x (recorded (data st1)).

Lemma adds_synced ep w st : adds ep st (append_synced ep (with_notion w st)).
Proof.
  unfold adds, recorded. cbn. split.
  - rewrite !in_app_iff. left. right. left. reflexivity.
  - intros x. rewrite !in_app_iff. tauto.
Qed.

Lemma adds_failed ep w st : adds ep st (append_failed ep (with_notion w st)).
Proof.
  unfold adds, recorded. cbn. split.
  - rewrite !in_app_iff. right. left. right. left. reflexivity.
  - intros x. rewrite !in_app_iff. tauto.
Qed.

Lemma adds_skipped ep w st : adds ep st (append_skipped ep (with_notion w st)).
Proof.
  unfold adds, recorded. cbn. split.
  - rewrite !in_app_iff. right. right. right. left. reflexivity.
  - intros x. rewrite !in_app_iff. tauto.
Qed.

Lemma adds_saved ep st st1 : adds ep st st1 -> adds ep st (save_synced st1).
Proof. intros H. exact H. Qed.

Lemma with_notion_same st : with_notion (notion st) st = st.
Proof. destruct st. reflexivity. Qed.

Section Run.

Context {U : Unicode}.

(** A run of the loop that comes to its end keeps what was recorded
    and records every item whose episode number is made of digits. *)
Lemma process_records items :
  forall i st st',
    process i items st = (st', None) ->
    (forall x, In x (recorded (data st)) -> In x (recorded (data st')))
    /\ (forall ep vtt, In (ep, vtt) items -> isdigit ep = true ->
          In ep (recorded (data st'))).
Proof.
  induction items as [|[ep_num vtt] rest IH]; intros i st st' H.
  - cbn [process] in H. injection H as <-. split; [auto | intros ? ? []].
  - cbn [process] in H.
    assert (Step : forall st1, adds ep_num st st1 ->
              process (S i) rest st1 = (st', None) ->
              (forall x, In x (recorded (data st)) -> In x (recorded (data st')))
              /\ (forall ep v, In (ep, v) ((ep_num, vtt) :: rest) ->
                    isdigit ep = true -> In ep (recorded (data st')))).
    { intros st1 [A1 A2] P. destruct (IH _ _ _ P) as [M R]. split.
      - intros x Hx. apply M, A2, Hx.
      - intros ep v [E | I] D.
        + injection E as <- <-. apply M, A1.
        + exact (R ep v I D). }
    destruct (isdigit ep_num) eqn:D; cbn [negb] in H.
    2:{ destruct (IH _ _ _ H) as [M R]. split; [exact M|].
        intros ep v [E | I] D'.
        - injection E as <- <-. congruence.
        - exact (R ep v I D'). }
    destruct (content vtt) as [vtt_content|].
    2:{ apply (Step _ (eq_ind _ (fun s => adds ep_num st (append_failed ep_num s))
                         (adds_failed ep_num (notion st) st) _ (with_notion_same st)) H). }
    destruct (len (parse_vtt_to_text vtt_content) <? 100).
    { apply (Step _ (eq_ind _ (fun s => adds ep_num st (append_skipped ep_num s))
                       (adds_skipped ep_num (notion st) st) _ (with_notion_same st)) H). }
    destruct (find_episode_page (notion st) ep_num) as [w1 [[[|c page]|]|e]].
    + apply (Step _ (adds_failed ep_num w1 st) H).
    + destruct (check_page_has_transcript w1 (c :: page)) as [w2 [[|]|e]].
      * apply (Step _ (adds_skipped ep_num w2 st) H).
      * destruct (add_transcript_to_page w2 (c :: page)
                    (parse_vtt_to_text vtt_content)) as [w3 [ok|e]];
          [|discriminate H].
        refine (Step _ _ H).
        destruct ((i + 1) mod 5 =? 0); destruct ok;
          try apply adds_saved; first [apply adds_synced | apply adds_failed].
      * discriminate H.
    + apply (Step _ (adds_failed ep_num w1 st) H).
    + discriminate H.
Qed.

(** Items whose episode number is not made of digits are passed
    over. *)
Lemma process_passes_over items :
  forall i st,
    (forall ep vtt, In (ep, vtt) items -> isdigit ep = false) ->
    process i items st = (st, None).
Proof.
  induction items as [|[ep_num vtt] rest IH]; intros i st H; cbn [process].
  - reflexivity.
  - rewrite (H ep_num vtt (or_introl eq_refl)). cbn [negb].
    apply IH. intros ep v I. apply (H ep v). right. exact I.
Qed.

Lemma to_process_In synced_set vtt_files ep vtt :
  In (ep, vtt) (to_process synced_set vtt_files) <->
  In vtt vtt_files /\ ep = ep_num_of (stem vtt)
  /\ startswith (stem vtt) (lit "ep") = true
  /\ mem ep synced_set = false.
Proof.
  induction vtt_files as [|v rest IH]; cbn [to_process].
  - split; [intros [] | intros [[] _]].
  - destruct (startswith (stem v) (lit "ep")
              && negb (mem (ep_num_of (stem v)) synced_set)) eqn:T.
    + apply andb_true_iff in T. destruct T as [T1 T2].
      apply negb_true_iff in T2. cbn [In]. rewrite IH. split.
      * intros [E | (I & E & S & M)].
        -- injection E as E1 E2. subst ep vtt.
           split; [left; reflexivity|]. split; [reflexivity|]. split; assumption.
        -- split; [right; exact I|]. split; [exact E|]. split; assumption.
      * intros ([E0 | I] & E & S & M).
        -- left. subst ep v. reflexivity.
        -- right. split; [exact I|]. split; [exact E|]. split; assumption.
    + rewrite IH. split.
      * intros (I & E & S & M).
        split; [right; exact I|]. split; [exact E|]. split; assumption.
      * intros ([E0 | I] & E & S & M).
        -- subst ep v. rewrite S, M in T. discriminate T.
        -- split; [exact I|]. split; [exact E|]. split; assumption.
Qed.

(** A second run of [main] on the same files, after a first run that
    came to its end, leaves everything as the first run left it: no
    request is sent and the progress file is written with what it
    held. *)
Lemma main_second_run_quiet vtt_files w file st :
  main vtt_files w file = (st, None) ->
  main vtt_files (notion st) (synced_file st) = (st, None).
Proof.
  unfold main. intros H.
  set (d0 := load_synced file) in *.
  destruct (process 0 (to_process (synced d0 ++ failed d0 ++ skipped d0) vtt_files)
              {| notion := w; data := d0; synced_file := file |})
    as [st' [e|]] eqn:P; [discriminate H|].
  injection H as <-.
  destruct (process_records _ _ _ _ P) as [M R]. cbn [data] in M.
  cbn [save_synced notion synced_file load_synced].
  rewrite process_passes_over; [reflexivity|].
  intros ep vtt I. apply to_process_In in I. destruct I as (I & E & S & N).
  destruct (isdigit ep) eqn:D; [exfalso | reflexivity].
  assert (X : In ep (recorded (data st'))).
  { apply (R ep vtt); [|exact D]. apply to_process_In. repeat split; try assumption.
    apply not_true_is_false. intros T. apply mem_In in T.
    apply M in T. apply mem_In in T. unfold recorded in T. congruence. }
  apply mem_In in X. unfold recorded in X. congruence.
Qed.

(** ** What can end the loop *)

Lemma exchange_faults (w : world) (r : request) :
  faults (fst (exchange w r)) = tl (faults w).
Proof.
  unfold exchange. destruct (faults w) as [|[| | |] fs]; cbn [tl];
    try reflexivity; destruct (answer w r); reflexivity.
Qed.

Lemma notion_request_faults (w : world) (r : request) :
  faults (fst (notion_request w r)) = tl (faults w).
Proof.
  unfold notion_request. rewrite <- (exchange_faults w r).
  destruct (exchange w r) as [w' [data| | |]]; reflexivity.
Qed.

(** The one exception of [notion_request] is that of the handler, on
    an error answer whose body cannot be read. *)
Lemma notion_request_raises (w : world) (r : request) (e : exn) :
  snd (notion_request w r) = Raise e ->
  e = HandlerError /\ hd NoFault (faults w) = HTTPErrorUnreadable.
Proof.
  assert (A : snd (answer w r) <> ErrorStatusUnreadable).
  { unfold answer. destruct r; try destruct (children_of (pages w) page);
      discriminate. }
  unfold notion_request.
  destruct (exchange w r) as [w' o] eqn:E. unfold exchange in E.
  destruct o; cbn [snd]; try discriminate. intros [= <-].
  split; [reflexivity|].
  destruct (faults w) as [|[| | |] fs]; cbn [hd]; try reflexivity;
    try discriminate E;
    destruct (answer w r) as [ps o]; cbn [snd] in A; congruence.
Qed.

(** [w'] is [w] some exchanges later. *)
Definition later_than (w w' : world) : Prop :=
  exists k, faults w' = skipn k (faults w).

Lemma later_refl w : later_than w w.
Proof. exists 0. reflexivity. Qed.

Lemma later_request w r w' :
  later_than w w' -> later_than w (fst (notion_request w' r)).
Proof.
  intros [k E]. exists (S k). rewrite notion_request_faults, E.
  clear. revert k. induction (faults w) as [|f l IH]; intros k.
  - destruct k; reflexivity.
  - destruct k; [reflexivity|]. cbn [skipn]. apply IH.
Qed.

Lemma later_In w w' (f : fault) :
  later_than w w' -> In f (faults w') -> In f (faults w).
Proof.
  intros [k E]. rewrite E. clear. revert k.
  induction (faults w) as [|g l IH]; intros k H.
  - destruct k; exact H.
  - destruct k; [exact H|]. right. exact (IH k H).
Qed.

Lemma raised_In w w' r e :
  later_than w w' -> snd (notion_request w' r) = Raise e ->
  e = HandlerError /\ In HTTPErrorUnreadable (faults w).
Proof.
  intros L H. destruct (notion_request_raises w' r e H) as [-> F].
  split; [reflexivity|]. apply (later_In w w' _ L).
  destruct (faults w') as [|f fs]; [discriminate F|]. cbn [hd] in F. subst f.
  left. reflexivity.
Qed.

(** No answered error status and no broken exchange ends the loop of
    the caption sync.  What can end it is the [ValueError] of [int],
    or the exception raised in the handler of [notion_request] on an
    error answer whose body cannot be read. *)
Lemma process_survives_faults items :
  forall i st e,
    snd (process i items st) = Some e ->
    e = ValueError
    \/ (e = HandlerError /\ In HTTPErrorUnreadable (faults (notion st))).
Proof.
  induction items as [|[ep_num vtt] rest IH]; intros i st e H; cbn [process] in H.
  - discriminate H.
  - assert (Step : forall st1,
               later_than (notion st) (notion st1) ->
               snd (process (S i) rest st1) = Some e ->
               e = ValueError
               \/ (e = HandlerError /\ In HTTPErrorUnreadable (faults (notion st)))).
    { intros st1 L P. destruct (IH _ _ _ P) as [E | [E I]]; [left; exact E|].
      right. split; [exact E | exact (later_In _ _ _ L I)]. }
    destruct (negb (isdigit ep_num)); [refine (Step _ _ H); apply later_refl|].
    destruct (content vtt) as [vtt_content|]; [|refine (Step _ _ H); apply later_refl].
    destruct (len (parse_vtt_to_text vtt_content) <? 100);
      [refine (Step _ _ H); apply later_refl|].
    unfold find_episode_page in H.
    destruct (PyInt.int ep_num) as [n|]; [|cbn [snd] in H; left; congruence].
    pose proof (later_request _ (QueryEpisode n) _ (later_refl (notion st))) as L1.
    pose proof (raised_In _ _ (QueryEpisode n) e (later_refl (notion st))) as R1.
    destruct (notion_request (notion st) (QueryEpisode n)) as [w1 [data|e1]];
      cbn [fst snd] in L1, R1.
    2:{ cbn [snd] in H. injection H as ->. right. apply R1. reflexivity. }
    assert (Failed : forall w, later_than (notion st) w ->
               snd (process (S i) rest (append_failed ep_num (with_notion w st)))
               = Some e ->
               e = ValueError
               \/ (e = HandlerError /\ In HTTPErrorUnreadable (faults (notion st)))).
    { intros w L P. exact (Step (append_failed ep_num (with_notion w st)) L P). }
    destruct data as [[[|[|c page] ids]| |]|];
      try exact (Failed w1 L1 H).
    unfold check_page_has_transcript in H.
    pose proof (later_request _ (GetChildren (c :: page) 20) _ L1) as L2.
    pose proof (raised_In _ _ (GetChildren (c :: page) 20) e L1) as R2.
    destruct (notion_request w1 (GetChildren (c :: page) 20)) as [w2 [kids|e2]];
      cbn [fst snd] in L2, R2.
    2:{ cbn [snd] in H. injection H as ->. right. apply R2. reflexivity. }
    destruct (match kids with
              | Some (Children results) => existsb is_transcript_heading results
              | _ => false
              end);
      [exact (Step (append_skipped ep_num (with_notion w2 st)) L2 H)|].
    unfold add_transcript_to_page in H.
    pose proof (later_request _ (AppendChildren (c :: page)
                  (transcript_blocks (parse_vtt_to_text vtt_content))) _ L2) as L3.
    pose proof (raised_In _ _ (AppendChildren (c :: page)
                  (transcript_blocks (parse_vtt_to_text vtt_content))) e L2) as R3.
    destruct (notion_request w2 _) as [w3 [ack|e3]]; cbn [fst snd] in L3, R3.
    2:{ cbn [snd] in H. injection H as ->. right. apply R3. reflexivity. }
    refine (Step _ _ H).
    destruct ((i + 1) mod 5 =? 0); destruct ack; exact L3.
Qed.

End Run.

End RerunFacts.

(* ================================================================== *)
(** * Chunks and the words of a transcript *)
(* ================================================================== *)

Module ChunkWordFacts.
Import Py Notion Chunks PyFacts Inputs.

(** A word as [str.split()] gives it: not empty, no white space. *)
Definition is_word (w : str) : Prop :=
  w <> [] /\ Forall (fun c => isspace c = false) w.

Lemma split_ws_from_words (s cur : str) :
  Forall (fun c => isspace c = false) cur ->
  Forall is_word (split_ws_from cur s).
Proof.
  revert cur. induction s as [|c s IH]; intros cur Hcur; cbn [split_ws_from].
  - destruct cur as [|x cur]; [constructor|].
    constructor; [|constructor]. split.
    + intros E. apply (f_equal (@rev char)) in E. rewrite rev_involutive in E.
      discriminate E.
    + apply Forall_rev. exact Hcur.
  - destruct (isspace c) eqn:E.
    + destruct cur as [|x cur]; [apply IH; constructor|].
      constructor; [|apply IH; constructor]. split.
      * intros E'. apply (f_equal (@rev char)) in E'. rewrite rev_involutive in E'.
        discriminate E'.
      * apply Forall_rev. exact Hcur.
    + apply IH. constructor; assumption.
Qed.

Lemma split_words (s : str) : Forall is_word (split s).
Proof. apply split_ws_from_words. constructor. Qed.

(** Reading a word, then what follows it. *)
Lemma split_ws_from_word (w cur rest : str) :
  Forall (fun c => isspace c = false) w ->
  split_ws_from cur (w ++ rest) = split_ws_from (rev w ++ cur) rest.
Proof.
  revert cur. induction w as [|c w IH]; intros cur H; [reflexivity|].
  inversion H as [|? ? Hc Hw]; subst. cbn [app split_ws_from]. rewrite Hc.
  rewrite IH by exact Hw. cbn [rev]. rewrite <- app_assoc. reflexivity.
Qed.

(** Words joined by single spaces split into the same words. *)
Lemma split_join (ws : list str) :
  Forall is_word ws -> split (join [SPACE] ws) = ws.
Proof.
  unfold split. induction 1 as [|w ws [Hn Hw] Hws IH]; [reflexivity|].
  destruct ws as [|w2 ws].
  - cbn [join]. rewrite <- (app_nil_r w) at 1.
    rewrite split_ws_from_word by exact Hw. rewrite app_nil_r. cbn [split_ws_from].
    destruct (rev w) eqn:E.
    + apply (f_equal (@rev char)) in E. rewrite rev_involutive in E. contradiction.
    + rewrite <- E, rev_involutive. reflexivity.
  - change (join [SPACE] (w :: w2 :: ws))
      with (w ++ SPACE :: join [SPACE] (w2 :: ws)).
    rewrite split_ws_from_word by exact Hw. rewrite app_nil_r.
    cbn [split_ws_from]. change (isspace SPACE) with true. cbv iota.
    destruct (rev w) eqn:E.
    + apply (f_equal (@rev char)) in E. rewrite rev_involutive in E. contradiction.
    + rewrite <- E, rev_involutive, IH. reflexivity.
Qed.

(** The words of the chunks made so far, and of the chunk being
    filled. *)
Definition words_of (st : chunk_state) : list str :=
  let '(chunks, current_chunk, _) := st in
  flat_map split chunks ++ current_chunk.

Lemma chunk_step_words (st : chunk_state) (w : str) :
  (let '(_, current_chunk, _) := st in Forall is_word current_chunk) ->
  is_word w ->
  words_of (chunk_step st w) = words_of st ++ [w]
  /\ (let '(_, current_chunk, _) := chunk_step st w in Forall is_word current_chunk).
Proof.
  destruct st as [[chunks cur] clen]. unfold chunk_step, words_of. intros Hcur Hw.
  destruct (1900 <? clen + len w + 1).
  - split; [|constructor; [exact Hw | constructor]].
    rewrite flat_map_app. cbn [flat_map]. rewrite app_nil_r.
    rewrite (split_join cur Hcur). rewrite <- app_assoc. reflexivity.
  - split; [rewrite app_assoc; reflexivity|].
    apply Forall_app. split; [exact Hcur | constructor; [exact Hw | constructor]].
Qed.

Lemma chunk_loop_words (ws : list str) (st : chunk_state) :
  (let '(_, current_chunk, _) := st in Forall is_word current_chunk) ->
  Forall is_word ws ->
  words_of (fold_left chunk_step ws st) = words_of st ++ ws
  /\ (let '(_, current_chunk, _) := fold_left chunk_step ws st in
      Forall is_word current_chunk).
Proof.
  revert st. induction ws as [|w ws IH]; intros st Hst Hws; cbn [fold_left].
  - rewrite app_nil_r. split; [reflexivity | exact Hst].
  - inversion Hws as [|? ? Hw Hws']; subst.
    destruct (chunk_step_words st w Hst Hw) as [E Hst'].
    destruct (IH (chunk_step st w) Hst' Hws') as [E2 Hcur].
    rewrite E2, E, <- app_assoc. split; [reflexivity | exact Hcur].
Qed.

(** X1: the chunks of [add_transcript_to_page] hold the words of the
    transcript, all of them and in their order: splitting the chunks
    into words gives the words of the text. *)
Theorem chunks_keep_the_words (transcript_text : str) :
  flat_map split (split_chunks transcript_text) = split transcript_text.
Proof.
  unfold split_chunks.
  destruct (chunk_loop_words (split transcript_text) ([], [], 0)) as [E H].
  { constructor. }
  { apply split_words. }
  cbn [words_of flat_map app] in E.
  destruct (fold_left chunk_step (split transcript_text) ([], [], 0))
    as [[chunks cur] clen].
  cbn [words_of] in E. destruct cur as [|w cur].
  - rewrite app_nil_r in E. exact E.
  - rewrite flat_map_app. cbn [flat_map]. rewrite app_nil_r.
    rewrite (split_join (w :: cur) H). exact E.
Qed.

(** X2: when no word of the transcript has more than 1900 characters,
    no chunk has: each chunk fits a block of 2000 characters. *)
Theorem chunks_fit_a_block (transcript_text : str) :
  Forall (fun w : str => len w <= 1900) (split transcript_text) ->
  Forall (fun c : str => len c <= 1900) (split_chunks transcript_text).
Proof.
  intros Hws. unfold split_chunks.
  assert (I : ChunkFacts.chunk_inv
                (fold_left chunk_step (split transcript_text) ([], [], 0))).
  { apply ChunkFacts.chunk_loop_inv; [exact Hws|]. simpl. split; [constructor | lia]. }
  destruct (fold_left chunk_step (split transcript_text) ([], [], 0))
    as [[chunks cur] clen].
  destruct I as (Hc & Hj & Hl).
  destruct cur; [assumption|].
  apply Forall_app. split; [assumption|]. constructor; [lia | constructor].
Qed.

(** A talk of 20 words. *)
Lemma chunks_fit_a_block_witness :
  Forall (fun c : str => len c <= 1900) (split_chunks short_talk).
Proof.
  apply (chunks_fit_a_block short_talk).
  vm_compute. repeat constructor.
Defined.

(** X3: the request built by [add_transcript_to_page] of the caption
    sync never holds more than 100 blocks.  With at most 97 chunks it
    is the divider, the heading and one paragraph for each chunk; with
    more, the first 97 chunks are followed by one paragraph that tells
    how many were left out. *)
Theorem caption_sync_request_within_cap (transcript_text : str) :
  let chunks := split_chunks transcript_text in
  let blocks := SyncYoutubeTranscriptsToNotion.transcript_blocks transcript_text in
  len blocks <= 100
  /\ (len chunks <= 97 ->
      blocks = [Divider; heading_block] ++ map paragraph chunks)
  /\ (97 < len chunks ->
      blocks = [Divider; heading_block] ++ map paragraph (firstn 97 chunks)
               ++ [paragraph (SyncYoutubeTranscriptsToNotion.truncation_marker
                                (len chunks - 97))]).
Proof.
  intros chunks blocks. split; [apply ChunkFacts.youtube_blocks_within_cap|].
  unfold blocks, SyncYoutubeTranscriptsToNotion.transcript_blocks. fold chunks.
  split; intros H.
  - apply Nat.ltb_ge in H. rewrite H, app_nil_r.
    apply Nat.ltb_ge in H. rewrite firstn_all2 by exact H. reflexivity.
  - apply Nat.ltb_lt in H. rewrite H. reflexivity.
Qed.

End ChunkWordFacts.

(* ================================================================== *)
(** * More on the matcher: what it returns, what a normalized name is *)
(* ================================================================== *)

Module MatcherResultFacts.
Import Py PyFacts DownloadTranscripts Inputs Terms AsciiTables.

Section Result.

Context {U : Unicode}.
Variable ratio : str -> str -> Q.

(** What the loop has in hand: no episode and score 0, or an episode
    of the catalog that has a guest name, with a score above 0.6 or
    the score 1.0 of a contained name. *)
Definition sound (catalog : list episode) (r : option episode * Q) : Prop :=
  match r with
  | (Some ep, s) => In ep catalog /\ named ep /\ (s = 1%Q \/ (6 # 10 < s)%Q)
  | (None, s) => s = 0%Q
  end.

Lemma scan_sound (catalog : list episode) (n : str) (eps : list episode) :
  forall bm bs,
    incl eps catalog -> sound catalog (bm, bs) ->
    sound catalog (scan ratio n eps bm bs).
Proof.
  induction eps as [|ep eps IH]; intros bm bs Hin Hs; cbn [scan]; [exact Hs|].
  assert (Hin' : incl eps catalog) by (intros x Hx; apply Hin; right; exact Hx).
  assert (Hep : In ep catalog) by (apply Hin; left; reflexivity).
  destruct (lower (guest ep)) as [|c g] eqn:E; [apply IH; assumption|].
  assert (Hn : named ep) by (unfold named; rewrite E; discriminate).
  destruct (contains (c :: g) n || contains n (c :: g)).
  - cbn [sound]. auto.
  - destruct (Qlt_bool bs (ratio n (c :: g)) && Qlt_bool (6 # 10) (ratio n (c :: g)))
      eqn:T; [|apply IH; assumption].
    apply andb_true_iff in T. destruct T as [_ T].
    apply MatcherFacts.Qlt_bool_true in T.
    apply IH; [assumption|]. cbn [sound]. auto.
Qed.

End Result.

(** X4: whatever the similarity function, [match_guest] returns either
    no episode with score 0, or an episode of the catalog that has a
    guest name, with score exactly 1.0 or a score above 0.6. *)
Theorem match_guest_result (U : Unicode) (ratio : str -> str -> Q)
  (srt_name : str) (episodes : list episode) :
  match match_guest ratio srt_name episodes with
  | (Some ep, score) =>
      In ep episodes /\ lower (guest ep) <> []
      /\ (score = 1%Q \/ (6 # 10 < score)%Q)
  | (None, score) => score = 0%Q
  end.
Proof.
  pose proof (scan_sound ratio episodes (normalize_name srt_name) episodes
                None 0%Q (incl_refl _) eq_refl) as S.
  unfold match_guest. unfold sound, named in S. exact S.
Qed.

(** ** The shape of a normalized name *)

(** White space in [l] is the space character, one at a time;
    [in_run]: the character before [l] was a space. *)
Fixpoint spaced (in_run : bool) (l : str) : Prop :=
  match l with
  | [] => True
  | c :: l' =>
      if isspace c then c = SPACE /\ in_run = false /\ spaced true l'
      else spaced false l'
  end.

Lemma spaced_weaken (b : bool) (l : str) : spaced b l -> spaced false l.
Proof.
  destruct l as [|c l]; [auto|]. cbn [spaced].
  destruct (isspace c); [|auto]. intros (E & _ & H). auto.
Qed.

Lemma collapse_spaced (b : bool) (s : str) : spaced b (collapse_spaces b s).
Proof.
  revert b. induction s as [|c s IH]; intros b; cbn [collapse_spaces]; [exact I|].
  destruct (isspace c) eqn:E.
  - destruct b; [apply IH|]. cbn [spaced]. change (isspace SPACE) with true.
    cbv iota. auto.
  - cbn [spaced]. rewrite E. apply IH.
Qed.

Lemma spaced_suffix (b : bool) (pre l : str) :
  spaced b (pre ++ l) -> spaced false l.
Proof.
  revert b. induction pre as [|c pre IH]; intros b H.
  - exact (spaced_weaken b l H).
  - cbn [app spaced] in H. destruct (isspace c).
    + destruct H as (_ & _ & H). exact (IH true H).
    + exact (IH false H).
Qed.

Lemma spaced_prefix (b : bool) (l post : str) :
  spaced b (l ++ post) -> spaced b l.
Proof.
  revert b. induction l as [|c l IH]; intros b H; [exact I|].
  cbn [app spaced] in *. destruct (isspace c).
  - destruct H as (E & B & H). auto.
  - auto.
Qed.

Lemma spaced_strip (l : str) : spaced false l -> spaced false (strip l).
Proof.
  intros H. unfold strip.
  destruct (NormalizerFacts.lstrip_suffix l) as [pre E].
  destruct (NormalizerFacts.rstrip_prefix (lstrip l)) as [post E'].
  rewrite E in H. apply spaced_suffix in H. rewrite E' in H.
  exact (spaced_prefix false _ post H).
Qed.

Lemma spaced_only_spaces (b : bool) (l : str) (c : char) :
  spaced b l -> In c l -> isspace c = true -> c = SPACE.
Proof.
  revert b. induction l as [|x l IH]; intros b H I S; [destruct I|].
  destruct I as [E | I].
  - subst x. cbn [spaced] in H. rewrite S in H. apply H.
  - cbn [spaced] in H. destruct (isspace x).
    + destruct H as (_ & _ & H). exact (IH true H I S).
    + exact (IH false H I S).
Qed.

Lemma spaced_no_double (b : bool) (pre post : str) :
  ~ spaced b (pre ++ SPACE :: SPACE :: post).
Proof.
  revert b. induction pre as [|x pre IH]; intros b H.
  - cbn [app spaced] in H. change (isspace SPACE) with true in H. cbv iota in H.
    destruct H as (_ & _ & _ & B & _). discriminate B.
  - cbn [app spaced] in H. destruct (isspace x).
    + destruct H as (_ & _ & H). exact (IH true H).
    + exact (IH false H).
Qed.

(** X5: a normalized name is made of words separated by single
    spaces: it has no white space at either end, no underscore and no
    hyphen, no white-space character other than the space, and no two
    spaces in a row. *)
Theorem normalize_name_shape (U : Unicode) (name : str) :
  let n := normalize_name name in
  NormalizerFacts.stripped n
  /\ ~ In 95%N n /\ ~ In 45%N n
  /\ (forall c, In c n -> isspace c = true -> c = SPACE)
  /\ (forall pre post, n <> pre ++ SPACE :: SPACE :: post).
Proof.
  intros n. unfold n, normalize_name.
  set (raw := remove_noise_from 0 (lower name)).
  assert (S : spaced false (strip (collapse_spaces false (separators_to_spaces raw)))).
  { apply spaced_strip. apply collapse_spaced. }
  assert (K : forall c, In c (strip (collapse_spaces false (separators_to_spaces raw))) ->
                c = SPACE \/ In c (separators_to_spaces raw)).
  { intros c I. apply NormalizerFacts.strip_incl in I. revert I.
    generalize (separators_to_spaces raw) false.
    intros l. induction l as [|x l IH]; intros b I; cbn [collapse_spaces] in I.
    - destruct I.
    - destruct (isspace x).
      + destruct b.
        * destruct (IH true I); [left | right; right]; assumption.
        * destruct I as [E | I]; [left; congruence|].
          destruct (IH true I); [left | right; right]; assumption.
      + destruct I as [E | I]; [right; left; exact E|].
        destruct (IH false I); [left | right; right]; assumption. }
  assert (M : forall c, In c (separators_to_spaces raw) -> c <> 95%N /\ c <> 45%N).
  { unfold separators_to_spaces. intros c I. apply in_map_iff in I.
    destruct I as (x & E & _).
    destruct ((x =? 95)%N || (x =? 45)%N) eqn:T.
    - subst c. split; discriminate.
    - subst c. apply orb_false_iff in T. destruct T as [T1 T2].
      apply N.eqb_neq in T1. apply N.eqb_neq in T2. split; assumption. }
  split; [apply NormalizerFacts.strip_stripped|].
  split; [|split; [|split]].
  - intros I. destruct (K _ I) as [E | I']; [discriminate E|].
    destruct (M _ I') as [X _]. apply X. reflexivity.
  - intros I. destruct (K _ I) as [E | I']; [discriminate E|].
    destruct (M _ I') as [_ X]. apply X. reflexivity.
  - intros c I Sp. exact (spaced_only_spaces false _ c S I Sp).
  - intros pre post E. rewrite E in S. exact (spaced_no_double false pre post S).
Qed.

End MatcherResultFacts.

(* ================================================================== *)
(** * The mapping sync: one entry for each episode, highest first *)
(* ================================================================== *)

From Stdlib Require Import Sorted Permutation.

Module MappingFacts.
Import Py PyFacts Notion SyncTranscriptsToNotion Inputs.

Lemma put_entries (m : mapping_entry) (d : list (str * mapping_entry))
  (ep : str) (m' : mapping_entry) :
  In (ep, m') (put m d) -> In (ep, m') d \/ (ep = episode m /\ m' = m).
Proof.
  induction d as [|[k old] d IH]; cbn [put].
  - intros [E | []]. injection E as <- <-. right. auto.
  - destruct (eqb k (episode m)) eqn:K.
    + apply eqb_eq in K. intros [E | I]; [|left; right; exact I].
      destruct (Qle_bool (score m) (score old)).
      * left. left. exact E.
      * injection E as <- <-. right. auto.
    + intros [E | I]; [left; left; exact E|].
      destruct (IH I) as [X | X]; [left; right; exact X | right; exact X].
Qed.

Lemma put_keys_in (m : mapping_entry) (d : list (str * mapping_entry)) (k : str) :
  In k (map fst (put m d)) -> In k (map fst d) \/ k = episode m.
Proof.
  intros I. apply in_map_iff in I. destruct I as ([ep m'] & E & I). cbn in E. subst k.
  destruct (put_entries m d ep m' I) as [X | [X _]]; [left | right; exact X].
  apply in_map_iff. exists (ep, m'). auto.
Qed.

Lemma put_keys (m : mapping_entry) (d : list (str * mapping_entry)) :
  NoDup (map fst d) -> NoDup (map fst (put m d)).
Proof.
  induction d as [|[k old] d IH]; cbn [put map fst]; intros H.
  - constructor; [intros [] | constructor].
  - inversion H as [|? ? Hk Hd]; subst.
    destruct (eqb k (episode m)) eqn:K; cbn [map fst].
    + constructor; assumption.
    + constructor; [|apply IH; exact Hd].
      intros I. apply put_keys_in in I. destruct I as [I | E]; [auto|].
      apply eqb_neq in K. auto.
Qed.

(** [d] holds, for the episode of [x], an entry that scores no less. *)
Definition covers (d : list (str * mapping_entry)) (x : mapping_entry) : Prop :=
  exists best, In (episode x, best) d /\ (score x <= score best)%Q.

Lemma put_covers_new (m : mapping_entry) (d : list (str * mapping_entry)) :
  covers (put m d) m.
Proof.
  induction d as [|[k old] d IH]; cbn [put].
  - exists m. split; [left; reflexivity | apply Qle_refl].
  - destruct (eqb k (episode m)) eqn:K.
    + apply eqb_eq in K. subst k.
      destruct (Qle_bool (score m) (score old)) eqn:L.
      * exists old. split; [left; reflexivity | apply Qle_bool_iff; exact L].
      * exists m. split; [left; reflexivity | apply Qle_refl].
    + destruct IH as (best & I & L). exists best. split; [right; exact I | exact L].
Qed.

Lemma put_covers_old (m x : mapping_entry) (d : list (str * mapping_entry)) :
  covers d x -> covers (put m d) x.
Proof.
  intros (best & I & L). induction d as [|[k old] d IH]; [destruct I|].
  cbn [put]. destruct (eqb k (episode m)) eqn:K.
  - destruct I as [E | I]; [|exists best; split; [right; exact I | exact L]].
    injection E as -> ->.
    destruct (Qle_bool (score m) (score best)) eqn:B.
    + exists best. split; [left; reflexivity | exact L].
    + exists m. split; [left; reflexivity|].
      apply Qlt_le_weak. eapply Qle_lt_trans; [exact L|].
      apply Qnot_le_lt. intros X. apply Qle_bool_iff in X. congruence.
  - destruct I as [E | I].
    + exists best. split; [left; exact E | exact L].
    + destruct (IH I) as (b & Ib & Lb). exists b. split; [right; exact Ib | exact Lb].
Qed.

Lemma fold_put (mapping : list mapping_entry) :
  forall d,
    NoDup (map fst d) ->
    (forall ep m', In (ep, m') d -> episode m' = ep) ->
    let d' := fold_left (fun d m => put m d) mapping d in
    NoDup (map fst d')
    /\ (forall ep m', In (ep, m') d' ->
          episode m' = ep /\ (In (ep, m') d \/ In m' mapping))
    /\ (forall x, In x mapping \/ covers d x -> covers d' x).
Proof.
  induction mapping as [|m mapping IH]; intros d Hk He; cbn [fold_left].
  - split; [exact Hk|]. split.
    + intros ep m' I. split; [exact (He ep m' I) | left; exact I].
    + intros x [[] | C]. exact C.
  - assert (He' : forall ep m', In (ep, m') (put m d) -> episode m' = ep).
    { intros ep m' I. destruct (put_entries m d ep m' I) as [X | [-> ->]];
        [exact (He ep m' X) | reflexivity]. }
    destruct (IH (put m d) (put_keys m d Hk) He') as (N & E & C).
    split; [exact N|]. split.
    + intros ep m' I. destruct (E ep m' I) as [K [X | X]]; split; try exact K.
      * destruct (put_entries m d ep m' X) as [Y | [_ ->]];
          [left; exact Y | right; left; reflexivity].
      * right. right. exact X.
    + intros x [[<- | I] | X]; apply C.
      * right. apply put_covers_new.
      * left. exact I.
      * right. apply put_covers_old. exact X.
Qed.

(** X6: [by_episode] keeps one entry for each episode of the mapping:
    the keys are distinct, every entry is an entry of the mapping
    under its own episode, and for every entry of the mapping the one
    kept for its episode scores at least as high. *)
Theorem by_episode_keeps_best (mapping : list mapping_entry) :
  NoDup (map fst (by_episode mapping))
  /\ (forall ep m, In (ep, m) (by_episode mapping) ->
        In m mapping /\ episode m = ep)
  /\ (forall m, In m mapping ->
        exists best, In (episode m, best) (by_episode mapping)
                     /\ (score m <= score best)%Q).
Proof.
  destruct (fold_put mapping [] (NoDup_nil _)) as (N & E & C).
  { intros ep m' []. }
  split; [exact N|]. split.
  - intros ep m I. destruct (E ep m I) as [K [[] | X]]. auto.
  - intros m I. apply C. left. exact I.
Qed.

(** ** The order of the loop *)

(** [a] comes before [b]: its key is no smaller. *)
Definition before (a b : Z * (str * mapping_entry)) : Prop := (fst b <= fst a)%Z.

Lemma insert_desc_perm x l : Permutation (insert_desc x l) (x :: l).
Proof.
  induction l as [|y l IH]; cbn [insert_desc]; [reflexivity|].
  destruct (fst x <? fst y)%Z; [|reflexivity].
  rewrite IH. apply perm_swap.
Qed.

Lemma insert_desc_sorted x l : Sorted before l -> Sorted before (insert_desc x l).
Proof.
  induction 1 as [|y l Hs IH Hd]; cbn [insert_desc].
  - repeat constructor.
  - destruct (fst x <? fst y)%Z eqn:C.
    + apply Z.ltb_lt in C. constructor; [exact IH|].
      destruct l as [|z l]; cbn [insert_desc].
      * constructor. unfold before. lia.
      * destruct (fst x <? fst z)%Z.
        -- inversion Hd; subst. constructor. assumption.
        -- constructor. unfold before. lia.
    + apply Z.ltb_ge in C. constructor; [constructor; assumption|].
      constructor. unfold before. exact C.
Qed.

Lemma keyed_spec `{Unicode} (items : list (str * mapping_entry)) kl :
  keyed items = Some kl ->
  map snd kl = items
  /\ Forall (fun x => sort_key (fst (snd x)) = Some (fst x)) kl.
Proof.
  revert kl. induction items as [|[ep m] items IH]; intros kl E; cbn [keyed] in E.
  - injection E as <-. split; [reflexivity | constructor].
  - destruct (sort_key ep) as [k|] eqn:K; [|discriminate E].
    destruct (keyed items) as [l|]; [|discriminate E].
    injection E as <-. destruct (IH l eq_refl) as [M F].
    split; [cbn; rewrite M; reflexivity | constructor; assumption].
Qed.

(** [a] is processed before [b]: both keys are integers and the key
    of [b] is no larger. *)
Definition processed_before `{Unicode} (a b : str * mapping_entry) : Prop :=
  exists ka kb,
    sort_key (fst a) = Some ka /\ sort_key (fst b) = Some kb /\ (kb <= ka)%Z.

(** X7: when no sort key raises, the loop of [main] goes through the
    very entries of [by_episode], each once, by descending episode
    number (entries whose key is not a number count as 0). *)
Theorem sorted_desc_order (U : Unicode) (items out : list (str * mapping_entry)) :
  sorted_desc items = Some out ->
  Permutation out items /\ Sorted processed_before out.
Proof.
  unfold sorted_desc. intros E.
  destruct (keyed items) as [kl|] eqn:K; [|discriminate E].
  cbn [option_map] in E. injection E as <-.
  destruct (keyed_spec items kl K) as [M F].
  assert (P : Permutation (fold_right insert_desc [] kl) kl).
  { clear. induction kl as [|x kl IH]; cbn [fold_right]; [reflexivity|].
    rewrite insert_desc_perm, IH. reflexivity. }
  assert (S : Sorted before (fold_right insert_desc [] kl)).
  { clear. induction kl as [|x kl IH]; cbn [fold_right]; [constructor|].
    apply insert_desc_sorted. exact IH. }
  assert (F' : Forall (fun x => sort_key (fst (snd x)) = Some (fst x))
                 (fold_right insert_desc [] kl)).
  { rewrite Forall_forall in *. intros x I. apply F.
    eapply Permutation_in; [exact P | exact I]. }
  split.
  - rewrite <- M. apply Permutation_map. exact P.
  - revert S F'. generalize (fold_right insert_desc [] kl). clear.
    induction 1 as [|y l Hs IH Hd]; intros F; cbn [map]; [constructor|].
    inversion F as [|? ? Fy Fl]; subst. constructor; [apply IH; exact Fl|].
    destruct Hd as [|z l Hb]; cbn [map]; constructor.
    inversion Fl; subst. exists (fst y), (fst z). auto.
Qed.

(** The entries of episodes 7 and 8: episode 8 comes first. *)
Lemma sorted_desc_order_witness :
  Permutation (rev (by_episode mapping_7_8)) (by_episode mapping_7_8)
  /\ Sorted (@processed_before AsciiTables.ascii_unicode)
       (rev (by_episode mapping_7_8)).
Proof.
  apply (sorted_desc_order AsciiTables.ascii_unicode (by_episode mapping_7_8)).
  vm_compute. reflexivity.
Defined.

End MappingFacts.

(* ================================================================== *)
(** * The caption sync as a whole *)
(* ================================================================== *)

Module CaptionSyncFacts.
Import Py PyFacts Notion Exn SyncYoutubeTranscriptsToNotion Inputs MoreInputs AsciiTables.

(** X8: a second run of [main] of the caption sync on the same files,
    after a first run that came to its end, changes nothing: it sends
    no request to the workspace database and writes the progress file
    with what it held; the episodes of the first run, failed ones
    included, are not tried again. *)
Theorem caption_sync_second_run (U : Unicode)
  (vtt_files : list vtt_file) (w : world) (file : option synced_data) (st : run) :
  main vtt_files w file = (st, None) ->
  main vtt_files (notion st) (synced_file st) = (st, None)
  /\ synced_file st = Some (data st).
Proof.
  intros H. split; [apply RerunFacts.main_second_run_quiet with (w := w) (file := file); exact H|].
  unfold main in H.
  destruct (process 0 _ _) as [st' [e|]]; [discriminate H|].
  injection H as <-. reflexivity.
Qed.

(** The caption file of episode 7 and a stray file, on the database of
    two pages. *)
Lemma caption_sync_second_run_witness :
  let st := fst (@main AsciiTables.ascii_unicode [talk_vtt; stray_vtt] two_pages None) in
  main [talk_vtt; stray_vtt] (notion st) (synced_file st) = (st, None)
  /\ synced_file st = Some (data st).
Proof.
  intros st.
  apply (caption_sync_second_run AsciiTables.ascii_unicode
           [talk_vtt; stray_vtt] two_pages None st).
  vm_compute. reflexivity.
Defined.

(** X9: no answered error status and no broken exchange ends the
    loop of the caption sync.  It comes to its end, or it is left by
    the [ValueError] of [int] on an episode number, or by the
    exception raised in the [except HTTPError] clause of
    [notion_request] when the body of an error answer cannot be read
    or decoded; the last only when such an answer is among those to
    come. *)
Theorem caption_sync_loop_outcome (U : Unicode)
  (i : nat) (items : list (str * vtt_file)) (st : run) :
  snd (process i items st) = None
  \/ snd (process i items st) = Some ValueError
  \/ (snd (process i items st) = Some HandlerError
      /\ In HTTPErrorUnreadable (faults (notion st))).
Proof.
  destruct (snd (process i items st)) as [e|] eqn:E; [right | left; reflexivity].
  destruct (RerunFacts.process_survives_faults items i st e E) as [-> | [-> I]];
    [left; reflexivity | right; split; [reflexivity | exact I]].
Qed.

(** ** A write follows a request to read *)

(** Every write in [l] comes right after a request for the first 20
    children of the same page (answered or not). *)
Fixpoint guarded (prev : option request) (l : list request) : Prop :=
  match l with
  | [] => True
  | r :: l' =>
      match r with
      | AppendChildren p _ =>
          match prev with
          | Some (GetChildren q 20) => q = p
          | _ => False
          end
      | _ => True
      end /\ guarded (Some r) l'
  end.

Lemma last_cons {A : Type} (x d : A) (l : list A) : last (x :: l) d = last l x.
Proof.
  revert x d. induction l as [|y l IH]; intros x d; [reflexivity|].
  change (last (x :: y :: l) d) with (last (y :: l) d).
  rewrite (IH y d), (IH y x). reflexivity.
Qed.

Lemma guarded_app (prev : option request) (l1 l2 : list request) :
  guarded prev l1 -> guarded (last (map Some l1) prev) l2 ->
  guarded prev (l1 ++ l2).
Proof.
  revert prev. induction l1 as [|r l1 IH]; intros prev H1 H2; [exact H2|].
  cbn [app guarded] in *. destruct H1 as [A B]. split; [exact A|].
  apply IH; [exact B|]. cbn [map] in H2. rewrite last_cons in H2. exact H2.
Qed.

Lemma exchange_requests (w : world) (r : request) :
  requests (fst (exchange w r)) = requests w ++ [r].
Proof.
  unfold exchange. destruct (faults w) as [|[| | |] fs]; cbn;
    try reflexivity; destruct (answer w r); reflexivity.
Qed.

Lemma notion_request_requests (w : world) (r : request) :
  requests (fst (notion_request w r)) = requests w ++ [r].
Proof.
  unfold notion_request. pose proof (exchange_requests w r) as E.
  destruct (exchange w r) as [w' [a| | |]]; exact E.
Qed.

Section Loop.

Context {U : Unicode}.

(** The requests one item adds: a query; or a query and a read; or a
    query, a read and the write to the page that was read. *)
Lemma process_guarded items :
  forall i st,
    guarded None (requests (notion st)) ->
    guarded None (requests (notion (fst (process i items st)))).
Proof.
  induction items as [|[ep_num vtt] rest IH]; intros i st G;
    cbn [process]; [exact G|].
  destruct (negb (isdigit ep_num)); [apply IH; exact G|].
  destruct (content vtt) as [vtt_content|]; [|apply IH; exact G].
  destruct (len (parse_vtt_to_text vtt_content) <? 100); [apply IH; exact G|].
  unfold find_episode_page.
  destruct (PyInt.int ep_num) as [n|]; [|exact G].
  pose proof (notion_request_requests (notion st) (QueryEpisode n)) as R1.
  destruct (notion_request (notion st) (QueryEpisode n)) as [w1 [data|e1]].
  2:{ cbn [fst notion with_notion]. cbn [fst] in R1. rewrite R1.
      apply guarded_app; [exact G|]. cbn. auto. }
  cbn [fst] in R1.
  assert (G1 : guarded None (requests w1)).
  { rewrite R1. apply guarded_app; [exact G|]. cbn. auto. }
  destruct data as [[[|[|c page] ids]| |]|]; try (apply IH; exact G1).
  unfold check_page_has_transcript.
  pose proof (notion_request_requests w1 (GetChildren (c :: page) 20)) as R2.
  destruct (notion_request w1 (GetChildren (c :: page) 20)) as [w2 [kids|e2]].
  2:{ cbn [fst notion with_notion]. cbn [fst] in R2. rewrite R2.
      apply guarded_app; [exact G1|]. cbn. auto. }
  cbn [fst] in R2.
  assert (G2 : guarded None (requests w2)).
  { rewrite R2. apply guarded_app; [exact G1|]. cbn. auto. }
  destruct (match kids with
            | Some (Children results) => existsb is_transcript_heading results
            | _ => false
            end); [apply IH; exact G2|].
  unfold add_transcript_to_page.
  pose proof (notion_request_requests w2
                (AppendChildren (c :: page)
                   (transcript_blocks (parse_vtt_to_text vtt_content)))) as R3.
  destruct (notion_request w2 _) as [w3 [result|e3]]; cbn [fst] in R3.
  2:{ cbn [fst notion with_notion]. rewrite R3. apply guarded_app; [exact G2|].
      rewrite R2, map_app. cbn [map]. rewrite last_last. cbn. auto. }
  assert (G3 : guarded None (requests w3)).
  { rewrite R3. apply guarded_app; [exact G2|].
    rewrite R2, map_app. cbn [map]. rewrite last_last. cbn. auto. }
  apply IH.
  destruct ((i + 1) mod 5 =? 0); destruct result; exact G3.
Qed.

End Loop.

(** The read that fails counts as "no transcript". *)
Lemma failed_read_reports_false (w : world) (page : page_id) :
  hd NoFault (faults w) = HTTPError \/ hd NoFault (faults w) = URLError ->
  snd (check_page_has_transcript w page) = Ok false.
Proof.
  unfold check_page_has_transcript, notion_request, exchange.
  destruct (faults w) as [|[| | |] fs]; cbn [hd];
    intros [H | H]; try discriminate H; reflexivity.
Qed.

(** X10: in the requests of a run of [main] of the caption sync,
    every write of children comes right after a request for the first
    20 children of the same page.  The request need not have been
    answered: when it meets an error status or a broken exchange,
    [check_page_has_transcript] returns [False] whatever the page
    holds, and the write follows all the same. *)
Theorem caption_sync_write_follows_read_request (U : Unicode)
  (vtt_files : list vtt_file) (w : world) (file : option synced_data) :
  guarded None (requests w) ->
  guarded None (requests (notion (fst (main vtt_files w file))))
  /\ (forall w' page,
        hd NoFault (faults w') = HTTPError \/ hd NoFault (faults w') = URLError ->
        snd (check_page_has_transcript w' page) = Ok false).
Proof.
  intros G. split; [|exact failed_read_reports_false]. unfold main.
  pose proof (process_guarded
                (to_process (synced (load_synced file) ++ failed (load_synced file)
                             ++ skipped (load_synced file)) vtt_files)
                0 {| notion := w; data := load_synced file; synced_file := file |}
                G) as P.
  destruct (process 0 _ _) as [st' [e|]]; exact P.
Qed.

(** The run on the caption file of episode 7: a query, a read, a
    write. *)
Lemma caption_sync_write_follows_read_request_witness :
  guarded None
    (requests (notion (fst (@main AsciiTables.ascii_unicode
                              [talk_vtt; stray_vtt] two_pages None))))
  /\ (forall w' page,
        hd NoFault (faults w') = HTTPError \/ hd NoFault (faults w') = URLError ->
        snd (check_page_has_transcript w' page) = Ok false).
Proof.
  apply (caption_sync_write_follows_read_request AsciiTables.ascii_unicode
           [talk_vtt; stray_vtt] two_pages None).
  exact I.
Defined.

(** A page that holds a transcript gets a second one when the read
    of its children breaks: the run on the page left by a first run,
    with the progress file lost and the second exchange broken. *)
Lemma broken_read_writes_again :
  let first := fst (@main AsciiTables.ascii_unicode [talk_vtt] two_pages None) in
  let again :=
    {| db := db (notion first); pages := pages (notion first);
       faults := [NoFault; URLError]; requests := [] |} in
  let second := fst (@main AsciiTables.ascii_unicode [talk_vtt] again None) in
  children_of (pages (notion first)) (lit "page-7")
  = Some (transcript_blocks (parse_vtt_to_text
                               match content talk_vtt with Some c => c | None => [] end))
  /\ map is_write (requests (notion second)) = [false; false; true]
  /\ len (filter is_transcript_heading
            match children_of (pages (notion second)) (lit "page-7") with
            | Some kids => kids
            | None => []
            end) = 2.
Proof. vm_compute. repeat split. Qed.

End CaptionSyncFacts.

(* ================================================================== *)
(** * More on the transcription script *)
(* ================================================================== *)

Module TranscribeMoreFacts.
Import Py PyFacts Exn AssemblyaiTranscribe Inputs MoreInputs.

(** ** Speaker labels *)

Lemma join_prefix (sep a b : str) (l : list str) :
  join sep ((a ++ b) :: l) = a ++ join sep (b :: l).
Proof.
  destruct l as [|c l]; cbn [join]; [reflexivity|].
  rewrite <- app_assoc. reflexivity.
Qed.

Lemma speaker_lines_same (s : str) (us : list utterance) :
  Forall (fun u => speaker u = s) us ->
  speaker_lines (Some s) us = map text us.
Proof.
  induction 1 as [|u us Hu Hus IH]; [reflexivity|].
  cbn [speaker_lines map]. rewrite Hu, eqb_refl, IH. reflexivity.
Qed.

(** The name written for a speaker label. *)
Definition speaker_name (label : str) : str :=
  if eqb label (lit "A") then lit "Michael" else lit "Guest".

(** X11: [format_transcript_with_speakers] gives the flat text when
    the result has no utterances; utterances that all come from one
    speaker are written under one label, joined by spaces: a line
    break, the name in bold (Michael for the label "A", Guest for any
    other), and the texts. *)
Theorem one_speaker_one_label (result : transcript) :
  (utterances result = [] ->
   format_transcript_with_speakers result = full_text result)
  /\ (forall u rest,
      utterances result = u :: rest ->
      Forall (fun v => speaker v = speaker u) rest ->
      format_transcript_with_speakers result
      = [NEWLINE] ++ lit "**" ++ speaker_name (speaker u) ++ lit ":** "
        ++ join [SPACE] (map text (u :: rest))).
Proof.
  unfold format_transcript_with_speakers. split.
  - intros ->. reflexivity.
  - intros u rest -> H. cbn [speaker_lines].
    rewrite (speaker_lines_same (speaker u) rest H).
    fold (speaker_name (speaker u)).
    replace ([NEWLINE] ++ lit "**" ++ speaker_name (speaker u) ++ lit ":** " ++ text u)
      with (([NEWLINE] ++ lit "**" ++ speaker_name (speaker u) ++ lit ":** ") ++ text u)
      by (rewrite <- !app_assoc; reflexivity).
    rewrite join_prefix. rewrite <- !app_assoc. reflexivity.
Qed.

(** ** Polling is bounded *)

Lemma poll_loop_count fuel svc id start m :
  exists polls,
    trace (snd (poll_loop fuel svc id start m)) = trace m ++ polls
    /\ Forall (fun e => e = Poll id) polls
    /\ len polls <= fuel.
Proof.
  revert m. induction fuel as [|fuel IH]; intros m; cbn [poll_loop].
  - exists []. rewrite app_nil_r.
    destruct (clock m - start <? max_wait); repeat split; constructor.
  - destruct (clock m - start <? max_wait);
      [|exists []; rewrite app_nil_r; repeat split; [constructor | cbn; lia]].
    assert (One : forall took,
               exists polls,
                 trace (tick took (log (Poll id) m)) = trace m ++ polls
                 /\ Forall (fun e => e = Poll id) polls
                 /\ len polls <= S fuel).
    { intros took. exists [Poll id]. repeat split; [repeat constructor | cbn; lia]. }
    destruct (poll svc id (clock m)) as [[[r | e | s] | e] took]; cbn [snd];
      [apply One | apply One | | apply One].
    destruct (IH (tick 10 (tick took (log (Poll id) m)))) as (polls & T & A & L).
    exists (Poll id :: polls). rewrite T. cbn [trace tick log].
    rewrite <- app_assoc. repeat split.
    + constructor; [reflexivity | exact A].
    + cbn [List.length]. lia.
Qed.

(** X12: one call of [poll_transcription] asks the service at least
    once and at most 60 times, and for this job only; it leaves the
    files and the progress file as they are; and when the job never
    leaves its waiting states the call ends with the exception
    "Transcription timed out after 600s". *)
Theorem poll_transcription_bounded (svc : service) (transcript_id : str)
  (m : machine) :
  (exists polls,
      trace (snd (poll_transcription svc transcript_id m)) = trace m ++ polls
      /\ Forall (fun e => e = Poll transcript_id) polls
      /\ 1 <= len polls <= 60)
  /\ files (snd (poll_transcription svc transcript_id m)) = files m
  /\ progress_file (snd (poll_transcription svc transcript_id m)) = progress_file m
  /\ ((forall t, exists status took,
          poll svc transcript_id t = (Ok (Waiting status), took)) ->
      fst (poll_transcription svc transcript_id m) = Raise timed_out).
Proof.
  destruct (TranscribeFacts.poll_transcription_first svc transcript_id m)
    as (later & T & A & F & P).
  split; [|split; [exact F | split; [exact P|]]].
  - assert (E : poll_transcription svc transcript_id m
                = poll_loop 60 svc transcript_id (clock m) m).
    { unfold poll_transcription. change max_wait with (60 + 540).
      apply TranscribeFacts.poll_loop_fuel; [lia|].
      change (60 + 540) with max_wait. unfold max_wait. lia. }
    destruct (poll_loop_count 60 svc transcript_id (clock m) m) as (polls & T' & A' & L).
    rewrite <- E in T'. exists polls. split; [exact T'|]. split; [exact A'|].
    split; [|exact L].
    rewrite T in T'. apply app_inv_head in T'. subst polls. cbn. lia.
  - apply TranscribeFacts.poll_transcription_times_out.
Qed.

(** ** Once transcribed, never again *)

Lemma exists_file_grows (name : str) (c : content) (m : machine) (f : str) :
  exists_file m f = true -> exists_file (write_file name c m) f = true.
Proof.
  unfold exists_file, write_file. cbn [files]. rewrite existsb_app.
  intros ->. reflexivity.
Qed.

Lemma exists_file_written (name : str) (c : content) (m : machine) :
  exists_file (write_file name c m) name = true.
Proof.
  unfold exists_file, write_file. cbn [files]. rewrite existsb_app. cbn.
  rewrite eqb_refl. apply orb_true_r.
Qed.

Lemma mem_app_l x l l' : mem x l = true -> mem x (l ++ l') = true.
Proof. unfold mem. rewrite existsb_app. intros ->. reflexivity. Qed.


(** What [wait_and_store] keeps, and what it has written when it
    comes to its end. *)
Lemma wait_and_store_keeps svc ep yt id p m :
  let '(r, p1, m1) := wait_and_store svc ep yt id p m in
  (forall f, exists_file m f = true -> exists_file m1 f = true)
  /\ (forall x, mem x (or_empty (completed p)) = true ->
                mem x (or_empty (completed p1)) = true)
  /\ failed p1 = failed p
  /\ (pending p <> None -> pending p1 <> None)
  /\ (r = Ok tt -> exists_file m1 (output_name ep yt (lit ".md")) = true).
Proof.
  unfold wait_and_store.
  destruct (TranscribeFacts.poll_transcription_first svc id m)
    as (later & T & A & F & P).
  destruct (poll_transcription svc id m) as [[r | e] m0]; cbn [snd] in F.
  2:{ repeat split; auto; try discriminate.
      intros f H. unfold exists_file in *. rewrite F. exact H. }
  assert (G : forall (m' : machine) f,
             files m' = (files m0 ++ [(output_name ep yt (lit ".md"),
                                       Markdown (lit "# Episode " ++ ep
                                                 ++ lit " Transcript"
                                                 ++ [NEWLINE; NEWLINE]
                                                 ++ format_transcript_with_speakers r))])
                        ++ [(output_name ep yt (lit ".json"), RawJson r)] ->
             exists_file m f = true -> exists_file m' f = true).
  { intros m' f E H. unfold exists_file in *. rewrite E, F, !existsb_app, H.
    reflexivity. }
  assert (W : forall (m' : machine),
             files m' = (files m0 ++ [(output_name ep yt (lit ".md"),
                                       Markdown (lit "# Episode " ++ ep
                                                 ++ lit " Transcript"
                                                 ++ [NEWLINE; NEWLINE]
                                                 ++ format_transcript_with_speakers r))])
                        ++ [(output_name ep yt (lit ".json"), RawJson r)] ->
             exists_file m' (output_name ep yt (lit ".md")) = true).
  { intros m' E. unfold exists_file. rewrite E, !existsb_app. cbn [existsb fst].
    rewrite eqb_refl. cbn. rewrite orb_true_r. reflexivity. }
  destruct (completed p) as [done|] eqn:C; cbn [pending].
  - destruct (pending p) as [waiting|] eqn:Q.
    + split; [intros f; apply G; reflexivity|].
      split; [|split; [reflexivity | split; [discriminate|]]].
      * intros x H. cbn [completed or_empty] in *. apply mem_app_l, H.
      * intros _. apply W. reflexivity.
    + split; [intros f; apply G; reflexivity|].
      split; [|split; [reflexivity | split; [|discriminate]]].
      * intros x H. cbn [completed or_empty] in *. apply mem_app_l, H.
      * cbn [pending]. auto.
  - split; [intros f; apply G; reflexivity|].
    rewrite C. repeat split; auto; discriminate.
Qed.

(** X13: an episode that [transcribe_episode] has reported done is
    done for good: called again on the progress and the files it
    left, with any behaviour of the service, the function returns
    [True] at once, changing nothing and asking nothing. *)
Theorem transcribed_once (svc svc' : service) (episode_num youtube_id : str)
  (p p1 : progress) (m m1 : machine) :
  transcribe_episode svc episode_num youtube_id p m = (Ok true, p1, m1) ->
  transcribe_episode svc' episode_num youtube_id p1 m1 = (Ok true, p1, m1).
Proof.
  unfold transcribe_episode.
  destruct (exists_file m (output_name episode_num youtube_id (lit ".md"))) eqn:F.
  - intros E. injection E as <- <-. rewrite F. reflexivity.
  - destruct (mem episode_num (or_empty (completed p))) eqn:C.
    + intros E. injection E as <- <-. rewrite F, C. reflexivity.
    + unfold try_transcribe.
      destruct (job_to_wait_for svc episode_num youtube_id p m)
        as [[[id | e] p0] m0].
      * pose proof (wait_and_store_keeps svc episode_num youtube_id id p0 m0) as K.
        destruct (wait_and_store svc episode_num youtube_id id p0 m0)
          as [[[[] | e] p2] m2].
        -- destruct K as (_ & _ & _ & _ & K). intros E. injection E as <- <-.
           rewrite (K eq_refl). reflexivity.
        -- cbn [pending]. destruct (pending p2); discriminate.
      * cbn [pending]. destruct (pending p0); discriminate.
Qed.

(** Episode 1171 with a service that has the job done at once. *)
Lemma transcribed_once_witness :
  let '(_, p1, m1) :=
    transcribe_episode quick_service (lit "1171") (lit "8AkPm4Zy3MU")
      no_progress fresh_machine in
  transcribe_episode slow_service (lit "1171") (lit "8AkPm4Zy3MU") p1 m1
  = (Ok true, p1, m1).
Proof.
  destruct (transcribe_episode quick_service (lit "1171") (lit "8AkPm4Zy3MU")
              no_progress fresh_machine) as [[ok p1] m1] eqn:E.
  apply (transcribed_once quick_service slow_service (lit "1171")
           (lit "8AkPm4Zy3MU") no_progress p1 fresh_machine m1).
  rewrite E. f_equal. f_equal.
  apply (f_equal (fun r => fst (fst r))) in E. vm_compute in E.
  symmetry. exact E.
Defined.

(** ** The batch accounts for every episode *)










(** A progress file without the [pending] key, and a service that
    cannot find the audio: the first episode ends the batch. *)
Lemma keyless_progress_ends_batch :
  let svc := {| audio_url := fun _ => Raise (lit "Failed to get audio URL: ");
                submit := fun _ => Ok (lit "job-1");
                poll := fun _ _ => (Ok (Waiting (lit "processing")), 0) |} in
  let p := {| completed := Some []; failed := Some []; pending := None |} in
  transcribe_all svc [(lit "1171", lit "8AkPm4Zy3MU"); (lit "1170", lit "dQw4w9WgXcQ")]
    p fresh_machine 0 0
  = (Raise (lit "'pending'"),
     {| completed := Some [];
        failed := Some [(lit "1171", lit "Failed to get audio URL: ")];
        pending := None |},
     log (GetAudioURL (lit "8AkPm4Zy3MU")) fresh_machine, 0, 0).
Proof. vm_compute. reflexivity. Qed.

End TranscribeMoreFacts.

(* ================================================================== *)
(** * The caption download, run again *)
(* ================================================================== *)

Module CaptionPullFacts.
Import Py PyFacts PullYoutubeCaptions.

(** The ids [main] passes over: [completed_set]. *)
Definition completed_set (p : progress) : list str :=
  completed p ++ failed p ++ no_captions p.

Lemma record_keeps result yt_id p x :
  mem x (completed_set p) = true ->
  mem x (completed_set (record result yt_id p)) = true.
Proof.
  unfold completed_set, mem. rewrite !existsb_app.
  intros H. destruct result; cbn [record completed failed no_captions];
    rewrite ?existsb_app; cbn [existsb];
    apply orb_true_iff in H; destruct H as [H | H];
    try apply orb_true_iff in H; try destruct H as [H | H];
    rewrite H; rewrite ?orb_true_r; reflexivity.
Qed.

Lemma record_adds result yt_id p :
  mem yt_id (completed_set (record result yt_id p)) = true.
Proof.
  unfold completed_set, mem. rewrite !existsb_app.
  destruct result; cbn [record completed failed no_captions];
    rewrite ?existsb_app; cbn [existsb]; rewrite eqb_refl;
    rewrite ?orb_true_r; reflexivity.
Qed.

Lemma pull_records (U : Unicode) yt_dlp items : forall i p m,
  (forall x, mem x (completed_set p) = true ->
             mem x (completed_set (fst (process yt_dlp i items p m))) = true)
  /\ (forall e, In e items ->
                mem (snd e) (completed_set (fst (process yt_dlp i items p m))) = true).
Proof.
  induction items as [|[ep_num yt_id] rest IH]; intros i p m; cbn [process].
  - split; [auto | intros e []].
  - destruct (download_captions yt_dlp yt_id ep_num m) as [result m1].
    match goal with
    | |- context [process yt_dlp (S i) rest ?p1 ?m2] =>
        destruct (IH (S i) p1 m2) as (K & A)
    end.
    split.
    + intros x H. apply K, record_keeps, H.
    + intros e [<- | I]; [|apply A, I].
      apply K, record_adds.
Qed.

Lemma save_progress_twice p m :
  save_progress p (save_progress p m) = save_progress p m.
Proof. reflexivity. Qed.

(** X15: after [main] has returned, every video it was given is
    listed in the saved progress under completed, failed or
    no_captions; and a second run over the same episodes downloads
    nothing, whatever yt-dlp would do: it leaves the files and the
    progress as they are. A video that failed or timed out is
    therefore not tried again. *)
Theorem caption_pull_second_run (U : Unicode)
  (yt_dlp yt_dlp' : str -> subprocess) (with_yt : list (str * str))
  (m : machine) :
  let '(p1, m1) := main yt_dlp with_yt m in
  progress_file m1 = Some p1
  /\ Forall (fun e => mem (snd e) (completed_set p1) = true) with_yt
  /\ main yt_dlp' with_yt m1 = (p1, m1).
Proof.
  unfold main.
  set (todo := filter _ with_yt).
  destruct (pull_records U yt_dlp todo 0 (load_progress m) m) as (K & A).
  destruct (process yt_dlp 0 todo (load_progress m) m) as [p1 m0] eqn:E.
  cbn [fst] in K, A.
  assert (All : Forall (fun e => mem (snd e) (completed_set p1) = true) with_yt).
  { apply Forall_forall. intros e I.
    destruct (mem (snd e) (completed_set (load_progress m))) eqn:M.
    - apply K, M.
    - apply A. subst todo. apply filter_In. split; [exact I|].
      fold (completed_set (load_progress m)). rewrite M. reflexivity. }
  split; [reflexivity|]. split; [exact All|].
  cbn [load_progress save_progress progress_file].
  fold (completed_set p1).
  assert (N : filter (fun e => negb (mem (snd e) (completed_set p1))) with_yt = []).
  { clear -All. induction with_yt as [|e l IH]; [reflexivity|].
    inversion All as [|? ? He Hl]; subst. cbn [filter]. rewrite He. cbn [negb].
    apply IH, Hl. }
  rewrite N. reflexivity.
Qed.

End CaptionPullFacts.
From Stdlib Require Import DecimalNat.

(* ================================================================== *)
(** * The website catalog *)
(* ================================================================== *)

Module WebsiteFacts.
Import Py PyFacts SyncFromNotion.

(** ** [extract_youtube_id] *)

Lemma match_at_sound (p s id : str) :
  match_at p s = Some id ->
  len id = 11 /\ forallb id_char id = true /\ startswith s (p ++ id) = true.
Proof.
  unfold match_at. destruct (startswith s p) eqn:S; [|discriminate].
  apply startswith_spec in S. destruct S as [r ->].
  rewrite skipn_app, skipn_all, Nat.sub_diag. cbn [skipn app].
  pose proof (firstn_skipn 11 r) as R.
  remember (firstn 11 r) as i eqn:I. clear I.
  destruct (len i =? 11) eqn:L; [|discriminate].
  destruct (forallb id_char i) eqn:A; [|discriminate].
  intros E. injection E as ->. apply Nat.eqb_eq in L. repeat split; auto.
  apply startswith_spec. exists (skipn 11 r).
  rewrite <- app_assoc, R. reflexivity.
Qed.

Lemma match_at_complete (p s id : str) :
  startswith s (p ++ id) = true -> len id = 11 ->
  forallb id_char id = true -> match_at p s = Some id.
Proof.
  intros S L A. apply startswith_spec in S. destruct S as [r ->].
  unfold match_at.
  assert (S : startswith ((p ++ id) ++ r) p = true).
  { apply startswith_spec. exists (id ++ r). rewrite app_assoc. reflexivity. }
  rewrite S. rewrite <- app_assoc, skipn_app, skipn_all, Nat.sub_diag.
  cbn [skipn app]. rewrite firstn_app, <- L, firstn_all, Nat.sub_diag.
  cbn [firstn]. rewrite app_nil_r, A, Nat.eqb_refl. reflexivity.
Qed.

Lemma search_sound (p s id : str) :
  search p s = Some id ->
  len id = 11 /\ forallb id_char id = true /\ contains (p ++ id) s = true.
Proof.
  induction s as [|c s IH]; cbn [search].
  - destruct (match_at p []) as [i|] eqn:M; [|discriminate].
    intros [= ->]. destruct (match_at_sound _ _ _ M) as (L & A & S).
    repeat split; auto. cbn [contains]. rewrite S. reflexivity.
  - destruct (match_at p (c :: s)) as [i|] eqn:M.
    + intros [= ->]. destruct (match_at_sound _ _ _ M) as (L & A & S).
      repeat split; auto. cbn [contains]. rewrite S. reflexivity.
    + intros E. destruct (IH E) as (L & A & C). repeat split; auto.
      cbn [contains]. rewrite C. apply orb_true_r.
Qed.

Lemma search_complete (p s id : str) :
  search p s = None -> len id = 11 -> forallb id_char id = true ->
  contains (p ++ id) s = false.
Proof.
  intros E L A. induction s as [|c s IH]; cbn [search] in E; cbn [contains].
  - destruct (match_at p []) eqn:M; [discriminate|].
    destruct (startswith [] (p ++ id)) eqn:S; [|reflexivity].
    rewrite (match_at_complete _ _ _ S L A) in M. discriminate.
  - destruct (match_at p (c :: s)) eqn:M; [discriminate|].
    rewrite (IH E), orb_false_r.
    destruct (startswith (c :: s) (p ++ id)) eqn:S; [|reflexivity].
    rewrite (match_at_complete _ _ _ S L A) in M. discriminate.
Qed.

Lemma first_match_spec (ps : list str) (url : str) :
  match first_match ps url with
  | Some id =>
      len id = 11 /\ forallb id_char id = true
      /\ exists p, In p ps /\ contains (p ++ id) url = true
  | None =>
      forall p id, In p ps -> len id = 11 -> forallb id_char id = true ->
                   contains (p ++ id) url = false
  end.
Proof.
  induction ps as [|p ps IH]; cbn [first_match].
  - intros p id [].
  - destruct (search p url) as [id|] eqn:S.
    + destruct (search_sound _ _ _ S) as (L & A & C).
      repeat split; auto. exists p. split; [left; reflexivity | exact C].
    + destruct (first_match ps url) as [id|].
      * destruct IH as (L & A & q & I & C). repeat split; auto.
        exists q. split; [right; exact I | exact C].
      * intros q id [<- | I] L A; [apply search_complete; assumption|].
        apply IH; assumption.
Qed.

(** X16: [extract_youtube_id] returns an id exactly when the URL
    holds one of "youtu.be/", "youtube.com/watch?v=" or
    "youtube.com/embed/" followed by eleven characters of the class
    [[a-zA-Z0-9_-]]: the id returned has eleven characters of the
    class and stands in the URL behind one of the three; when nothing
    is returned the URL has no such place. *)
Theorem extract_youtube_id_spec (url : str) :
  match extract_youtube_id (Some url) with
  | Some id =>
      len id = 11 /\ forallb id_char id = true
      /\ exists p, In p PREFIXES /\ contains (p ++ id) url = true
  | None =>
      forall p id, In p PREFIXES -> len id = 11 -> forallb id_char id = true ->
                   contains (p ++ id) url = false
  end.
Proof.
  destruct url as [|c url]; [|exact (first_match_spec PREFIXES (c :: url))].
  cbn [extract_youtube_id]. intros p id _ L _.
  destruct id; [discriminate L|]. destruct p; reflexivity.
Qed.

(** ** The entries of the catalog *)

Lemma str_of_nat_nonempty (n : nat) : str_of_nat n <> [].
Proof.
  unfold str_of_nat.
  assert (H : Nat.to_uint n <> Decimal.Nil).
  { rewrite <- (DecimalNat.Unsigned.of_to n), DecimalNat.Unsigned.to_of.
    unfold Decimal.unorm. destruct (Decimal.nzhead (Nat.to_uint n)); discriminate. }
  destruct (Nat.to_uint n); try contradiction; discriminate.
Qed.

Lemma str_of_Z_nonempty (n : Z) : str_of_Z n <> [].
Proof.
  destruct n; cbn [str_of_Z]; try apply str_of_nat_nonempty. discriminate.
Qed.

Lemma nonempty_spec (s : str) : nonempty s = true <-> s <> [].
Proof. destruct s; cbn; split; congruence. Qed.

Lemma or_else_nonempty (s t : str) : t <> [] -> or_else s t <> [].
Proof.
  unfold or_else. destruct (nonempty s) eqn:N; [|auto].
  intros _. apply nonempty_spec, N.
Qed.

Lemma app_nonempty_l (a b : str) : a <> [] -> a ++ b <> [].
Proof. destruct a; [congruence | discriminate]. Qed.

(** X17: the loop of [main] passes over a page exactly when it has
    neither a guest name nor an episode number (a number 0 counts as
    none).  An entry it writes has a title and a topic that are not
    empty, the guest name stripped of white space, an episode field
    that is empty exactly when the page has no number, and a
    [youtubeId] only of eleven characters of the class
    [[a-zA-Z0-9_-]]. *)
Theorem transform_entry (nep : notion_episode) :
  match transform nep with
  | None =>
      get_text (episode_name nep) = [] /\ number_true (episode_no nep) = false
  | Some e =>
      (get_text (episode_name nep) <> [] \/ number_true (episode_no nep) = true)
      /\ title e <> [] /\ topic e <> []
      /\ guest e = strip (guest e)
      /\ (episode e = [] <-> number_true (episode_no nep) = false)
      /\ match youtubeId e with
         | Some id => len id = 11 /\ forallb id_char id = true
         | None => True
         end
  end.
Proof.
  unfold transform.
  set (g := get_text (episode_name nep)).
  set (t := get_text (podcast_title nep)).
  destruct (nonempty g || number_true (episode_no nep)) eqn:K; cbn [negb].
  2:{ apply orb_false_iff in K. destruct K as [G N]. split; [|exact N].
      destruct g; [reflexivity | discriminate G]. }
  cbn [title topic guest episode youtubeId].
  assert (T : (if number_true (episode_no nep) && nonempty g
               then if nonempty t
                    then lit "Ep"
                         ++ match episode_no nep with
                            | Some n => str_of_Z n
                            | None => lit "None"
                            end ++ lit ": " ++ g ++ lit ": " ++ t
                    else lit "Ep"
                         ++ match episode_no nep with
                            | Some n => str_of_Z n
                            | None => lit "None"
                            end ++ lit ": " ++ g
               else if nonempty g
                    then if nonempty t then g ++ lit ": " ++ t else g
                    else or_else t (lit "Untitled")) <> []).
  { destruct (number_true (episode_no nep) && nonempty g).
    - destruct (nonempty t); discriminate.
    - destruct (nonempty g) eqn:G.
      + apply nonempty_spec in G. destruct (nonempty t);
          [apply app_nonempty_l, G | exact G].
      + apply or_else_nonempty. discriminate. }
  split; [|split; [exact T | split; [apply or_else_nonempty, T | split; [|split]]]].
  - apply orb_true_iff in K. destruct K as [G | N]; [left | right; exact N].
    apply nonempty_spec, G.
  - subst g. unfold get_text. symmetry. apply NormalizerFacts.strip_id.
    apply NormalizerFacts.strip_stripped.
  - destruct (number_true (episode_no nep)) eqn:N.
    + split; [|discriminate]. destruct (episode_no nep) as [n|]; [|discriminate].
      intros E. destruct (str_of_Z_nonempty n E).
    + split; reflexivity.
  - destruct (youtube_link nep) as [[|c u]|]; try exact I.
    pose proof (first_match_spec PREFIXES (c :: u)) as X.
    cbn [extract_youtube_id].
    destruct (first_match PREFIXES (c :: u)) as [id|]; [|exact I].
    destruct X as (L & A & _). destruct id; [discriminate L|].
    cbn [nonempty]. split; assumption.
Qed.

End WebsiteFacts.
From Stdlib Require Import Sorted Permutation.

(* ================================================================== *)
(** * The episodes of a transcription batch *)
(* ================================================================== *)

Module BatchListFacts.
Import Py PyFacts Exn AssemblyaiEpisodes MoreInputs AsciiTables.

(** ** From the synced catalog *)

(** A link that holds neither of the two marks of a YouTube URL. *)
Definition no_youtube_mark (l : option str) : Prop :=
  match l with
  | Some l =>
      contains (lit "youtube.com/watch?v=") l = false
      /\ contains (lit "youtu.be/") l = false
  | None => True
  end.

Lemma to_transcribe_synced m (all_eps : list SyncFromNotion.notion_episode) :
  Forall (fun nep => no_youtube_mark (SyncFromNotion.spotify_link nep)) all_eps ->
  to_transcribe m (map as_read (SyncFromNotion.website_eps all_eps)) = [].
Proof.
  induction 1 as [|nep rest Hn Hr IH]; cbn [SyncFromNotion.website_eps map];
    [reflexivity|].
  unfold SyncFromNotion.transform.
  destruct (negb _); [exact IH|].
  cbn [map to_transcribe as_read link SyncFromNotion.link].
  destruct (SyncFromNotion.spotify_link nep) as [l|]; cbn [no_youtube_mark] in Hn.
  - unfold youtube_id_of. destruct Hn as [-> ->]. exact IH.
  - exact IH.
Qed.

(** X18: [episodes.json] as [sync_from_notion.py] writes it has the
    Spotify link of a page under [link] and the YouTube id under
    [youtubeId]; [get_episodes_to_transcribe] looks for the YouTube
    id in [link].  So when no Spotify link holds
    "youtube.com/watch?v=" or "youtu.be/", the batch finds no
    episode to transcribe, whatever the pages' YouTube links are. *)
Theorem synced_catalog_lists_nothing (U : Unicode)
  (m : AssemblyaiTranscribe.machine)
  (all_eps : list SyncFromNotion.notion_episode) (limit : option Z) :
  Forall (fun nep => no_youtube_mark (SyncFromNotion.spotify_link nep)) all_eps ->
  get_episodes_to_transcribe m
    (map as_read (SyncFromNotion.website_eps all_eps)) limit = Ok [].
Proof.
  intros H. unfold get_episodes_to_transcribe.
  rewrite (to_transcribe_synced m all_eps H). cbn [keyed fold_right map].
  destruct limit as [[|n|n]|]; try reflexivity.
  destruct (Pos.to_nat n); reflexivity.
Qed.

(** The page of episode 1171 has a YouTube link, and is not listed. *)
Lemma synced_catalog_lists_nothing_witness :
  map SyncFromNotion.youtubeId (SyncFromNotion.website_eps [jane_page])
  = [Some (lit "8AkPm4Zy3MU")]
  /\ get_episodes_to_transcribe Inputs.fresh_machine
       (map as_read (SyncFromNotion.website_eps [jane_page])) None = Ok [].
Proof.
  split; [vm_compute; reflexivity|].
  apply (synced_catalog_lists_nothing AsciiTables.ascii_unicode).
  repeat constructor; vm_compute; reflexivity.
Defined.

(** ** The list itself *)

Lemma to_transcribe_needs m (episodes : list catalog_entry) :
  Forall (fun j =>
            AssemblyaiTranscribe.exists_file m
              (output_file (job_episode j) (youtube_id j)) = false
            /\ youtube_id j <> []
            /\ exists ep, In ep episodes /\ episode ep = job_episode j)
    (to_transcribe m episodes).
Proof.
  induction episodes as [|ep rest IH]; cbn [to_transcribe]; [constructor|].
  assert (IH' : Forall (fun j =>
            AssemblyaiTranscribe.exists_file m
              (output_file (job_episode j) (youtube_id j)) = false
            /\ youtube_id j <> []
            /\ exists e, In e (ep :: rest) /\ episode e = job_episode j)
    (to_transcribe m rest)).
  { eapply Forall_impl; [|exact IH]. cbn beta.
    intros j (A & B & e & I & E). repeat split; auto.
    exists e. split; [right; exact I | exact E]. }
  destruct (youtube_id_of _) as [[|c id]|]; try exact IH'.
  destruct (AssemblyaiTranscribe.exists_file m _) eqn:F; [exact IH'|].
  constructor; [|exact IH'].
  cbn [job_episode youtube_id]. repeat split; [exact F | discriminate|].
  exists ep. split; [left; reflexivity | reflexivity].
Qed.

Definition newer (a b : Z * job) : Prop := (fst b <= fst a)%Z.

Lemma insert_desc_permutation x l : Permutation (insert_desc x l) (x :: l).
Proof.
  induction l as [|y l IH]; cbn [insert_desc]; [reflexivity|].
  destruct (fst x <? fst y)%Z; [|reflexivity].
  rewrite IH. apply perm_swap.
Qed.

Lemma insert_desc_newer x l : Sorted newer l -> Sorted newer (insert_desc x l).
Proof.
  induction 1 as [|y l Hs IH Hd]; cbn [insert_desc].
  - repeat constructor.
  - destruct (fst x <? fst y)%Z eqn:C.
    + apply Z.ltb_lt in C. constructor; [exact IH|].
      destruct l as [|z l]; cbn [insert_desc].
      * constructor. unfold newer. lia.
      * destruct (fst x <? fst z)%Z.
        -- inversion Hd; subst. constructor. assumption.
        -- constructor. unfold newer. lia.
    + apply Z.ltb_ge in C. constructor; [constructor; assumption|].
      constructor. unfold newer. exact C.
Qed.

(** The episode number of a job, as [int] reads it. *)
Definition number_of `{Unicode} (j : job) : option Z :=
  match job_episode j with
  | Some e => PyInt.int e
  | None => None
  end.

Lemma keyed_ok `{Unicode} (jobs : list job) kl :
  keyed jobs = Ok kl ->
  map snd kl = jobs /\ Forall (fun x => number_of (snd x) = Some (fst x)) kl.
Proof.
  revert kl. induction jobs as [|j jobs IH]; intros kl E; cbn [keyed] in E.
  - injection E as <-. split; [reflexivity | constructor].
  - destruct (job_episode j) as [e|] eqn:J; [|discriminate E].
    destruct (PyInt.int e) as [k|] eqn:K; [|discriminate E].
    destruct (keyed jobs) as [l|x]; [|discriminate E].
    injection E as <-. destruct (IH l eq_refl) as [M F].
    split; [cbn; rewrite M; reflexivity|].
    constructor; [|exact F]. unfold number_of. cbn [snd fst]. rewrite J. exact K.
Qed.

Lemma keyed_raises `{Unicode} (jobs : list job) x :
  keyed jobs = Raise x ->
  exists j, In j jobs /\ number_of j = None.
Proof.
  revert x. induction jobs as [|j jobs IH]; intros x; cbn [keyed]; [discriminate|].
  destruct (job_episode j) as [e|] eqn:J.
  - destruct (PyInt.int e) as [k|] eqn:K.
    + destruct (keyed jobs) as [l|y]; [discriminate|].
      intros _. destruct (IH y eq_refl) as (j' & I & N).
      exists j'. split; [right; exact I | exact N].
    + intros _. exists j. split; [left; reflexivity|].
      unfold number_of. rewrite J. exact K.
  - intros _. exists j. split; [left; reflexivity|].
    unfold number_of. rewrite J. reflexivity.
Qed.

(** [a] is listed before [b]: both have a number, that of [b] is no
    larger. *)
Definition listed_before `{Unicode} (a b : job) : Prop :=
  exists ka kb, number_of a = Some ka /\ number_of b = Some kb /\ (kb <= ka)%Z.

(** The number of jobs kept for [--limit]. *)
Definition kept (limit : option Z) (total : nat) : nat :=
  match limit with
  | None | Some 0%Z => total
  | Some (Zpos n) => Nat.min (Pos.to_nat n) total
  | Some (Zneg n) => total - Pos.to_nat n
  end.

(** X19: [get_episodes_to_transcribe] raises exactly when an episode
    that has a YouTube id and no transcript file has an [episode]
    that [int] does not read (the empty string, for one).  When it
    returns, the list is the head of the episodes that need a
    transcript, ordered by descending number: each one has a YouTube
    id and no transcript file; all of them for [--limit 0] as without
    the option, the first [n] of them for [--limit n]. *)
Theorem get_episodes_to_transcribe_result (U : Unicode)
  (m : AssemblyaiTranscribe.machine) (episodes : list catalog_entry)
  (limit : option Z) :
  match get_episodes_to_transcribe m episodes limit with
  | Raise _ =>
      exists j, In j (to_transcribe m episodes) /\ number_of j = None
  | Ok jobs =>
      Forall (fun j => number_of j <> None) (to_transcribe m episodes)
      /\ (exists all,
             Permutation all (to_transcribe m episodes)
             /\ Sorted listed_before all
             /\ jobs = firstn (kept limit (len all)) all)
      /\ Forall (fun j =>
                   AssemblyaiTranscribe.exists_file m
                     (output_file (job_episode j) (youtube_id j)) = false
                   /\ youtube_id j <> []) jobs
  end.
Proof.
  unfold get_episodes_to_transcribe.
  pose proof (to_transcribe_needs m episodes) as N.
  destruct (keyed (to_transcribe m episodes)) as [kl|x] eqn:K;
    [|exact (keyed_raises _ _ K)].
  destruct (keyed_ok _ _ K) as [M F].
  assert (P : Permutation (fold_right insert_desc [] kl) kl).
  { clear. induction kl as [|x kl IH]; cbn [fold_right]; [reflexivity|].
    rewrite insert_desc_permutation, IH. reflexivity. }
  assert (S : Sorted newer (fold_right insert_desc [] kl)).
  { clear. induction kl as [|x kl IH]; cbn [fold_right]; [constructor|].
    apply insert_desc_newer. exact IH. }
  assert (F' : Forall (fun x => number_of (snd x) = Some (fst x))
                 (fold_right insert_desc [] kl)).
  { rewrite Forall_forall in *. intros x I. apply F.
    eapply Permutation_in; [exact P | exact I]. }
  set (all := map snd (fold_right insert_desc [] kl)).
  assert (PA : Permutation all (to_transcribe m episodes)).
  { rewrite <- M. apply Permutation_map. exact P. }
  assert (E : match limit with
              | None | Some 0%Z => all
              | Some (Zpos n) => firstn (Pos.to_nat n) all
              | Some (Zneg n) => firstn (len all - Pos.to_nat n) all
              end = firstn (kept limit (len all)) all).
  { destruct limit as [[|n|n]|]; cbn [kept]; rewrite ?firstn_all; try reflexivity.
    destruct (Nat.le_ge_cases (Pos.to_nat n) (len all)) as [L | L].
    - rewrite Nat.min_l by exact L. reflexivity.
    - rewrite Nat.min_r by exact L. rewrite firstn_all.
      apply firstn_all2. exact L. }
  rewrite E. split; [|split].
  - rewrite <- M. clear -F. induction F as [|x l Hx Hl IH]; cbn [map];
      constructor; [rewrite Hx; discriminate | exact IH].
  - exists all. split; [exact PA|]. split; [|reflexivity].
    subst all. revert S F'. generalize (fold_right insert_desc [] kl). clear.
    induction 1 as [|y l Hs IH Hd]; intros F; cbn [map]; [constructor|].
    inversion F as [|? ? Fy Fl]; subst. constructor; [apply IH; exact Fl|].
    destruct Hd as [|z l Hb]; cbn [map]; constructor.
    inversion Fl; subst. exists (fst y), (fst z). auto.
  - apply Forall_forall. intros j I.
    assert (I' : In j (to_transcribe m episodes)).
    { eapply Permutation_in; [exact PA|].
      rewrite <- (firstn_skipn (kept limit (len all)) all).
      apply in_or_app. left. exact I. }
    rewrite Forall_forall in N. destruct (N j I') as (A & B & _). split; assumption.
Qed.

End BatchListFacts.
From Stdlib Require Import DecimalString.

(* ================================================================== *)
(** * The caption text files and the catalog file *)
(* ================================================================== *)

Module CaptionFileFacts.
Import Py PyFacts SyncYoutubeTranscriptsToNotion PullYoutubeCaptionsFiles.

(** ** [convert_vtt_to_txt] and [parse_vtt_to_text] *)

Lemma lstrip_snoc (x : str) (c : char) :
  isspace c = true ->
  lstrip (x ++ [c]) = match lstrip x with [] => [] | l => l ++ [c] end.
Proof.
  intros Hc. induction x as [|d x IH]; cbn [app lstrip].
  - rewrite Hc. reflexivity.
  - destruct (isspace d); [exact IH | reflexivity].
Qed.

Lemma strip_snoc (x : str) (c : char) :
  isspace c = true -> strip (x ++ [c]) = strip x.
Proof.
  intros Hc. unfold strip. rewrite (lstrip_snoc x c Hc).
  destruct (lstrip x) as [|d l]; [reflexivity|].
  unfold rstrip. rewrite rev_unit. cbn [lstrip]. rewrite Hc. reflexivity.
Qed.

Lemma text_lines_cons (U : Unicode) (a b : str) (r r' : list str) :
  strip a = strip b -> text_lines r = text_lines r' ->
  text_lines (a :: r) = text_lines (b :: r').
Proof. intros E R. cbn [text_lines]. rewrite E, R. reflexivity. Qed.

(** The first part of a line list, with [p] put before it. *)
Definition prepend (p : str) (ls : list str) : list str :=
  match ls with
  | l :: ls' => (p ++ l) :: ls'
  | [] => [p]
  end.

Lemma split_on_cons (c : char) (s : str) :
  exists l ls, split_on c s = l :: ls.
Proof.
  destruct s as [|d s]; cbn [split_on]; [eauto|].
  destruct (d =? c)%N; [eauto|]. destruct (split_on c s); eauto.
Qed.

Lemma readlines_from_split (U : Unicode) (s cur : str) :
  text_lines (readlines_from cur s)
  = text_lines (prepend (rev cur) (split_on NEWLINE s)).
Proof.
  revert cur. induction s as [|c s IH]; intros cur; cbn [readlines_from split_on].
  - cbn [prepend]. rewrite app_nil_r. destruct cur; reflexivity.
  - destruct (N.eqb_spec c NEWLINE) as [-> | Hc].
    + cbn [prepend]. rewrite app_nil_r. apply text_lines_cons.
      * cbn [rev]. apply strip_snoc. reflexivity.
      * rewrite (IH []). destruct (split_on_cons NEWLINE s) as (l & ls & ->).
        reflexivity.
    + rewrite (IH (c :: cur)).
      destruct (split_on_cons NEWLINE s) as (l & ls & ->).
      cbn [prepend rev]. rewrite <- app_assoc. reflexivity.
Qed.

Lemma remove_tags_from_incl (s : str) : forall skip c,
  In c (remove_tags_from skip s) -> In c s.
Proof.
  induction s as [|d s IH]; intros skip c; cbn [remove_tags_from]; [auto|].
  destruct skip as [|k].
  - destruct (tag_length (d :: s)) as [[|k]|].
    + intros [<- | I]; [left; reflexivity | right; exact (IH _ _ I)].
    + intros I. right. exact (IH _ _ I).
    + intros [<- | I]; [left; reflexivity | right; exact (IH _ _ I)].
  - intros I. right. exact (IH _ _ I).
Qed.

Lemma text_lines_one_line (U : Unicode) (lines : list str) :
  Forall (fun l => ~ In NEWLINE l) lines ->
  Forall (fun l => ~ In NEWLINE l) (text_lines lines).
Proof.
  induction 1 as [|line lines Hl Hls IH]; cbn [text_lines]; [constructor|].
  destruct (is_header_or_timing (strip line)); [exact IH|].
  destruct (isdigit (strip line)); [exact IH|].
  destruct (remove_tags (strip line)) as [|c t] eqn:E; [exact IH|].
  constructor; [|exact IH]. rewrite <- E. intros I. apply Hl.
  apply NormalizerFacts.strip_incl. exact (remove_tags_from_incl _ _ _ I).
Qed.

(** A line break becomes a space. *)
Definition on_one_line (s : str) : str :=
  map (fun c => if (c =? NEWLINE)%N then SPACE else c) s.

Lemma on_one_line_id (l : str) : ~ In NEWLINE l -> on_one_line l = l.
Proof.
  induction l as [|c l IH]; intros H; [reflexivity|]. cbn [on_one_line map].
  destruct (N.eqb_spec c NEWLINE) as [-> | _]; [elim H; left; reflexivity|].
  f_equal. apply IH. intros I. apply H. right. exact I.
Qed.

Lemma on_one_line_join (ls : list str) :
  Forall (fun l => ~ In NEWLINE l) ls ->
  on_one_line (join [NEWLINE] ls) = join [SPACE] ls.
Proof.
  induction 1 as [|l ls Hl Hls IH]; [reflexivity|].
  destruct ls as [|l2 ls]; [apply on_one_line_id, Hl|].
  rewrite !NormalizerFacts.join_cons2.
  unfold on_one_line in *. rewrite !map_app.
  f_equal; [apply on_one_line_id, Hl|]. f_equal. exact IH.
Qed.

(** X20: the text that [convert_vtt_to_txt] writes for a caption
    file is, line break for space, the text that [parse_vtt_to_text]
    of the sync script makes of the same file: the two scripts keep
    the same lines, in the same order. *)
Theorem txt_file_is_published_text (U : Unicode) (content : str) :
  option_map on_one_line (convert_vtt_to_txt false (Some content))
  = Some (parse_vtt_to_text content).
Proof.
  unfold convert_vtt_to_txt, parse_vtt_to_text, readlines. cbn [option_map].
  rewrite readlines_from_split. cbn [rev].
  destruct (split_on_cons NEWLINE content) as (l & ls & E).
  assert (P : prepend [] (split_on NEWLINE content) = split_on NEWLINE content).
  { rewrite E. reflexivity. }
  rewrite P. f_equal. apply on_one_line_join.
  apply NormalizerFacts.dedupe_keeps, text_lines_one_line.
  apply NormalizerFacts.split_on_lines.
Qed.

(** ** [load_episodes] on the file of [sync_from_notion.py] *)

Lemma find_app (c : char) (a b : str) :
  ~ In c a -> find c (a ++ c :: b) = Z.of_nat (len a).
Proof.
  induction a as [|d a IH]; intros H; cbn [app find].
  - rewrite N.eqb_refl. reflexivity.
  - destruct (N.eqb_spec d c) as [-> | _]; [elim H; left; reflexivity|].
    rewrite IH by (intros I; apply H; right; exact I).
    destruct (Z.ltb_spec (Z.of_nat (len a)) 0); cbn [List.length]; lia.
Qed.

Lemma rfind_none (c : char) (b : str) : ~ In c b -> rfind c b = (-1)%Z.
Proof.
  induction b as [|d b IH]; intros H; cbn [rfind]; [reflexivity|].
  rewrite IH by (intros I; apply H; right; exact I). cbn.
  destruct (N.eqb_spec d c) as [-> | _]; [elim H; left; reflexivity | reflexivity].
Qed.

Lemma rfind_app (c : char) (a b : str) :
  ~ In c b -> rfind c (a ++ c :: b) = Z.of_nat (len a).
Proof.
  intros H. induction a as [|d a IH]; cbn [app rfind].
  - rewrite (rfind_none c b H), N.eqb_refl. reflexivity.
  - rewrite IH. destruct (Z.leb_spec 0 (Z.of_nat (len a))); cbn [List.length]; lia.
Qed.

Lemma slice_middle (a d b : str) :
  slice (a ++ d ++ b) (Z.of_nat (len a)) (Z.of_nat (len a + len d)) = d.
Proof.
  unfold slice, clamp. rewrite !length_app.
  destruct (Z.ltb_spec (Z.of_nat (len a)) 0); [lia|].
  destruct (Z.ltb_spec (Z.of_nat (len a + len d)) 0); [lia|].
  rewrite !Z.min_l by lia. rewrite !Nat2Z.id.
  replace (len a + len d - len a) with (len d) by lia.
  rewrite skipn_app, skipn_all, Nat.sub_diag. cbn [skipn app].
  rewrite firstn_app, firstn_all, Nat.sub_diag. cbn [firstn]. apply app_nil_r.
Qed.

Lemma array_text_middle (before mid tail : str) :
  ~ In 91%N before -> ~ In 93%N tail ->
  array_text (before ++ (91%N :: mid ++ [93%N]) ++ tail) = 91%N :: mid ++ [93%N].
Proof.
  intros B T. unfold array_text.
  assert (F : find 91%N (before ++ (91%N :: mid ++ [93%N]) ++ tail)
              = Z.of_nat (len before)).
  { exact (find_app 91%N before ((mid ++ [93%N]) ++ tail) B). }
  assert (R : rfind 93%N (before ++ (91%N :: mid ++ [93%N]) ++ tail)
              = Z.of_nat (len (before ++ 91%N :: mid))).
  { assert (E : before ++ (91%N :: mid ++ [93%N]) ++ tail
                = (before ++ 91%N :: mid) ++ 93%N :: tail).
    { cbn [app]. rewrite <- !app_assoc. reflexivity. }
    rewrite E. exact (rfind_app 93%N (before ++ 91%N :: mid) tail T). }
  rewrite F, R.
  assert (L : (Z.of_nat (len (before ++ 91%N :: mid)) + 1)%Z
              = Z.of_nat (len before + len (91%N :: mid ++ [93%N]))).
  { rewrite length_app. cbn [List.length]. rewrite length_app. cbn [List.length]. lia. }
  rewrite L. apply slice_middle.
Qed.

Lemma digits_no_bracket (d : Decimal.uint) (c : char) :
  In c (lit (NilEmpty.string_of_uint d)) -> (48 <= c <= 57)%N.
Proof.
  induction d; cbn; intros H; try contradiction;
    destruct H as [<- | H]; try (apply IHd; exact H); lia.
Qed.

Lemma pad_digits (w n : nat) (c : char) : In c (SyncFromNotion.pad w n) -> c <> 91%N.
Proof.
  unfold SyncFromNotion.pad. rewrite in_app_iff. intros [H | H].
  - apply repeat_spec in H. subst c. discriminate.
  - apply digits_no_bracket in H. lia.
Qed.

Lemma lit_without (t : string) (c : char) :
  forallb (fun d => negb (d =? c)%N) (lit t) = true -> ~ In c (lit t).
Proof.
  intros F I. rewrite forallb_forall in F. specialize (F c I).
  rewrite N.eqb_refl in F. discriminate.
Qed.

Lemma isoformat_no_bracket (t : SyncFromNotion.datetime) :
  ~ In 91%N (SyncFromNotion.isoformat t).
Proof.
  unfold SyncFromNotion.isoformat. rewrite !in_app_iff.
  assert (P : forall w n, ~ In 91%N (SyncFromNotion.pad w n)).
  { intros w n I. exact (pad_digits w n _ I eq_refl). }
  assert (L : forall s, forallb (fun d => negb (d =? 91)%N) (lit s) = true ->
                        ~ In 91%N (lit s)) by (intros s; apply lit_without).
  intros H.
  repeat (destruct H as [H | H]; [try (exact (P _ _ H)); try (revert H; apply L; reflexivity)|]).
  destruct (SyncFromNotion.microsecond t); [exact H|].
  rewrite in_app_iff in H. destruct H as [H | H]; [|exact (P _ _ H)].
  revert H. apply L. reflexivity.
Qed.

Lemma episodes_json_brackets (eps : list SyncFromNotion.website_episode) :
  exists mid, SyncFromNotion.episodes_json eps = 91%N :: mid ++ [93%N].
Proof.
  unfold SyncFromNotion.episodes_json.
  destruct (map SyncFromNotion.json_of_episode eps) as [|v vs];
    cbn [SyncFromNotion.encode].
  - exists []. reflexivity.
  - eexists. change (lit "[") with [91%N]. change (lit "]") with [93%N].
    cbn [app]. f_equal. rewrite !app_assoc. reflexivity.
Qed.

(** X21: from the text of [js/episodes.js] as [sync_from_notion.py]
    writes it, whatever the time of the sync and whatever the
    episodes hold (brackets included), [load_episodes] cuts out
    exactly the JSON text of the episodes, the text of
    [episodes.json]. *)
Theorem load_episodes_finds_the_array (now : SyncFromNotion.datetime)
  (eps : list SyncFromNotion.website_episode) :
  array_text (SyncFromNotion.episodes_js now eps)
  = SyncFromNotion.episodes_json eps.
Proof.
  set (header := lit "// Episode data - auto-synced from Notion" ++ [NEWLINE]).
  set (sync := lit "// Last sync: " ++ SyncFromNotion.isoformat now ++ [NEWLINE]).
  set (const := lit "const EPISODES = " ++ [NEWLINE]).
  set (tail := lit ";" ++ [NEWLINE]).
  set (before := header ++ sync ++ const).
  destruct (episodes_json_brackets eps) as (mid & E).
  assert (A : SyncFromNotion.episodes_js now eps
              = before ++ (91%N :: mid ++ [93%N]) ++ tail).
  { unfold SyncFromNotion.episodes_js. rewrite E.
    subst before header sync const tail. rewrite <- !app_assoc. reflexivity. }
  assert (B : ~ In 91%N before).
  { subst before header sync const. rewrite !in_app_iff.
    intros [[H | H] | [[H | [H | H]] | [H | H]]].
    - revert H. apply lit_without. reflexivity.
    - destruct H as [H | []]. discriminate H.
    - revert H. apply lit_without. reflexivity.
    - exact (isoformat_no_bracket now H).
    - destruct H as [H | []]. discriminate H.
    - revert H. apply lit_without. reflexivity.
    - destruct H as [H | []]. discriminate H. }
  assert (T : ~ In 93%N tail).
  { subst tail. intros [H | [H | []]]; discriminate H. }
  rewrite A, E. exact (array_text_middle before mid tail B T).
Qed.

End CaptionFileFacts.

(* ================================================================== *)
(** * From the workspace database to the Drive *)
(* ================================================================== *)

Module DriveFacts.
Import Py PyFacts Notion Chunks Exn SyncTranscriptsToDrive Inputs MoreInputs.
Import AsciiTables.

(** ** What [get_notion_transcript] reads *)

(** A heading with text: the text of its first item. *)
Definition heading_text (b : block) : option str :=
  if startswith (type b) (lit "heading")
  then match plain_texts b with first :: _ => Some first | [] => None end
  else None.

Definition is_transcript_heading `{Unicode} (b : block) : bool :=
  match heading_text b with
  | Some first => contains (lit "transcript") (lower first)
  | None => false
  end.


(** The texts of a paragraph, nothing for any other block. *)
Definition paragraph_texts (b : block) : list str :=
  if eqb (type b) (lit "paragraph") then plain_texts b else [].





(** ** Reading back what the caption sync wrote *)

Lemma children_of_append ps (p : page_id) bs new :
  children_of ps p = Some bs ->
  children_of (append_to ps p new) p = Some (bs ++ new).
Proof.
  induction ps as [|[q kids] ps IH]; cbn [children_of append_to]; [discriminate|].
  destruct (eqb q p) eqn:E.
  - intros [= <-]. cbn [children_of]. rewrite E. reflexivity.
  - intros H. cbn [children_of]. rewrite E. exact (IH H).
Qed.

Lemma paragraphs_read (U : Unicode) (texts : list str) :
  transcript_lines true (map as_returned (map paragraph texts)) = texts.
Proof.
  induction texts as [|t texts IH]; [reflexivity|].
  cbn [map]. unfold paragraph at 1. cbn [as_returned transcript_lines type].
  assert (H : startswith (lit "paragraph") (lit "heading") = false) by reflexivity.
  rewrite H, eqb_refl. cbn [andb]. unfold plain_texts. cbn [rich_text map text_item app].
  rewrite IH. reflexivity.
Qed.

Lemma split_ws_from_space (a b cur : str) (c : char) :
  isspace c = true ->
  split_ws_from cur (a ++ c :: b) = split_ws_from cur a ++ split b.
Proof.
  intros Hc. revert cur. induction a as [|d a IH]; intros cur;
    cbn [app split_ws_from].
  - rewrite Hc. destruct cur; reflexivity.
  - destruct (isspace d).
    + destruct cur; rewrite IH; reflexivity.
    + apply IH.
Qed.

Lemma split_paragraphs (parts : list str) :
  split (join [NEWLINE; NEWLINE] parts) = flat_map split parts.
Proof.
  induction parts as [|a parts IH]; [reflexivity|].
  destruct parts as [|b parts].
  - cbn [join flat_map]. rewrite app_nil_r. reflexivity.
  - rewrite NormalizerFacts.join_cons2. cbn [flat_map] in *.
    unfold split at 1. cbn [app].
    rewrite (split_ws_from_space a _ [] NEWLINE eq_refl).
    fold (split a). f_equal. rewrite <- IH. reflexivity.
Qed.

(** The texts of the paragraphs that [add_transcript_to_page] of the
    caption sync sends. *)
Definition written (transcript_text : str) : list str :=
  let chunks := split_chunks transcript_text in
  firstn 97 chunks
  ++ (if 97 <? len chunks
      then [SyncYoutubeTranscriptsToNotion.truncation_marker (len chunks - 97)]
      else []).

(** X23: what [sync_youtube_transcripts_to_notion.py] writes,
    [get_notion_transcript] reads back.  On a page that had no
    children, with both exchanges answered and a [lower] that turns
    the heading written into one with "transcript" in it:
    [add_transcript_to_page] succeeds, and [get_notion_transcript]
    then returns the paragraphs sent, joined by empty lines ([None]
    when there was no paragraph).  When nothing was cut off (at most
    97 paragraphs) the text returned has the words of the transcript,
    in their order. *)
Theorem drive_reads_what_the_sync_wrote (U : Unicode) (w : Notion.world)
  (page : page_id) (transcript_text : str) :
  children_of (pages w) page = Some [] ->
  faults w = [] ->
  contains (lit "transcript") (lower TRANSCRIPT_HEADING) = true ->
  let '(w1, ok) :=
    SyncYoutubeTranscriptsToNotion.add_transcript_to_page w page transcript_text in
  ok = Ok true
  /\ snd (get_notion_transcript w1 page)
     = match written transcript_text with
       | [] => None
       | lines => Some (join [NEWLINE; NEWLINE] lines)
       end
  /\ (len (split_chunks transcript_text) <= 97 ->
      split (join [NEWLINE; NEWLINE] (written transcript_text))
      = split transcript_text).
Proof.
  intros K F L.
  unfold SyncYoutubeTranscriptsToNotion.add_transcript_to_page,
    SyncYoutubeTranscriptsToNotion.notion_request, exchange.
  rewrite F. cbn [answer]. rewrite K. cbn [tl].
  split; [reflexivity|]. split.
  - unfold get_notion_transcript, exchange. cbn [faults pages answer tl].
    rewrite (children_of_append _ _ _
               (SyncYoutubeTranscriptsToNotion.transcript_blocks transcript_text) K).
    cbn [app snd].
    assert (B : SyncYoutubeTranscriptsToNotion.transcript_blocks transcript_text
                = Divider :: heading_block :: map paragraph (written transcript_text)).
    { unfold SyncYoutubeTranscriptsToNotion.transcript_blocks, written.
      cbn zeta. rewrite map_app.
      destruct (97 <? len (split_chunks transcript_text)); reflexivity. }
    assert (N : len (SyncYoutubeTranscriptsToNotion.transcript_blocks transcript_text)
                <= 100).
    { rewrite B. cbn [List.length]. rewrite length_map. unfold written.
      rewrite length_app.
      pose proof (firstn_le_length 97 (split_chunks transcript_text)).
      destruct (97 <? len (split_chunks transcript_text)); cbn [List.length]; lia. }
    rewrite (firstn_all2 _ N), B. unfold transcript_of.
    cbn [map]. cbn [as_returned transcript_lines type andb].
    assert (H1 : startswith (lit "divider") (lit "heading") = false) by reflexivity.
    assert (H2 : startswith (lit "heading_2") (lit "heading") = true) by reflexivity.
    rewrite H1. cbn [app].
    change (type (as_returned heading_block)) with (lit "heading_2").
    rewrite H2. unfold plain_texts at 1.
    change (rich_text (as_returned heading_block))
      with (Some [Some TRANSCRIPT_HEADING]).
    cbn [map]. rewrite L. rewrite paragraphs_read. reflexivity.
  - intros C. unfold written.
    rewrite (firstn_all2 (split_chunks transcript_text) C).
    destruct (Nat.ltb_spec 97 (len (split_chunks transcript_text))); [lia|].
    rewrite app_nil_r, split_paragraphs.
    unfold split_chunks.
    destruct (ChunkWordFacts.chunk_loop_words (split transcript_text) ([], [], 0))
      as [E H'].
    { constructor. }
    { apply ChunkWordFacts.split_words. }
    destruct (fold_left chunk_step (split transcript_text) ([], [], 0))
      as [[chunks cur] clen].
    unfold ChunkWordFacts.words_of in E. cbn [app] in E.
    destruct cur as [|x cur]; [rewrite app_nil_r in E; exact E|].
    rewrite flat_map_app. cbn [flat_map]. rewrite app_nil_r.
    rewrite (ChunkWordFacts.split_join _ H'). exact E.
Qed.

(** The page of episode 7 and the talk of 20 words. *)
Lemma drive_reads_what_the_sync_wrote_witness :
  let '(w1, ok) :=
    SyncYoutubeTranscriptsToNotion.add_transcript_to_page two_pages
      (lit "page-7") short_talk in
  ok = Ok true
  /\ snd (@get_notion_transcript ascii_unicode w1 (lit "page-7"))
     = match written short_talk with
       | [] => None
       | lines => Some (join [NEWLINE; NEWLINE] lines)
       end
  /\ (len (split_chunks short_talk) <= 97 ->
      split (join [NEWLINE; NEWLINE] (written short_talk)) = split short_talk).
Proof.
  apply (drive_reads_what_the_sync_wrote ascii_unicode two_pages (lit "page-7")
           short_talk); vm_compute; reflexivity.
Defined.

(** ** The loop of [main] *)

Section Loop.
Context {W : Type} (svc : services W).

(** The number of entries recorded. *)
Definition recorded (p : progress) : nat :=
  len (synced p) + len (skipped p) + len (errors p).

(** The text of a document asked for. *)
Definition content_of (c : creation) : str := snd c.

Lemma sync_one_accounts (i : nat) (ep : matched_entry) (p : progress)
  (m : machine W) :
  let '(p1, m1) := sync_one svc i ep p m in
  recorded p1 = recorded p + 1
  /\ last_index p1 = i + 1
  /\ progress_file m1 = Some p1
  /\ exists new,
       created m1 = created m ++ new /\ len new <= 1
       /\ Forall (fun c => 100 <= len (content_of c)) new.
Proof.
  unfold sync_one.
  assert (Skip : forall v (m' : machine W),
             created m' = created m ->
             let p1 := add_skipped v i p in
             recorded p1 = recorded p + 1
             /\ last_index p1 = i + 1
             /\ progress_file (save_progress p1 m') = Some p1
             /\ exists new,
                  created (save_progress p1 m') = created m ++ new
                  /\ len new <= 1
                  /\ Forall (fun c => 100 <= len (content_of c)) new).
  { intros v m' C. cbn zeta. repeat split.
    - unfold recorded, add_skipped. cbn [synced skipped errors].
      rewrite length_app. cbn [List.length]. lia.
    - exists []. cbn [save_progress created]. rewrite C, app_nil_r.
      repeat split; [cbn; lia | constructor]. }
  assert (Err : forall v (m' : machine W) new,
             created m' = created m ++ new -> len new <= 1 ->
             Forall (fun c => 100 <= len (content_of c)) new ->
             let p1 := add_error v i p in
             recorded p1 = recorded p + 1
             /\ last_index p1 = i + 1
             /\ progress_file (save_progress p1 m') = Some p1
             /\ exists new,
                  created (save_progress p1 m') = created m ++ new
                  /\ len new <= 1
                  /\ Forall (fun c => 100 <= len (content_of c)) new).
  { intros v m' new C L F. cbn zeta. repeat split.
    - unfold recorded, add_error. cbn [synced skipped errors].
      rewrite length_app. cbn [List.length]. lia.
    - exists new. cbn [save_progress created]. repeat split; assumption. }
  destruct (check_existing_transcript_doc svc (folder_id ep) (world m))
    as [[name|] w1]; [apply Skip; reflexivity|].
  destruct (query_page svc _ w1) as [[[page|] | e] w2];
    [| apply Skip; reflexivity
     | apply (Err _ _ []); [cbn; rewrite app_nil_r; reflexivity | cbn; lia | constructor]].
  destruct (notion_transcript svc page w2) as [[text|] w3];
    [|apply Skip; reflexivity].
  destruct text as [|c text]; [apply Skip; reflexivity|].
  destruct (len (c :: text) <? 100) eqn:Short; [apply Skip; reflexivity|].
  apply Nat.ltb_ge in Short.
  destruct (create_google_doc svc _ _ _ w3) as [[[|d doc_id]|] w4].
  - eapply Err; [reflexivity | cbn; lia | constructor; [exact Short | constructor]].
  - repeat split.
    + unfold recorded, add_synced. cbn [synced skipped errors].
      rewrite length_app. cbn [List.length]. lia.
    + eexists. cbn [save_progress created]. split; [reflexivity|].
      split; [cbn; lia | constructor; [exact Short | constructor]].
  - eapply Err; [reflexivity | cbn; lia | constructor; [exact Short | constructor]].
Qed.

Lemma sync_from_accounts (eps : list matched_entry) : forall i p (m : machine W),
  let '(p1, m1) := sync_from svc i eps p m in
  recorded p1 = recorded p + len eps
  /\ (eps <> [] -> last_index p1 = i + len eps /\ progress_file m1 = Some p1)
  /\ (eps = [] -> p1 = p /\ m1 = m)
  /\ exists new,
       created m1 = created m ++ new /\ len new <= len eps
       /\ Forall (fun c => 100 <= len (content_of c)) new.
Proof.
  induction eps as [|ep rest IH]; intros i p m; cbn [sync_from].
  - split; [cbn; lia|]. split; [congruence|]. split; [auto|].
    exists []. rewrite app_nil_r. repeat split; [cbn; lia | constructor].
  - pose proof (sync_one_accounts i ep p m) as A.
    destruct (sync_one svc i ep p m) as [p1 m1].
    destruct A as (R1 & L1 & F1 & new1 & C1 & N1 & T1).
    specialize (IH (S i) p1 m1).
    destruct (sync_from svc (S i) rest p1 m1) as [p2 m2].
    destruct IH as (R2 & L2 & E2 & new2 & C2 & N2 & T2).
    split; [cbn [List.length]; lia|]. split; [|split; [discriminate|]].
    + intros _. destruct rest as [|ep2 rest].
      * destruct (E2 eq_refl) as [-> ->]. split; [cbn; lia | exact F1].
      * destruct L2 as [L2 F2]; [discriminate|]. split; [cbn [List.length] in *; lia | exact F2].
    + exists (new1 ++ new2). rewrite C2, C1, <- app_assoc. split; [reflexivity|].
      split; [rewrite length_app; cbn [List.length]; lia | apply Forall_app; split; assumption].
Qed.

Lemma sync_from_app (l1 l2 : list matched_entry) : forall i p (m : machine W),
  sync_from svc i (l1 ++ l2) p m
  = let '(p1, m1) := sync_from svc i l1 p m in
    sync_from svc (i + len l1) l2 p1 m1.
Proof.
  induction l1 as [|ep l1 IH]; intros i p m; cbn [app sync_from List.length].
  - rewrite Nat.add_0_r. reflexivity.
  - destruct (sync_one svc i ep p m) as [p1 m1]. rewrite IH.
    replace (S i + len l1) with (i + S (len l1)) by lia. reflexivity.
Qed.

(** The entries [main] goes through, from [start_index] on. *)
Definition todo (matched : list matched_entry) (limit : option Z)
  (start_index : nat) : list matched_entry :=
  match limit with
  | None | Some 0%Z => skipn start_index matched
  | Some (Zpos n) => firstn (Pos.to_nat n) (skipn start_index matched)
  | Some (Zneg _) => []
  end.

Lemma main_todo (matched : list matched_entry) (limit : option Z)
  (resume : bool) (m : machine W) :
  main svc matched limit resume m
  = sync_from svc (if resume then last_index (load_progress m) else 0)
      (todo matched limit (if resume then last_index (load_progress m) else 0))
      (if resume then load_progress m else SyncTranscriptsToDrive.no_progress) m.
Proof.
  unfold main.
  set (start := if resume then last_index (load_progress m) else 0).
  assert (E : (if resume
               then last_index (if resume then load_progress m
                                else SyncTranscriptsToDrive.no_progress)
               else 0) = start) by (destruct resume; reflexivity).
  rewrite E. f_equal.
  pose proof (length_skipn start matched) as K.
  unfold todo. destruct limit as [[|n|n]|].
  - apply firstn_all2. lia.
  - destruct (Z.le_ge_cases (Z.of_nat start + Z.pos n) (Z.of_nat (len matched)))
      as [L | L].
    + rewrite Z.min_l by exact L. f_equal. lia.
    + rewrite Z.min_r by exact L.
      rewrite firstn_all2 by lia. symmetry. apply firstn_all2. lia.
  - replace (Z.to_nat _) with 0 by lia. reflexivity.
  - apply firstn_all2. lia.
Qed.

(** X24: [main] goes through the entries from the start index on
    (0, or [last_index] of the progress file with [--resume]): all of
    them without [--limit] or with [--limit 0], the first [n] with
    [--limit n], none with a negative limit.  Whatever the services
    answer, each of these entries is recorded once, under synced,
    skipped or errors; after the last one [last_index] is the index
    behind it and the progress file holds the progress; with no entry
    to go through the file is not touched.  At most one document is
    asked for per entry, and none with a text under 100 characters. *)
Theorem drive_sync_accounts (matched : list matched_entry) (limit : option Z)
  (resume : bool) (m : machine W) :
  let start_index := if resume then last_index (load_progress m) else 0 in
  let before := if resume then load_progress m else SyncTranscriptsToDrive.no_progress in
  let eps := todo matched limit start_index in
  let '(p1, m1) := main svc matched limit resume m in
  recorded p1 = recorded before + len eps
  /\ (eps <> [] ->
      last_index p1 = start_index + len eps /\ progress_file m1 = Some p1)
  /\ (eps = [] -> p1 = before /\ m1 = m)
  /\ exists new,
       created m1 = created m ++ new /\ len new <= len eps
       /\ Forall (fun c => 100 <= len (content_of c)) new.
Proof.
  cbn zeta. rewrite main_todo. apply sync_from_accounts.
Qed.

(** The limit of the one run that does what a run with [--limit a]
    and then a run with [--resume --limit b] do.  Line 146 reads a
    limit of 0 as no limit at all, and a negative [b] leaves the
    second run nothing to do. *)
Definition one_run_limit (a b : Z) : option Z :=
  if ((a =? 0) || (b =? 0))%Z then None
  else if (b <? 0)%Z then Some a
  else Some (a + b)%Z.

Lemma skipn_firstn_length {A : Type} (n : nat) (l : list A) :
  skipn (len (firstn n l)) l = skipn n l.
Proof.
  rewrite length_firstn.
  destruct (Nat.le_ge_cases n (len l)) as [H | H].
  - rewrite (Nat.min_l _ _ H). reflexivity.
  - rewrite (Nat.min_r _ _ H), skipn_all, (skipn_all2 l H). reflexivity.
Qed.

Lemma firstn_add {A : Type} (n k : nat) (l : list A) :
  firstn (n + k) l = firstn n l ++ firstn k (skipn n l).
Proof.
  revert l. induction n as [|n IH]; intros l; [reflexivity|].
  destruct l as [|x l]; [cbn; rewrite firstn_nil; reflexivity|].
  cbn [Nat.add firstn skipn app]. rewrite IH. reflexivity.
Qed.

Lemma todo_two_runs (matched : list matched_entry) (a b : Z) :
  (0 <= a)%Z ->
  todo matched (one_run_limit a b) 0
  = todo matched (Some a) 0
    ++ todo matched (Some b) (len (todo matched (Some a) 0)).
Proof.
  intros A. unfold one_run_limit.
  destruct a as [|n|n]; [| |lia].
  - cbn [Z.eqb orb todo skipn]. rewrite skipn_all.
    destruct b as [|k|k]; cbn [todo]; rewrite ?firstn_nil, app_nil_r;
      reflexivity.
  - destruct b as [|k|k]; cbn [Z.eqb orb Z.ltb Z.compare todo skipn].
    + rewrite skipn_firstn_length. symmetry. apply firstn_skipn.
    + change (Z.pos n + Z.pos k)%Z with (Z.pos (n + k)). cbn [todo skipn].
      rewrite skipn_firstn_length, Pos2Nat.inj_add. apply firstn_add.
    + rewrite app_nil_r. reflexivity.
Qed.

(** X25: two runs as one.  With limits of at least 1, a run with
    [--limit a] followed by a run with [--resume --limit b] does what
    one run with [--limit a+b] does: it leaves the services in the
    same state, with the same documents asked for, the same progress
    and the same progress file.  This is not so at 0, which line 146
    reads as no limit: when [a] or [b] is 0 the two runs do what one
    run without [--limit] does, and with a negative [b] the second
    run does nothing ([one_run_limit]).  (The matched file must not
    be empty and [a] not negative: the first run then writes the
    progress file that the second one starts from.) *)
Theorem limit_then_resume (matched : list matched_entry) (a b : Z)
  (m : machine W) :
  matched <> [] ->
  (0 <= a)%Z ->
  let '(_, m1) := main svc matched (Some a) false m in
  main svc matched (Some b) true m1
  = main svc matched (one_run_limit a b) false m
  /\ ((1 <= a)%Z -> (1 <= b)%Z -> one_run_limit a b = Some (a + b)%Z).
Proof.
  intros NE A. rewrite !main_todo.
  pose proof (sync_from_accounts (todo matched (Some a) 0) 0
                SyncTranscriptsToDrive.no_progress m) as R.
  destruct (sync_from svc 0 (todo matched (Some a) 0)
              SyncTranscriptsToDrive.no_progress m) as [p1 m1] eqn:E1.
  destruct R as (_ & L & _ & _).
  destruct L as [L F].
  { destruct matched as [|e l]; [congruence|].
    destruct a as [|n|n]; [discriminate | | lia].
    cbn [todo skipn]. destruct (Pos.to_nat n) eqn:Pn; [lia | discriminate]. }
  split.
  - rewrite main_todo. unfold load_progress. rewrite F.
    rewrite (todo_two_runs matched a b A), sync_from_app, E1.
    rewrite L. reflexivity.
  - intros A1 B1. unfold one_run_limit.
    destruct (Z.eqb_spec a 0); [lia|]. destruct (Z.eqb_spec b 0); [lia|].
    cbn [orb]. destruct (Z.ltb_spec b 0); [lia | reflexivity].
Qed.

End Loop.

(** One episode, then one more, as two at once. *)
Lemma limit_then_resume_witness :
  let '(_, m1) := main willing_services three_matched (Some 1%Z) false empty_machine in
  main willing_services three_matched (Some 1%Z) true m1
  = main willing_services three_matched (one_run_limit 1 1) false empty_machine
  /\ ((1 <= 1)%Z -> (1 <= 1)%Z -> one_run_limit 1 1 = Some (1 + 1)%Z).
Proof.
  apply (limit_then_resume willing_services three_matched 1 1 empty_machine).
  - discriminate.
  - lia.
Defined.

(** With a second limit of 0 the two runs go through all three
    entries, where one run with [--limit 1] stops after the first. *)
Lemma resume_with_limit_zero :
  let '(_, m1) := main willing_services three_matched (Some 1%Z) false empty_machine in
  len (created (snd (main willing_services three_matched (Some 0%Z) true m1))) = 3
  /\ len (created (snd (main willing_services three_matched (Some 1%Z) false
                          empty_machine))) = 1.
Proof. vm_compute. split; reflexivity. Qed.

End DriveFacts.
